(** * axcommutator: the order dispatch pipeline, embedded and verified

    The first part embeds the Go sources, package by package:
    - [GoStrings]   the functions of Go's [strings] and [unicode/utf8]
                    packages the program calls;
    - [Template]    [Contains] and [FillTemplate] (utils.go);
    - [Config]      the tenant registry (config.go);
    - [Files]       the ephemeral file store (files.go);
    - [Telegram]    the chat channel (telegram.go);
    - [Email]       the email channel (email.go);
    - [Middleware]  the client address and the rate limiter (middleware.go);
    - [Handlers]    [HandleProjectOrder] and its helpers (handlers.go).
    The second part holds the notions the specification speaks of
    ([EscapeSpec], [TemplateSpec], [PipelineSpec]) and sample data, the
    third the proofs.

    Go strings are byte sequences and are modelled by [string] (a list of
    8-bit [ascii]); [[]byte] buffers are [list byte]; Go maps are [gmap]s,
    and a [range] loop over a map visits the entries in an order chosen by
    the runtime, which is an explicit argument of every function that
    ranges over a map. Library functions that are not part of the
    repository are parameters ([Lib]); the replies of the mail relay, of
    the bot API and of the database are parameters too ([Outside]). The
    filesystem is a finite map from paths to contents: reading a path
    succeeds exactly when it is bound, removing a path unbinds it. *)

From Stdlib Require Import ZArith Strings.Ascii Strings.String Strings.Byte List Lia Bool.
From Stdlib Require Import Numbers.DecimalString.
From Stdlib Require Import Sorting.Sorted Sorting.Mergesort Structures.Orders.
From stdpp Require Import gmap strings list fin_maps.

Local Open Scope string_scope.

(* ===================================================================== *)
(** * Go's [strings] package, as far as the program uses it *)
(* ===================================================================== *)

Module GoStrings.

(** [strings.HasPrefix(s, prefix)]. *)
Fixpoint HasPrefix (s pre : string) {struct pre} : bool :=
  match pre with
  | EmptyString => true
  | String p pre' =>
      match s with
      | EmptyString => false
      | String c s' => if Ascii.eqb c p then HasPrefix s' pre' else false
      end
  end.

(** [utf8.DecodeRuneInString]: the width in bytes of the first rune of a
    non-empty string whose first byte is [c]; an ill-formed sequence
    decodes as a rune of width 1 (RuneError). *)
Definition is_cont (c : ascii) : bool :=
  let n := N_of_ascii c in ((128 <=? n) && (n <=? 191))%N.

Definition in_range (lo hi : N) (c : ascii) : bool :=
  let n := N_of_ascii c in ((lo <=? n) && (n <=? hi))%N.

Definition runeWidth (c : ascii) (rest : string) : nat :=
  let n := N_of_ascii c in
  if (n <? 128)%N then 1
  else if in_range 194 223 c then
    match rest with
    | String c1 _ => if is_cont c1 then 2 else 1
    | _ => 1
    end
  else if in_range 224 239 c then
    match rest with
    | String c1 (String c2 _) =>
        let lo := if (n =? 224)%N then 160%N else 128%N in
        let hi := if (n =? 237)%N then 159%N else 191%N in
        if in_range lo hi c1 && is_cont c2 then 3 else 1
    | _ => 1
    end
  else if in_range 240 244 c then
    match rest with
    | String c1 (String c2 (String c3 _)) =>
        let lo := if (n =? 240)%N then 144%N else 128%N in
        let hi := if (n =? 244)%N then 143%N else 191%N in
        if in_range lo hi c1 && is_cont c2 && is_cont c3 then 4 else 1
    | _ => 1
    end
  else 1.

(** [utf8.RuneCountInString]: bytes that are skipped belong to the rune
    counted before them. *)
Fixpoint runeCountFrom (skip : nat) (s : string) : nat :=
  match s with
  | EmptyString => 0
  | String c rest =>
      match skip with
      | S k => runeCountFrom k rest
      | O => S (runeCountFrom (runeWidth c rest - 1) rest)
      end
  end.

Definition RuneCountInString (s : string) : nat := runeCountFrom 0 s.

(** [strings.ReplaceAll(s, old, new)] for a non-empty [old]: scan from
    the left; where [old] occurs, emit [new] and jump over the
    occurrence ([skip] counts the bytes of it still to jump over). *)
Fixpoint replaceFrom (old new : string) (skip : nat) (s : string) : string :=
  match s with
  | EmptyString => EmptyString
  | String c rest =>
      match skip with
      | S k => replaceFrom old new k rest
      | O =>
          if HasPrefix s old
          then new ++ replaceFrom old new (String.length old - 1) rest
          else String c (replaceFrom old new 0 rest)
      end
  end.

(** For the empty [old], Go inserts [new] before every rune and at the
    end of the string. *)
Fixpoint insertAtRunes (new : string) (skip : nat) (s : string) : string :=
  match s with
  | EmptyString => new
  | String c rest =>
      match skip with
      | S k => String c (insertAtRunes new k rest)
      | O => new ++ String c (insertAtRunes new (runeWidth c rest - 1) rest)
      end
  end.

Definition ReplaceAll (s old new : string) : string :=
  match old with
  | EmptyString => insertAtRunes new 0 s
  | String _ _ => replaceFrom old new 0 s
  end.

(** [strings.ToLower] on the ASCII letters; the program applies it to
    service names. Bytes outside [A-Z] are kept. *)
Definition lowerByte (c : ascii) : ascii :=
  let n := N_of_ascii c in
  if ((65 <=? n) && (n <=? 90))%N then ascii_of_N (n + 32) else c.

Fixpoint ToLower (s : string) : string :=
  match s with
  | EmptyString => EmptyString
  | String c s' => String (lowerByte c) (ToLower s')
  end.

Definition backslash : ascii := "092"%char.

(** Does byte [c] occur in [s]? *)
Fixpoint hasByte (c : ascii) (s : string) : bool :=
  match s with
  | EmptyString => false
  | String x s' => Ascii.eqb x c || hasByte c s'
  end.

End GoStrings.
Export GoStrings.

(* ===================================================================== *)
(** * utils.go: Contains and FillTemplate *)
(* ===================================================================== *)

(** A Go [interface{}] value, as far as the handlers put values into the
    template data: strings and (in the older handler) an integer. *)
Inductive Value : Type :=
  | VString (s : string)
  | VInt (n : Z)
  | VBool (b : bool).

(** [fmt.Sprintf("%v", value)]. *)
Definition Sprint (v : Value) : string :=
  match v with
  | VString s => s
  | VInt n => NilZero.string_of_int (Z.to_int n)
  | VBool b => if b then "true" else "false"
  end.

Module Template.

(** [utils.Contains(slice, item)]. *)
Fixpoint Contains (slice : list string) (item : string) : bool :=
  match slice with
  | [] => false
  | s :: rest => if String.eqb s item then true else Contains rest item
  end.

Definition placeholder (key : string) : string := "{" ++ key ++ "}".

(** One iteration of the loop of [FillTemplate]. *)
Definition fillStep (result : string) (kv : string * Value) : string :=
  let strValue :=
    match kv.2 with
    | VString s => s
    | other => Sprint other
    end in
  ReplaceAll result (placeholder kv.1) strValue.

(** [utils.FillTemplate(template, data)]; [visit] lists the entries of
    [data] in the order in which the [range] loop visits them. *)
Definition FillTemplate (visit : list (string * Value)) (template : string) : string :=
  fold_left fillStep visit template.

End Template.
Export Template.

(** The orders in which a [range] loop may visit a map. *)
Definition range_order {V} (m : gmap string V) (visit : list (string * V)) : Prop :=
  visit ≡ₚ map_to_list m.


(* ===================================================================== *)
(** * The standard library, the runtime and the outside world *)
(* ===================================================================== *)

(** Functions of Go's standard library and of third-party packages that
    the program calls and that are not part of the repository. *)
Record Lib := {
  (** [filetype.IsMIME(data, mime)] (github.com/h2non/filetype) *)
  IsMIME : list byte -> string -> bool;
  (** [http.DetectContentType(data)] *)
  DetectContentType : list byte -> string;
  (** [sha256.Sum256(data)] *)
  Sum256 : list byte -> list byte;
  (** [base64.StdEncoding.EncodeToString(data)] *)
  Base64 : list byte -> string;
  (** does [mail.ParseAddress(addr)] return without error? *)
  ParseAddressOk : string -> bool;
  (** [strings.TrimSpace] *)
  TrimSpace : string -> string;
  (** the host returned by [net.SplitHostPort] *)
  SplitHost : string -> string;
}.


(** Choices of the Go runtime and of the operating system during one run:
    the order in which each [range] statement visits its map (the [nat]
    tells the statements apart), the identifier [uuid.New()] returns for
    the file with a given label, the clock (one reading per run), which
    directory creations and file writes fail, and what a failed
    [os.WriteFile] leaves at its path: nothing new when the file could
    not be opened ([None]), or else the file, created or truncated, with
    the first [n] bytes of the data ([Some n]). *)
Record Sched := {
  rangeData : nat -> gmap string Value -> list (string * Value);
  rangeFiles : gmap string (list byte) -> list (string * list byte);
  rangePaths : nat -> gmap string string -> list (string * string);
  newUUID : string -> string;
  clock : Z;
  mkdirFails : string -> bool;
  writeFails : string -> bool;
  writeLeaves : string -> option nat;
}.

(** Every [range] statement visits each entry of its map exactly once. *)
Record Sched_ok (sc : Sched) : Prop := {
  rangeData_ok : forall site m, range_order m (rangeData sc site m);
  rangeFiles_ok : forall m, range_order m (rangeFiles sc m);
  rangePaths_ok : forall site m, range_order m (rangePaths sc site m);
}.

(** The canonical schedule: maps are visited in the order of
    [map_to_list] and nothing fails. *)
Definition plainSched (uuid : string -> string) (now : Z) : Sched :=
  {| rangeData := fun _ m => map_to_list m;
     rangeFiles := fun m => map_to_list m;
     rangePaths := fun _ m => map_to_list m;
     newUUID := uuid;
     clock := now;
     mkdirFails := fun _ => false;
     writeFails := fun _ => false;
     writeLeaves := fun _ => None |}.

(** Results of fallible functions. *)
Inductive result (E A : Type) : Type :=
  | Ok (a : A)
  | Err (e : E).
Arguments Ok {E A} a.
Arguments Err {E A} e.

(* ===================================================================== *)
(** * config.go: the tenant registry *)
(* ===================================================================== *)

Module Config.

Record SMTPConfig := {
  User : string; Password : string; Host : string; Port : string;
  From : string; Admin : string;
}.

Record TelegramConfig := { BotToken : string; ChatID : string }.

Record EmailTemplate := { Subject : string; Body : string }.

Record ServiceConfig := {
  Name : string;
  SMTP : SMTPConfig;
  Telegram : TelegramConfig;
  EmailTemplates : gmap string EmailTemplate;
  TelegramTemplates : gmap string string;
  TelegramTemplatePaths : gmap string string;
  EmailTemplateSubjectPaths : gmap string string;
  EmailTemplateBodyPaths : gmap string string;
  SupportedLangs : list string;
}.

(** [tc.Configured()] *)
Definition Configured (tc : TelegramConfig) : bool :=
  negb (String.eqb (BotToken tc) "") && negb (String.eqb (ChatID tc) "").

(** [config.GetService(name)] over the registry [services]. *)
Definition GetService (services : gmap string ServiceConfig) (name : string)
  : option ServiceConfig :=
  services !! ToLower name.

(** Indexing a Go map of strings: the zero value when the key is absent. *)
Definition mapIndex (m : gmap string string) (k : string) : string :=
  default "" (m !! k).

End Config.
Export Config.

(* ===================================================================== *)
(** * The state the program acts on *)
(* ===================================================================== *)

(** A row of table [project_orders], as bound by [logOrderToDB]. *)
Record OrderRow := {
  row_service_name : string;
  row_full_name : string;
  row_company_name : string;
  row_contact_info : string;
  row_project_link : string;
  row_payment_method : string;
  row_start_date : string;
  row_language : string;
  row_ip_address : string;
  row_user_agent : string;
  row_created_at : Z;
}.

(** What leaves the process towards the delivery channels. *)
Inductive Wire : Type :=
  | SmtpMail (addr : string) (auth : string * string * string) (from : string)
             (recipients : list string) (msg : string)
  | TelegramPost (botToken chatID text : string).

(** Replies of the outside world: the mail relay, the bot API and the
    database. *)
Inductive PostReply : Type :=
  | PostFailed                          (* client.Post returned an error *)
  | ReadFailed                          (* io.ReadAll failed *)
  | Status (code : Z) (body : string)   (* a status other than 200 *)
  | Unparsable                          (* json.Unmarshal failed *)
  | Reply (ok : bool) (description : string) (error_code : Z).

Record Outside := {
  smtpFails : string -> list string -> string -> bool;
  telegramReply : string -> string -> string -> PostReply;
  dbRejects : OrderRow -> bool;
}.

(** The errors of the two channels. *)
Inductive TemplateError : Type :=
  | ErrInvalidTemplate
  | ErrLoadTemplate (path : string).

Inductive TelegramError : Type :=
  | ErrTelegramNotConfigured
  | ErrTemplate (e : TemplateError)
  | ErrMessageTooLong (n : Z)
  | ErrSend (r : PostReply)
  | ErrAPI (description : string) (error_code : Z).

Inductive EmailError : Type :=
  | ErrInvalidRecipient
  | ErrSMTP.

Record EmailAttachment := { AName : string; Content : list byte }.

(** The calls the order handler makes to its collaborators, with what
    they returned; the journal exists for the specification only. *)
Inductive Event : Type :=
  | EmailCalled (service : ServiceConfig) (subject body recipient : string)
                (attachments : list EmailAttachment) (err : option EmailError)
  | TelegramCalled (service : ServiceConfig) (lang : string)
                   (data : gmap string Value) (err : option TelegramError)
  | AuditCalled (row : OrderRow) (rejected : bool).

Record World := {
  files : gmap string (list byte);      (* the filesystem *)
  timers : list (string * Z);           (* deletions armed by SaveTempFile *)
  project_orders : list OrderRow;       (* the audit table *)
  wire : list Wire;                     (* traffic sent so far, oldest first *)
  journal : list Event;
}.

Definition set_files (f : gmap string (list byte) -> gmap string (list byte)) (w : World) : World :=
  {| files := f (files w); timers := timers w;
     project_orders := project_orders w; wire := wire w; journal := journal w |}.

Definition arm_timer (path : string) (d : Z) (w : World) : World :=
  {| files := files w; timers := timers w ++ [(path, d)];
     project_orders := project_orders w; wire := wire w; journal := journal w |}.

Definition send (x : Wire) (w : World) : World :=
  {| files := files w; timers := timers w;
     project_orders := project_orders w; wire := wire w ++ [x]; journal := journal w |}.

Definition insert_row (r : OrderRow) (w : World) : World :=
  {| files := files w; timers := timers w;
     project_orders := project_orders w ++ [r]; wire := wire w; journal := journal w |}.

Definition note (e : Event) (w : World) : World :=
  {| files := files w; timers := timers w;
     project_orders := project_orders w; wire := wire w; journal := journal w ++ [e] |}.

(** [os.ReadFile], [os.Remove] *)
Definition ReadFile (w : World) (path : string) : option (list byte) := files w !! path.
Definition Remove (path : string) (w : World) : World := set_files (delete path) w.

(* ===================================================================== *)
(** * files.go: the ephemeral file store *)
(* ===================================================================== *)

Module Files.

Inductive FileError : Type :=
  | ErrFileTooLarge
  | ErrInvalidFileType
  | ErrCreateDir
  | ErrWriteFile.

Definition MaxFileSize : Z := Z.shiftl 10 20.
Definition PDFMagicNumber : string := "%PDF-".
(** [24 * time.Hour], in nanoseconds *)
Definition CleanupInterval : Z := 24 * 3600 * 1000000000.

Record FileInfo := {
  UUID : string;
  Path : string;
  FName : string;
  Size : Z;
  Sha256 : string;
  MimeType : string;
  CreatedAt : Z;
  ExpiresAt : Z;
}.

Definition pdfSignature : list byte := list_byte_of_string PDFMagicNumber.

(** The path [SaveTempFile] writes to for the label [pre]. *)
Definition tempPath (sc : Sched) (pre : string) : string :=
  "app/storage/temp/" ++ pre ++ "_" ++ newUUID sc pre ++ ".pdf".

(** [bytes.HasPrefix(data, prefix)] *)
Fixpoint bytesHasPrefix (data pre : list byte) {struct pre} : bool :=
  match pre with
  | [] => true
  | p :: pre' =>
      match data with
      | [] => false
      | d :: data' => if Byte.eqb d p then bytesHasPrefix data' pre' else false
      end
  end.

Definition len {A} (l : list A) : Z := Z.of_nat (List.length l).

(** [ValidatePDF(data)] *)
Definition ValidatePDF (lib : Lib) (data : list byte) : bool :=
  if (len data <? Z.of_nat (String.length PDFMagicNumber))%Z then false
  else bytesHasPrefix data (list_byte_of_string PDFMagicNumber)
       && IsMIME lib data "application/pdf".

(** [hex.EncodeToString] *)
Definition hexDigit (n : N) : ascii :=
  ascii_of_N (if (n <? 10)%N then 48 + n else 87 + n).

Fixpoint hexEncode (data : list byte) : string :=
  match data with
  | [] => EmptyString
  | b :: rest =>
      let n := Byte.to_N b in
      String (hexDigit (n / 16)) (String (hexDigit (n mod 16)) (hexEncode rest))
  end.

(** [filepath.Join(dir, name)] for a clean [dir] other than "/" and "."
    and a [name] that is a single path element other than "." and "..":
    the program joins the constant elements app, storage and temp and
    the file name [prefix + "_" + uuid + ".pdf"] of a label the handler
    passes, and the constant directory of the migrations and the name of
    one of its entries. The cleaning [filepath.Join] applies to other
    arguments is not modelled here; [CleanOldFiles], whose directory is
    arbitrary, takes [filepath.Join] as a parameter. *)
Definition Join (dir name : string) : string := dir ++ "/" ++ name.

Definition storagePath : string := Join (Join "app" "storage") "temp".

(** [SaveTempFile(data, prefix)] *)
Definition SaveTempFile (lib : Lib) (sc : Sched) (w : World)
    (data : list byte) (pre : string) : World * result FileError FileInfo :=
  if (len data >? MaxFileSize)%Z then (w, Err ErrFileTooLarge)
  else if mkdirFails sc storagePath then (w, Err ErrCreateDir)
  else
    let fileID := newUUID sc pre in
    let fileName := pre ++ "_" ++ fileID ++ ".pdf" in
    let filePath := Join storagePath fileName in
    if writeFails sc filePath then
      (* the function returns without removing what the write left *)
      (match writeLeaves sc filePath with
       | None => w
       | Some n => set_files (insert filePath (firstn n data)) w
       end, Err ErrWriteFile)
    else
      let w1 := set_files (insert filePath data) w in
      let hashStr := hexEncode (Sum256 lib data) in
      let mimeType := DetectContentType lib data in
      if negb (HasPrefix mimeType "application/pdf")
      then (Remove filePath w1, Err ErrInvalidFileType)
      else
        let fileInfo :=
          {| UUID := fileID; Path := filePath; FName := fileName;
             Size := len data; Sha256 := hashStr; MimeType := mimeType;
             CreatedAt := clock sc;
             ExpiresAt := (clock sc + CleanupInterval)%Z |} in
        (arm_timer (Path fileInfo) CleanupInterval w1, Ok fileInfo).

End Files.
Export Files.

(* ===================================================================== *)
(** * telegram.go: the chat channel *)
(* ===================================================================== *)

Module Telegram.

Definition maxMessageLength : Z := 4096.

(** The language whose template is used: the requested one when an
    in-memory template exists for it, else the first supported one. *)
Definition templateLang (service : ServiceConfig) (lang : string) : option string :=
  match TelegramTemplates service !! lang with
  | Some _ => Some lang
  | None =>
      match SupportedLangs service with
      | [] => None
      | first :: _ => Some first
      end
  end.

(** The fallback of [getLocalizedTemplate] to the in-memory template. *)
Definition inMemoryTemplate (service : ServiceConfig) (lang : string)
  : result TemplateError string :=
  match TelegramTemplates service !! lang with
  | Some template =>
      if String.eqb template "" then Err ErrInvalidTemplate else Ok template
  | None => Err ErrInvalidTemplate
  end.

(** [getLocalizedTemplate(service, lang)] *)
Definition getLocalizedTemplate (w : World) (service : ServiceConfig) (lang : string)
  : result TemplateError string :=
  match templateLang service lang with
  | None => Err ErrInvalidTemplate
  | Some lang =>
      match TelegramTemplatePaths service !! lang with
      | Some path =>
          if negb (String.eqb path "") then
            match ReadFile w path with
            | None => Err (ErrLoadTemplate path)
            | Some content => Ok (string_of_list_byte content)
            end
          else inMemoryTemplate service lang
      | None => inMemoryTemplate service lang
      end
  end.

(** [renderTemplate(template, data)]; it never returns an error. *)
Definition renderStep (result : string) (kv : string * Value) : string :=
  ReplaceAll result (placeholder kv.1) (Sprint kv.2).

Definition renderTemplate (visit : list (string * Value)) (template : string) : string :=
  fold_left renderStep visit template.

Definition specials : list string :=
  ["_"; "*"; "["; "]"; "("; ")"; "~"; "`"; ">"; "#";
   "+"; "-"; "="; "|"; "{"; "}"; "."; "!"].

(** [EscapeMarkdownV2(text)] *)
Definition EscapeMarkdownV2 (text : string) : string :=
  fold_left (fun text s => ReplaceAll text s (String backslash s)) specials text.

(** [sendTelegramRequest(botToken, chatID, message)] *)
Definition sendTelegramRequest (out : Outside) (w : World)
    (botToken chatID message : string)
  : World * result PostReply (bool * string * Z) :=
  let w1 := send (TelegramPost botToken chatID message) w in
  match telegramReply out botToken chatID message with
  | Reply ok description code => (w1, Ok (ok, description, code))
  | failure => (w1, Err failure)
  end.

(** [SendTelegramNotification(service, lang, data)]; [visit] is the
    order in which [renderTemplate] ranges over [data]. *)
Definition SendTelegramNotification (out : Outside) (w : World)
    (service : ServiceConfig) (lang : string) (visit : list (string * Value))
  : World * option TelegramError :=
  if negb (Configured (Telegram service)) then (w, Some ErrTelegramNotConfigured)
  else
    match getLocalizedTemplate w service lang with
    | Err e => (w, Some (ErrTemplate e))
    | Ok template =>
        let message := renderTemplate visit template in
        let message := EscapeMarkdownV2 message in
        if (Z.of_nat (String.length message) >? maxMessageLength)%Z
        then (w, Some (ErrMessageTooLong (Z.of_nat (String.length message))))
        else
          match sendTelegramRequest out w (BotToken (Telegram service))
                                    (ChatID (Telegram service)) message with
          | (w1, Err e) => (w1, Some (ErrSend e))
          | (w1, Ok (ok, description, code)) =>
              if negb ok then (w1, Some (ErrAPI description code))
              else (w1, None)
          end
    end.

End Telegram.
Export Telegram.

(* ===================================================================== *)
(** * email.go: the email channel *)
(* ===================================================================== *)

Module Email.

Definition CRLF : string := String "013" (String "010" EmptyString).
Definition dquote : string := String "034" EmptyString.

(** [filepath.Base(path)] *)
Fixpoint lastElement (cur best s : string) : string :=
  match s with
  | EmptyString => if String.eqb cur "" then best else cur
  | String c s' =>
      if Ascii.eqb c "/"
      then lastElement "" (if String.eqb cur "" then best else cur) s'
      else lastElement (cur ++ String c "") best s'
  end.

Definition Base (path : string) : string :=
  if String.eqb path "" then "."
  else
    let b := lastElement "" "" path in
    if String.eqb b "" then "/" else b.

(** The loop writing the base64 text in lines of 76 characters. *)
Fixpoint wrapLines (fuel : nat) (encoded : string) : string :=
  match fuel with
  | O => EmptyString
  | S fuel' =>
      match encoded with
      | EmptyString => EmptyString
      | _ =>
          substring 0 76 encoded ++ CRLF
          ++ wrapLines fuel' (substring 76 (String.length encoded - 76) encoded)
      end
  end.

Definition boundary : string := "AXCOMMUTATOR-MIME-BOUNDARY".

Definition attachmentPart (lib : Lib) (a : EmailAttachment) : string :=
  "--" ++ boundary ++ CRLF
  ++ "Content-Type: application/pdf" ++ CRLF
  ++ "Content-Transfer-Encoding: base64" ++ CRLF
  ++ "Content-Disposition: attachment; filename=" ++ dquote ++ AName a ++ dquote ++ CRLF
  ++ CRLF
  ++ (let encoded := Base64 lib (Content a) in
      wrapLines (String.length encoded) encoded).

Definition mimeMessage (lib : Lib) (service : ServiceConfig)
    (subject body recipient : string) (attachments : list EmailAttachment) : string :=
  "From: " ++ From (SMTP service) ++ CRLF
  ++ "To: " ++ recipient ++ CRLF
  ++ (if negb (String.eqb (Admin (SMTP service)) "")
      then "Bcc: " ++ Admin (SMTP service) ++ CRLF else "")
  ++ "Subject: " ++ subject ++ CRLF
  ++ "MIME-Version: 1.0" ++ CRLF
  ++ "Content-Type: multipart/mixed; boundary=" ++ dquote ++ boundary ++ dquote ++ CRLF
  ++ CRLF
  ++ "--" ++ boundary ++ CRLF
  ++ "Content-Type: text/plain; charset=utf-8" ++ CRLF
  ++ "Content-Transfer-Encoding: 7bit" ++ CRLF
  ++ CRLF
  ++ body ++ CRLF
  ++ String.concat "" (map (attachmentPart lib) attachments)
  ++ "--" ++ boundary ++ "--" ++ CRLF.

(** [SendOrderEmail(service, subject, body, recipient, attachments)] *)
Definition SendOrderEmail (lib : Lib) (out : Outside) (w : World)
    (service : ServiceConfig) (subject body recipient : string)
    (attachments : list EmailAttachment) : World * option EmailError :=
  if negb (ParseAddressOk lib recipient) then (w, Some ErrInvalidRecipient)
  else
    let msg := mimeMessage lib service subject body recipient attachments in
    let smtpAddr := Host (SMTP service) ++ ":" ++ Port (SMTP service) in
    let auth := (User (SMTP service), Password (SMTP service), Host (SMTP service)) in
    let recipients :=
      if negb (String.eqb (Admin (SMTP service)) "")
      then [recipient; Admin (SMTP service)] else [recipient] in
    let w1 := send (SmtpMail smtpAddr auth (From (SMTP service)) recipients msg) w in
    if smtpFails out smtpAddr recipients msg then (w1, Some ErrSMTP)
    else (w1, None).

(** The loop of [PrepareAttachments]: unreadable files are skipped. *)
Fixpoint readAttachments (w : World) (visit : list (string * string))
  : list EmailAttachment :=
  match visit with
  | [] => []
  | (_, path) :: rest =>
      match ReadFile w path with
      | None => readAttachments w rest
      | Some content =>
          {| AName := Base path; Content := content |} :: readAttachments w rest
      end
  end.

(** [PrepareAttachments(filePaths)]; [visit] is the order in which the
    loop ranges over [filePaths]. *)
Definition PrepareAttachments (w : World) (visit : list (string * string))
  : option (list EmailAttachment) :=
  match readAttachments w visit with
  | [] => None
  | attachments => Some attachments
  end.

End Email.
Export Email.

(* ===================================================================== *)
(** * middleware.go: client address and rate limiting *)
(* ===================================================================== *)

(** The body of an order request (handlers.go). *)
Record ProjectOrder := {
  FullName : string;
  CompanyName : string;
  Country : string;
  Address : string;
  ContactInfo : string;
  ProjectLink : string;
  PaymentMethod : string;
  StartDate : string;
  Language : string;
  BriefFile : list byte;
  SpecificationPdf : list byte;
  InvoicePdf : list byte;
  ContractPdf : list byte;
}.

(** An HTTP request as the middleware and the handlers read it. The JSON
    decoder is not modelled: [Decoded] is the order it produces, or [None]
    when it returns an error. *)
Record Request := {
  Header : gmap string string;     (* r.Header.Get: "" when absent *)
  RemoteAddr : string;
  Deadline : option Z;             (* time left until r.Context() expires *)
  Decoded : option ProjectOrder;
}.

Definition HeaderGet (r : Request) (name : string) : string := mapIndex (Header r) name.

Module Middleware.

(** [strings.Split(ip, ",")[0]] *)
Fixpoint firstField (s : string) : string :=
  match s with
  | EmptyString => EmptyString
  | String c s' => if Ascii.eqb c "," then EmptyString else String c (firstField s')
  end.

(** [GetRealIP(r)] *)
Definition GetRealIP (lib : Lib) (r : Request) : string :=
  if negb (String.eqb (HeaderGet r "X-Forwarded-For") "")
  then TrimSpace lib (firstField (HeaderGet r "X-Forwarded-For"))
  else if negb (String.eqb (HeaderGet r "X-Real-IP") "")
  then HeaderGet r "X-Real-IP"
  else SplitHost lib (RemoteAddr r).

(** A [rate.Limiter] of golang.org/x/time/rate, in exact arithmetic:
    time is counted in nanoseconds and the token count is kept as the
    time it is worth, [credit = tokens * interval]. *)
Record Limiter := {
  lim_interval : Z;      (* nanoseconds per token: rate.Every(interval) *)
  lim_burst : Z;
  lim_credit : Z;
  lim_last : Z;
}.

(** [rate.NewLimiter(rate.Every(every), b)]: the bucket is full when it
    is first used. *)
Definition NewLimiter (every : Z) (b : Z) : Limiter :=
  {| lim_interval := every; lim_burst := b; lim_credit := (b * every)%Z; lim_last := 0 |}.

(** [lim.advance(t)]: the credit at time [t]. *)
Definition advance (lim : Limiter) (t : Z) : Z :=
  let since := Z.min (lim_last lim) t in
  Z.min (lim_burst lim * lim_interval lim) (lim_credit lim + (t - since)).

(** [lim.Wait(ctx)] at time [t] for a context with [deadline] left:
    [Some delay] when a token is reserved (the caller proceeds after
    [delay]), [None] when waiting would exceed the deadline. *)
Definition Wait (lim : Limiter) (t : Z) (deadline : option Z)
  : Limiter * option Z :=
  let tokens := (advance lim t - lim_interval lim)%Z in
  let waitDuration := if (tokens <? 0)%Z then (- tokens)%Z else 0%Z in
  let ok :=
    (1 <=? lim_burst lim)%Z
    && match deadline with
       | None => true
       | Some waitLimit => (waitDuration <=? waitLimit)%Z
       end in
  if ok
  then ({| lim_interval := lim_interval lim; lim_burst := lim_burst lim;
           lim_credit := tokens; lim_last := t |}, Some waitDuration)
  else (lim, None).

(** The state captured by the closure [RateLimitMiddleware] returns:
    the heap of limiter objects, the map [limiters] from client address
    to a pointer, and the pointer [limiter]. *)
Record RateState := {
  heap : gmap nat Limiter;
  limiters : gmap string nat;
  limiter : nat;
}.

Definition minute : Z := 60 * 1000000000.

(** [RateLimitMiddleware(next)]: the code run once, before the handler
    function is returned. *)
Definition RateLimitMiddleware : RateState :=
  {| heap := {[ 0%nat := NewLimiter (minute / 10) 10 ]};
     limiters := ∅;
     limiter := 0%nat |}.

Inductive Verdict : Type :=
  | Next (delay : Z)          (* next.ServeHTTP runs, after [delay] *)
  | TooManyRequests.          (* 429 *)

(** The handler function, serving one request at time [t]. *)
Definition serve (lib : Lib) (st : RateState) (r : Request) (t : Z)
  : RateState * Verdict :=
  let clientIP := GetRealIP lib r in
  let '(l, limiters1) :=
    match limiters st !! clientIP with
    | Some l => (l, limiters st)
    | None => (limiter st, <[clientIP := limiter st]> (limiters st))
    end in
  match heap st !! l with
  | None => (* a dangling pointer; the heap always holds [limiter st] *)
            ({| heap := heap st; limiters := limiters1; limiter := limiter st |},
             TooManyRequests)
  | Some lim =>
      let '(lim1, res) := Wait lim t (Deadline r) in
      let st1 := {| heap := <[l := lim1]> (heap st); limiters := limiters1;
                    limiter := limiter st |} in
      match res with
      | Some delay => (st1, Next delay)
      | None => (st1, TooManyRequests)
      end
  end.

(** Serving a sequence of requests, each with its arrival time. *)
Fixpoint serveAll (lib : Lib) (st : RateState) (rs : list (Request * Z))
  : RateState * list Verdict :=
  match rs with
  | [] => (st, [])
  | (r, t) :: rest =>
      let '(st1, v) := serve lib st r t in
      let '(st2, vs) := serveAll lib st1 rest in
      (st2, v :: vs)
  end.

End Middleware.
Export Middleware.

(* ===================================================================== *)
(** * handlers.go: the order intake pipeline *)
(* ===================================================================== *)

Module Handlers.

Record Response := { code : Z; payload : gmap string string }.

(** [respondWithJSON], [respondWithError] *)
Definition respondWithJSON (code : Z) (payload : gmap string string) : Response :=
  {| code := code; payload := payload |}.

Definition respondWithError (code : Z) (message : string) : Response :=
  respondWithJSON code {[ "error" := message ]}.

(** The language asked for: the body's, else the Accept-Language header,
    else "en". *)
Definition requestedLanguage (order : ProjectOrder) (r : Request) : string :=
  let lang := Language order in
  let lang := if String.eqb lang "" then HeaderGet r "Accept-Language" else lang in
  if String.eqb lang "" then "en" else lang.

(** The language served: a supported one. *)
Definition negotiateLanguage (service : ServiceConfig) (lang : string) : string :=
  if negb (Contains (SupportedLangs service) lang) then
    match SupportedLangs service with
    | first :: _ => first
    | [] => "en"
    end
  else lang.

Definition removeAll (visit : list (string * string)) (w : World) : World :=
  fold_left (fun w kv => Remove kv.2 w) visit w.

(** The map [files] built by [saveOrderFiles]. *)
Definition orderFiles (order : ProjectOrder) : gmap string (list byte) :=
  let files : gmap string (list byte) :=
    <["specification" := SpecificationPdf order]>
      (<["invoice" := InvoicePdf order]>
        (<["contract" := ContractPdf order]> ∅)) in
  if (len (BriefFile order) >? 0)%Z then <["brief" := BriefFile order]> files
  else files.

(** The loop of [saveOrderFiles]. *)
Fixpoint saveLoop (lib : Lib) (sc : Sched) (visit : list (string * list byte))
    (filePaths : gmap string string) (w : World)
  : World * result (string * FileError) (gmap string string) :=
  match visit with
  | [] => (w, Ok filePaths)
  | (name, content) :: rest =>
      match SaveTempFile lib sc w content name with
      | (w1, Err err) => (removeAll (rangePaths sc 0 filePaths) w1, Err (name, err))
      | (w1, Ok fileInfo) =>
          saveLoop lib sc rest (<[name := Path fileInfo]> filePaths) w1
      end
  end.

(** [saveOrderFiles(order)] *)
Definition saveOrderFiles (lib : Lib) (sc : Sched) (w : World) (order : ProjectOrder)
  : World * result (string * FileError) (gmap string string) :=
  saveLoop lib sc (rangeFiles sc (orderFiles order)) ∅ w.

(** [cleanupFiles(filePaths)] *)
Definition cleanupFiles (sc : Sched) (filePaths : gmap string string) (w : World) : World :=
  removeAll (rangePaths sc 2 filePaths) w.

(** The row [logOrderToDB] binds to its INSERT statement. *)
Definition orderRow (lib : Lib) (sc : Sched) (r : Request)
    (serviceName lang : string) (order : ProjectOrder) : OrderRow :=
  {| row_service_name := serviceName;
     row_full_name := FullName order;
     row_company_name := CompanyName order;
     row_contact_info := ContactInfo order;
     row_project_link := ProjectLink order;
     row_payment_method := PaymentMethod order;
     row_start_date := StartDate order;
     row_language := Language order;
     row_ip_address := GetRealIP lib r;
     row_user_agent := HeaderGet r "User-Agent";
     row_created_at := clock sc |}.

(** [logOrderToDB(r, serviceName, lang, order)]: [true] stands for a
    non-nil error. *)
Definition logOrderToDB (lib : Lib) (sc : Sched) (out : Outside) (w : World)
    (r : Request) (serviceName lang : string) (order : ProjectOrder) : World * bool :=
  let row := orderRow lib sc r serviceName lang order in
  if dbRejects out row then (w, true) else (insert_row row w, false).

Definition templateData (order : ProjectOrder) (lang : string) (service : ServiceConfig)
  : gmap string Value :=
  <["full_name" := VString (FullName order)]>
    (<["company" := VString (CompanyName order)]>
      (<["contact" := VString (ContactInfo order)]>
        (<["project_link" := VString (ProjectLink order)]>
          (<["payment" := VString (PaymentMethod order)]>
            (<["start_date" := VString (StartDate order)]>
              (<["language" := VString lang]>
                (<["service_name" := VString (Name service)]> ∅))))))).

(** A part of the email, from the template file at [paths[lang]] or else
    the fixed text [fallback]. *)
Definition emailPart (w : World) (paths : gmap string string) (lang : string)
    (visit : list (string * Value)) (fallback : string) : string :=
  let path := mapIndex paths lang in
  if negb (String.eqb path "") then
    match ReadFile w path with
    | Some raw => FillTemplate visit (string_of_list_byte raw)
    | None => fallback
    end
  else fallback.

Definition defaultSubject : string := "Order Confirmation".
Definition defaultBody : string :=
  "Order received VibeCoders Club by Aleksandr Shaman - www.codcl.com".

Definition emailSubject (sc : Sched) (w : World) (service : ServiceConfig)
    (lang : string) (data : gmap string Value) : string :=
  emailPart w (EmailTemplateSubjectPaths service) lang (rangeData sc 0 data) defaultSubject.

Definition emailBody (sc : Sched) (w : World) (service : ServiceConfig)
    (lang : string) (data : gmap string Value) : string :=
  emailPart w (EmailTemplateBodyPaths service) lang (rangeData sc 1 data) defaultBody.

(** The part of [HandleProjectOrder] after the files are saved: render,
    dispatch, log. *)
Definition dispatch (lib : Lib) (sc : Sched) (out : Outside) (w1 : World)
    (r : Request) (order : ProjectOrder) (serviceName lang : string)
    (service : ServiceConfig) (filePaths : gmap string string) : World :=
  let data := templateData order lang service in
  let subject := emailSubject sc w1 service lang data in
  let body := emailBody sc w1 service lang data in
  let w2 :=
    match PrepareAttachments w1 (rangePaths sc 1 filePaths) with
    | Some attachments =>
        let '(w, err) := SendOrderEmail lib out w1 service subject body
                                        (ContactInfo order) attachments in
        note (EmailCalled service subject body (ContactInfo order) attachments err) w
    | None => w1
    end in
  let w3 :=
    let '(w, err) := SendTelegramNotification out w2 service lang (rangeData sc 2 data) in
    note (TelegramCalled service lang data err) w in
  let '(w4, rejected) := logOrderToDB lib sc out w3 r serviceName lang order in
  note (AuditCalled (orderRow lib sc r serviceName lang order) rejected) w4.

Definition successPayload (serviceName lang : string) : gmap string string :=
  <["status" := "success"]> (<["service" := serviceName]> (<["lang" := lang]> ∅)).

(** [HandleProjectOrder(w, r)] *)
Definition HandleProjectOrder (lib : Lib) (sc : Sched) (out : Outside)
    (services : gmap string ServiceConfig) (w : World) (r : Request)
  : World * Response :=
  match Decoded r with
  | None => (w, respondWithError 400 "Invalid request payload")
  | Some order =>
      if String.eqb (FullName order) "" || String.eqb (ContactInfo order) ""
         || String.eqb (PaymentMethod order) ""
      then (w, respondWithError 400 "Missing required fields")
      else if negb (ValidatePDF lib (SpecificationPdf order))
              || negb (ValidatePDF lib (InvoicePdf order))
              || negb (ValidatePDF lib (ContractPdf order))
      then (w, respondWithError 400 "Invalid PDF files")
      else
        let serviceName := HeaderGet r "X-Service-Name" in
        if String.eqb serviceName "" then (w, respondWithError 400 "Missing X-Service-Name")
        else
          let lang := requestedLanguage order r in
          match GetService services serviceName with
          | None => (w, respondWithError 400 "Service not configured")
          | Some service =>
              let lang := negotiateLanguage service lang in
              match saveOrderFiles lib sc w order with
              | (w1, Err _) => (w1, respondWithError 500 "Failed to save files")
              | (w1, Ok filePaths) =>
                  let w5 := dispatch lib sc out w1 r order serviceName lang service filePaths in
                  (* deferred: cleanupFiles(filePaths) *)
                  (cleanupFiles sc filePaths w5,
                   respondWithJSON 200 (successPayload serviceName lang))
              end
          end
  end.

End Handlers.
Export Handlers.

(* ===================================================================== *)
(** * Specification-level definitions *)
(* ===================================================================== *)

(** The escaping transform as the specification words it: one pass that
    puts a backslash before every reserved byte. *)
Module EscapeSpec.

(** The reserved characters, as the specification lists them. *)
Definition reservedBytes : string := "_*[]()~`>#+-=|{}.!".

Definition reserved (c : ascii) : bool := hasByte c reservedBytes.

Definition escapeByte (c : ascii) : string :=
  if reserved c then String backslash (String c EmptyString) else String c EmptyString.

(** Map every byte of a string to a string and concatenate. *)
Fixpoint flatMap (f : ascii -> string) (s : string) : string :=
  match s with
  | EmptyString => EmptyString
  | String c s' => f c ++ flatMap f s'
  end.

Definition escapeEach (s : string) : string := flatMap escapeByte s.

Definition oneByte (s : string) : Prop := exists a, s = String a "".

(** [n] copies of [s]. *)
Fixpoint copies (n : nat) (s : string) : string :=
  match n with
  | O => EmptyString
  | S n' => s ++ copies n' s
  end.

End EscapeSpec.
Export EscapeSpec.

(** Templates as the specification sees them: literal text interleaved
    with [{key}] tokens, and the single-pass substitution. *)
Module TemplateSpec.

Inductive Segment : Type :=
  | Text (s : string)
  | Token (key : string).

Definition segmentText (seg : Segment) : string :=
  match seg with
  | Text s => s
  | Token key => placeholder key
  end.

Definition joinAll (parts : list string) : string :=
  fold_right String.append EmptyString parts.

Definition templateOf (segs : list Segment) : string :=
  joinAll (map segmentText segs).

(** Literal text opens no token; a token's key holds no brace. *)
Definition wellFormed (seg : Segment) : bool :=
  match seg with
  | Text s => negb (hasByte "{" s)
  | Token key => negb (hasByte "{" key) && negb (hasByte "}" key)
  end.

Definition fillSegment (data : gmap string Value) (seg : Segment) : string :=
  match seg with
  | Text s => s
  | Token key =>
      match data !! key with
      | Some v => Sprint v
      | None => placeholder key
      end
  end.

Definition filled (data : gmap string Value) (segs : list Segment) : string :=
  joinAll (map (fillSegment data) segs).

(** Data that cannot create or complete a token: no key holds a closing
    brace and no value prints an opening brace. *)
Definition plainData (data : gmap string Value) : Prop :=
  forall key v, data !! key = Some v ->
    hasByte "}" key = false /\ hasByte "{" (Sprint v) = false.

Definition plainEntry (kv : string * Value) : Prop :=
  hasByte "}" kv.1 = false /\ hasByte "{" (Sprint kv.2) = false.

(** One pass of the loop, on segments. *)
Definition substSegment (kv : string * Value) (seg : Segment) : Segment :=
  match seg with
  | Text s => Text s
  | Token key => if String.eqb key kv.1 then Text (Sprint kv.2) else Token key
  end.

(** One pass of the loop, on the template text. *)
Definition onePass (k : string) (v : Value) : string -> string :=
  replaceFrom (placeholder k) (Sprint v) 0.

(** Does an opening brace come before some closing brace? *)
Fixpoint hasToken (s : string) : bool :=
  match s with
  | EmptyString => false
  | String c s' => (Ascii.eqb c "{" && hasByte "}" s') || hasToken s'
  end.

(** All passes of the loop, on one segment. *)
Definition substAll (visit : list (string * Value)) (seg : Segment) : Segment :=
  fold_left (fun seg kv => substSegment kv seg) visit seg.

End TemplateSpec.
Export TemplateSpec.

(** The three message parts and where the handler takes them from. *)
Module PipelineSpec.

Inductive Part : Type := EmailSubjectPart | EmailBodyPart | ChatBodyPart.

(** The file-path locator configured for a part ("" when none). *)
Definition partPath (service : ServiceConfig) (part : Part) (lang : string) : string :=
  match part with
  | EmailSubjectPart => mapIndex (EmailTemplateSubjectPaths service) lang
  | EmailBodyPart => mapIndex (EmailTemplateBodyPaths service) lang
  | ChatBodyPart => mapIndex (TelegramTemplatePaths service) lang
  end.

(** The in-memory template configured for a part ("" when none). *)
Definition partInline (service : ServiceConfig) (part : Part) (lang : string) : string :=
  match part with
  | EmailSubjectPart => default "" (Subject <$> EmailTemplates service !! lang)
  | EmailBodyPart => default "" (Body <$> EmailTemplates service !! lang)
  | ChatBodyPart => mapIndex (TelegramTemplates service) lang
  end.

(** The fixed text the handler starts from, and the [range] statement
    that renders the part. *)
Definition partDefault (part : Part) : string :=
  match part with
  | EmailSubjectPart => defaultSubject
  | EmailBodyPart => defaultBody
  | ChatBodyPart => ""
  end.

Definition partSite (part : Part) : nat :=
  match part with
  | EmailSubjectPart => 0
  | EmailBodyPart => 1
  | ChatBodyPart => 2
  end.

(** Rendering a part the way [HandleProjectOrder] and
    [SendTelegramNotification] do (before escaping). *)
Definition renderPart (sc : Sched) (w : World) (service : ServiceConfig)
    (lang : string) (data : gmap string Value) (part : Part)
  : result TemplateError string :=
  match part with
  | EmailSubjectPart => Ok (emailSubject sc w service lang data)
  | EmailBodyPart => Ok (emailBody sc w service lang data)
  | ChatBodyPart =>
      match getLocalizedTemplate w service lang with
      | Ok template => Ok (renderTemplate (rangeData sc 2 data) template)
      | Err e => Err e
      end
  end.

(** Two worlds that differ in the filesystem and the timers only. *)
Definition same_records (w w' : World) : Prop :=
  project_orders w' = project_orders w /\ wire w' = wire w /\ journal w' = journal w.

(** Every recorded path names a file of the store. *)
Definition readable (w : World) (filePaths : gmap string string) : Prop :=
  forall name path, filePaths !! name = Some path -> is_Some (files w !! path).

(** Every client address is mapped to the one limiter created when the
    middleware was set up. *)
Definition all_alias (st : RateState) : Prop :=
  forall ip l, limiters st !! ip = Some l -> l = limiter st.

(** The requests [HandleProjectOrder] lets through to the file store:
    a decoded, well-formed order for a resolved tenant. *)
Record accepted (lib : Lib) (services : gmap string ServiceConfig)
    (r : Request) (order : ProjectOrder) (service : ServiceConfig) : Prop := {
  acc_decoded : Decoded r = Some order;
  acc_name : FullName order <> "";
  acc_contact : ContactInfo order <> "";
  acc_payment : PaymentMethod order <> "";
  acc_specification : ValidatePDF lib (SpecificationPdf order) = true;
  acc_invoice : ValidatePDF lib (InvoicePdf order) = true;
  acc_contract : ValidatePDF lib (ContractPdf order) = true;
  acc_header : HeaderGet r "X-Service-Name" <> "";
  acc_service : GetService services (HeaderGet r "X-Service-Name") = Some service;
}.

End PipelineSpec.
Export PipelineSpec.

(** Sample data for the examples. *)
Module Sample.

(** A stand-in for the library functions: PDF detection by signature,
    everything else trivial. *)
Definition lib : Lib :=
  {| IsMIME := fun data mime =>
       bytesHasPrefix data (list_byte_of_string "%PDF") && String.eqb mime "application/pdf";
     DetectContentType := fun data =>
       if bytesHasPrefix data (list_byte_of_string "%PDF-")
       then "application/pdf" else "application/octet-stream";
     Sum256 := fun data => firstn 32 (data ++ repeat x00 32);
     Base64 := fun data => string_of_list_byte data;
     ParseAddressOk := fun addr => hasByte "@" addr;
     TrimSpace := fun s => s;
     SplitHost := fun s => s |}.

Definition pdf (text : string) : list byte := list_byte_of_string ("%PDF-1.4 " ++ text).

Definition smtp : SMTPConfig :=
  {| User := "u"; Password := "p"; Host := "mail.example"; Port := "25";
     From := "shop@example.org"; Admin := "" |}.

(** A tenant with email configured and no chat channel. *)
Definition shop : ServiceConfig :=
  {| Name := "Shop"; SMTP := smtp;
     Telegram := {| BotToken := ""; ChatID := "" |};
     EmailTemplates := ∅; TelegramTemplates := ∅; TelegramTemplatePaths := ∅;
     EmailTemplateSubjectPaths := ∅; EmailTemplateBodyPaths := ∅;
     SupportedLangs := ["en"; "ru"] |}.

Definition services : gmap string ServiceConfig := {[ "shop" := shop ]}.

(** A tenant whose chat channel is configured, with the in-memory
    template [text] for language [lang]. *)
Definition bot (lang text : string) : ServiceConfig :=
  {| Name := "Bot"; SMTP := smtp;
     Telegram := {| BotToken := "token"; ChatID := "42" |};
     EmailTemplates := ∅; TelegramTemplates := {[ lang := text ]};
     TelegramTemplatePaths := ∅;
     EmailTemplateSubjectPaths := ∅; EmailTemplateBodyPaths := ∅;
     SupportedLangs := [lang] |}.

(** The Cyrillic letter "ya" in UTF-8: one character, two bytes. *)
Definition ya : string := String "209" (String "143" EmptyString).

(** A text of 2049 characters and 4098 bytes. *)
Definition longText : string := copies 2049 ya.

(** A tenant whose chat template for "en" is both in memory and at the
    path tg_en.txt. *)
Definition fileBot : ServiceConfig :=
  {| Name := "Bot"; SMTP := smtp;
     Telegram := {| BotToken := "token"; ChatID := "42" |};
     EmailTemplates := ∅; TelegramTemplates := {[ "en" := "old {name}" ]};
     TelegramTemplatePaths := {[ "en" := "tg_en.txt" ]};
     EmailTemplateSubjectPaths := ∅; EmailTemplateBodyPaths := ∅;
     SupportedLangs := ["en"] |}.

Definition ann : gmap string Value := {[ "name" := VString "Ann" ]}.

(** Template data in which the value bound to "a" holds the token of
    "b", and an order in which a [range] loop may visit it. *)
Definition chained : gmap string Value :=
  <["a" := VString "{b}"]> ({[ "b" := VString "x" ]}).

Definition chainedVisit : list (string * Value) :=
  [("a", VString "{b}"); ("b", VString "x")].

Definition order : ProjectOrder :=
  {| FullName := "Ann"; CompanyName := ""; Country := ""; Address := "";
     ContactInfo := "ann@example.org"; ProjectLink := ""; PaymentMethod := "card";
     StartDate := "2025-07-04"; Language := "fr"; BriefFile := [];
     SpecificationPdf := pdf "spec"; InvoicePdf := pdf "invoice";
     ContractPdf := pdf "contract" |}.

Definition request : Request :=
  {| Header := {[ "X-Service-Name" := "Shop" ]};
     RemoteAddr := "10.0.0.1:4000"; Deadline := None; Decoded := Some order |}.

Definition sched : Sched := plainSched (fun label => "id-" ++ label) 1000.


(** An outside world in which both channels and the database work. *)
Definition outside : Outside :=
  {| smtpFails := fun _ _ _ => false;
     telegramReply := fun _ _ _ => Reply true "" 0;
     dbRejects := fun _ => false |}.

Definition world : World :=
  {| files := ∅; timers := []; project_orders := []; wire := []; journal := [] |}.

(** The same world with the chat template file on disk. *)
Definition disk : World :=
  set_files (insert "tg_en.txt" (list_byte_of_string "new {name}")) world.

(** An outside world in which both channels work and the database
    refuses every row. *)
Definition refusing : Outside :=
  {| smtpFails := fun _ _ _ => false;
     telegramReply := fun _ _ _ => Reply true "" 0;
     dbRejects := fun _ => true |}.

(** An outside world in which the mail relay and the bot API fail. *)
Definition broken : Outside :=
  {| smtpFails := fun _ _ _ => true;
     telegramReply := fun _ _ _ => PostFailed;
     dbRejects := fun _ => false |}.

(** A request carrying only the client address header. *)
Definition from (ip : string) : Request :=
  {| Header := {[ "X-Real-IP" := ip ]}; RemoteAddr := ""; Deadline := None;
     Decoded := None |}.

End Sample.

(* ===================================================================== *)
(** * The life of the temporary files (files.go, handlers.go) *)
(* ===================================================================== *)

Module Lifecycle.


(** The labels under which [saveOrderFiles] saves files. *)
Definition labels : list string := ["specification"; "invoice"; "contract"; "brief"].

(** The timers armed while the entries [visit] are saved. *)
Definition armed (sc : Sched) (visit : list (string * list byte)) : list (string * Z) :=
  map (fun nc => (tempPath sc nc.1, CleanupInterval)) visit.


(** Two worlds with the same filesystem and the same timers. *)
Definition same_disk (w w' : World) : Prop :=
  files w' = files w /\ timers w' = timers w.




End Lifecycle.
Export Lifecycle.

(* ===================================================================== *)
(** * Further notions for the channels *)
(* ===================================================================== *)

Module ChannelSpec.

(** The number of reserved bytes of a text. *)
Fixpoint countReserved (s : string) : nat :=
  match s with
  | EmptyString => 0
  | String c s' => (if reserved c then 1 else 0) + countReserved s'
  end.

(** A decoder for escaped text: a backslash in front of a reserved byte
    is dropped. *)
Fixpoint unescape (s : string) : string :=
  match s with
  | EmptyString => EmptyString
  | String b rest =>
      match rest with
      | String c rest' =>
          if Ascii.eqb b backslash && reserved c
          then String c (unescape rest')
          else String b (unescape rest)
      | EmptyString => String b EmptyString
      end
  end.

(** Lines, each followed by CRLF. *)
Definition withCRLF (lines : list string) : string :=
  joinAll (map (fun line => line ++ CRLF) lines).

(** The attachment [PrepareAttachments] makes of a path, if it can be
    read. *)
Definition attachmentOf (w : World) (entry : string * string) : option EmailAttachment :=
  (fun content => {| AName := Base entry.2; Content := content |}) <$> ReadFile w entry.2.

(** The addresses [SendOrderEmail] hands to the relay. *)
Definition recipientsOf (service : ServiceConfig) (recipient : string) : list string :=
  if String.eqb (Admin (SMTP service)) EmptyString then [recipient]
  else [recipient; Admin (SMTP service)].

(** What the email channel hands to the mail relay for a message: one
    mail when the recipient's address parses, nothing otherwise. The
    replies of the outside world play no part. *)
Definition mailOf (lib : Lib) (service : ServiceConfig)
    (subject body recipient : string) (attachments : list EmailAttachment) : list Wire :=
  if ParseAddressOk lib recipient
  then [SmtpMail (Host (SMTP service) ++ ":" ++ Port (SMTP service))
                 (User (SMTP service), Password (SMTP service), Host (SMTP service))
                 (From (SMTP service)) (recipientsOf service recipient)
                 (mimeMessage lib service subject body recipient attachments)]
  else [].

(** What the chat channel posts: the escaped rendering of the template
    when the channel is configured, a template is found in the files of
    [w] or in memory, and the text is within the limit; nothing
    otherwise. *)
Definition postOf (w : World) (service : ServiceConfig) (lang : string)
    (visit : list (string * Value)) : list Wire :=
  if Configured (Telegram service) then
    match getLocalizedTemplate w service lang with
    | Ok template =>
        let message := EscapeMarkdownV2 (renderTemplate visit template) in
        if (Z.of_nat (String.length message) >? maxMessageLength)%Z then []
        else [TelegramPost (BotToken (Telegram service)) (ChatID (Telegram service)) message]
    | Err _ => []
    end
  else [].

End ChannelSpec.
Export ChannelSpec.


Module WrapSpec.

Definition isBreak (c : ascii) : bool := Ascii.eqb c "013" || Ascii.eqb c "010".

(** Drop every carriage return and line feed. *)
Fixpoint stripBreaks (s : string) : string :=
  match s with
  | EmptyString => EmptyString
  | String c s' => if isBreak c then stripBreaks s' else String c (stripBreaks s')
  end.

(** A text without "/" (a single path element when it is not empty). *)
Definition slashFree (s : string) : bool := negb (hasByte "/" s).

End WrapSpec.
Export WrapSpec.


(* ===================================================================== *)
(** * config.go: loading the tenant registry from the environment *)
(* ===================================================================== *)

Module Environment.

(** [strings.SplitN(env, "=", 2)]: the text before and after the first
    "=", or [None] when there is none (the result has not two parts). *)
Fixpoint splitAtEq (s : string) : option (string * string) :=
  match s with
  | EmptyString => None
  | String c s' =>
      if Ascii.eqb c "=" then Some (EmptyString, s')
      else
        match splitAtEq s' with
        | Some (k, v) => Some (String c k, v)
        | None => None
        end
  end.

(** [os.Getenv(key)] over the environment as [os.Environ()] lists it:
    the value of the entry for [key], "" when there is none. *)
Fixpoint Getenv (environ : list string) (key : string) : string :=
  match environ with
  | [] => EmptyString
  | e :: rest =>
      match splitAtEq e with
      | Some (k, v) => if String.eqb k key then v else Getenv rest key
      | None => Getenv rest key
      end
  end.

(** [strings.HasSuffix], [strings.TrimSuffix] *)
Definition HasSuffix (s suffix : string) : bool :=
  (String.length suffix <=? String.length s)%nat
  && String.eqb (substring (String.length s - String.length suffix)
                           (String.length suffix) s) suffix.

Definition TrimSuffix (s suffix : string) : string :=
  if HasSuffix s suffix
  then substring 0 (String.length s - String.length suffix) s
  else s.

(** [strings.Split(s, ",")]; the result is never empty. *)
Fixpoint Split (s : string) : list string :=
  match s with
  | EmptyString => [EmptyString]
  | String c s' =>
      if Ascii.eqb c "," then EmptyString :: Split s'
      else
        match Split s' with
        | first :: rest => String c first :: rest
        | [] => [String c EmptyString]
        end
  end.

(** [strings.ToUpper] on the ASCII letters; the program applies it to
    language codes. Bytes outside [a-z] are kept. *)
Definition upperByte (c : ascii) : ascii :=
  let n := N_of_ascii c in
  if ((97 <=? n) && (n <=? 122))%N then ascii_of_N (n - 32) else c.

Fixpoint ToUpper (s : string) : string :=
  match s with
  | EmptyString => EmptyString
  | String c s' => String (upperByte c) (ToUpper s')
  end.

End Environment.
Export Environment.

Module Loader.

(** [strings.TrimSpace(strings.ToLower(lang))], the key under which the
    loaders file a language. *)
Definition langKey (lib : Lib) (lang : string) : string := TrimSpace lib (ToLower lang).

(** [loadEmailTemplates(prefix, service, langs)]; the files are read
    from the filesystem of [w]. *)
Definition loadEmailTemplates (lib : Lib) (environ : list string) (w : World)
    (prefix : string) (langs : list string) : gmap string EmailTemplate :=
  fold_left
    (fun templates lang =>
       let lang := langKey lib lang in
       let subjectKey := prefix ++ "_EMAIL_SUBJECT_" ++ ToUpper lang in
       let bodyKey := prefix ++ "_EMAIL_BODY_" ++ ToUpper lang in
       let bodyPathKey := bodyKey ++ "_PATH" in
       let subject := Getenv environ subjectKey in
       let body := Getenv environ bodyKey in
       let body :=
         if String.eqb body "" then
           let path := Getenv environ bodyPathKey in
           if negb (String.eqb path "") then
             match ReadFile w path with
             | None => body
             | Some content => string_of_list_byte content
             end
           else body
         else body in
       <[lang := {| Subject := subject; Body := body |}]> templates)
    langs ∅.

(** [loadTelegramTemplates(prefix, service, langs)] *)
Definition loadTelegramTemplates (lib : Lib) (environ : list string) (w : World)
    (prefix : string) (langs : list string) : gmap string string :=
  fold_left
    (fun templates lang =>
       let lang := langKey lib lang in
       let key := prefix ++ "_TG_MSG_" ++ ToUpper lang ++ "_PATH" in
       let path := Getenv environ key in
       if negb (String.eqb path "") then
         match ReadFile w path with
         | None => templates
         | Some content => <[lang := string_of_list_byte content]> templates
         end
       else templates)
    langs ∅.

(** The three path loaders differ in the middle of the variable's name
    only: [infix] is "_EMAIL_SUBJECT_", "_EMAIL_BODY_" or "_TG_MSG_". *)
Definition loadPaths (infix : string) (lib : Lib) (environ : list string)
    (prefix : string) (langs : list string) : gmap string string :=
  fold_left
    (fun paths lang =>
       let lang := langKey lib lang in
       let key := prefix ++ infix ++ ToUpper lang ++ "_PATH" in
       let val := Getenv environ key in
       if negb (String.eqb val "") then <[lang := val]> paths else paths)
    langs ∅.

(** [loadEmailSubjectPaths], [loadEmailBodyPaths], [loadTelegramPaths] *)
Definition loadEmailSubjectPaths := loadPaths "_EMAIL_SUBJECT_".
Definition loadEmailBodyPaths := loadPaths "_EMAIL_BODY_".
Definition loadTelegramPaths := loadPaths "_TG_MSG_".

(** The languages of the tenant with variable prefix [prefix]. *)
Definition loadLangs (environ : list string) (prefix : string) : list string :=
  let langs := Split (Getenv environ (prefix ++ "_LANGS")) in
  if (List.length langs =? 0)%nat
     || ((List.length langs =? 1)%nat && String.eqb (nth 0 langs "") "")
  then ["en"; "ru"; "es"]
  else langs.

(** The [ServiceConfig] literal [LoadServices] files under the tenant. *)
Definition loadService (lib : Lib) (environ : list string) (w : World)
    (prefix name : string) : ServiceConfig :=
  let langs := loadLangs environ prefix in
  let emailTemplates := loadEmailTemplates lib environ w prefix langs in
  let emailSubjectPaths := loadEmailSubjectPaths lib environ prefix langs in
  let emailBodyPaths := loadEmailBodyPaths lib environ prefix langs in
  let tgTemplates := loadTelegramTemplates lib environ w prefix langs in
  let tgPaths := loadTelegramPaths lib environ prefix langs in
  {| Name := name;
     SMTP := {| User := Getenv environ (prefix ++ "_SMTP_USER");
                Password := Getenv environ (prefix ++ "_SMTP_PASS");
                Host := Getenv environ (prefix ++ "_SMTP_HOST");
                Port := Getenv environ (prefix ++ "_SMTP_PORT");
                From := Getenv environ (prefix ++ "_FROM_EMAIL");
                Admin := Getenv environ (prefix ++ "_ADMIN_EMAIL") |};
     Telegram := {| BotToken := Getenv environ (prefix ++ "_TG_BOT_TOKEN");
                    ChatID := Getenv environ (prefix ++ "_TG_CHAT_ID") |};
     EmailTemplates := emailTemplates;
     TelegramTemplates := tgTemplates;
     TelegramTemplatePaths := tgPaths;
     EmailTemplateSubjectPaths := emailSubjectPaths;
     EmailTemplateBodyPaths := emailBodyPaths;
     SupportedLangs := langs |}.

(** The body of the second loop of [LoadServices] (the first loop has an
    empty body). *)
Definition loadEntry (lib : Lib) (environ : list string) (w : World)
    (services : gmap string ServiceConfig) (env : string)
  : gmap string ServiceConfig :=
  match splitAtEq env with
  | None => services
  | Some (key, val) =>
      if HasSuffix key "_SERVICE_NAME" then
        let prefix := TrimSuffix key "_SERVICE_NAME" in
        let name := val in
        <[ToLower name := loadService lib environ w prefix name]> services
      else services
  end.

(** [LoadServices()], run on the registry [services] (empty when the
    program starts). *)
Definition LoadServices (lib : Lib) (environ : list string) (w : World)
    (services : gmap string ServiceConfig) : gmap string ServiceConfig :=
  fold_left (loadEntry lib environ w) environ services.

(** A sample environment. *)
Definition sampleEnviron : list string :=
  ["PATH=/bin"; "SHOP_SERVICE_NAME=Shop"; "SHOP_LANGS=en,ru";
   "SHOP_TG_MSG_EN_PATH=tg_en.txt"; "SHOP_TG_MSG_RU_PATH=tg_ru.txt";
   "SHOP_TG_BOT_TOKEN=token"; "SHOP_TG_CHAT_ID=42"].

End Loader.
Export Loader.


(* ===================================================================== *)
(** * middleware.go: the address allow-list; main.go: the route *)
(* ===================================================================== *)

Module Whitelist.

(** The functions of package net the allow-list calls. A [net.IP] is a
    byte slice, nil (the empty list) when parsing failed; a subnet is
    kept as the text it was parsed from. *)
Record Net := {
  ParseIP : string -> list byte;
  ParseCIDR : string -> option string;        (* None: err != nil *)
  SubnetContains : string -> list byte -> bool;
  IPEqual : list byte -> list byte -> bool;
}.

(** Facts about package net: the empty text is neither a subnet nor an
    address, and the nil address equals the nil address only. *)
Record Net_ok (net : Net) : Prop := {
  ParseCIDR_empty : ParseCIDR net "" = None;
  ParseIP_empty : ParseIP net "" = [];
  IPEqual_nil : forall x, IPEqual net [] x = bool_decide (x = []);
}.

(** The loop over [allowedIPs]: the value of [allowed] when it ends. *)
Fixpoint allowedBy (net : Net) (allowedIPs : list string) (clientIP : list byte) : bool :=
  match allowedIPs with
  | [] => false
  | ip :: rest =>
      if String.eqb ip "*" then true
      else
        match ParseCIDR net ip with
        | Some subnet =>
            if SubnetContains net subnet clientIP then true
            else allowedBy net rest clientIP
        | None =>
            if IPEqual net (ParseIP net ip) clientIP then true
            else allowedBy net rest clientIP
        end
  end.

(** [IPWhitelistMiddleware(next)], serving one request: [true] when
    [next.ServeHTTP] runs, [false] for 403. *)
Definition IPWhitelistMiddleware (net : Net) (lib : Lib) (environ : list string)
    (r : Request) : bool :=
  let allowedIPs := Split (Getenv environ "ALLOWED_IPS") in
  let clientIP := ParseIP net (GetRealIP lib r) in
  allowedBy net allowedIPs clientIP.

(** One entry of the allow-list admits the client. *)
Definition admits (net : Net) (clientIP : list byte) (ip : string) : Prop :=
  ip = "*"
  \/ (exists subnet, ParseCIDR net ip = Some subnet /\ SubnetContains net subnet clientIP = true)
  \/ (ParseCIDR net ip = None /\ IPEqual net (ParseIP net ip) clientIP = true).

(** How a request to POST /api/v1/order ends. *)
Inductive Outcome : Type :=
  | CSRFFailure
  | Forbidden                                   (* 403 *)
  | Limited                                     (* 429 *)
  | Handled (delay : Z) (resp : Response).

(** The route to [HandleProjectOrder] set up by [createRouter]: the CSRF
    check (whose verdict is [csrfOk]), the allow-list, the rate limiter,
    the handler. *)
Definition orderRoute (net : Net) (lib : Lib) (sc : Sched) (out : Outside)
    (environ : list string) (services : gmap string ServiceConfig)
    (csrfOk : Request -> bool)
    (st : RateState) (w : World) (r : Request) (t : Z)
  : RateState * World * Outcome :=
  if negb (csrfOk r) then (st, w, CSRFFailure)
  else if negb (IPWhitelistMiddleware net lib environ r) then (st, w, Forbidden)
  else
    match serve lib st r t with
    | (st1, TooManyRequests) => (st1, w, Limited)
    | (st1, Next delay) =>
        let '(w1, resp) := HandleProjectOrder lib sc out services w r in
        (st1, w1, Handled delay resp)
    end.

(** A sample of package net: addresses are kept as their text, "" does
    not parse, and there are no subnets. *)
Definition sampleNet : Net :=
  {| ParseIP := fun s => list_byte_of_string s;
     ParseCIDR := fun _ => None;
     SubnetContains := fun _ _ => false;
     IPEqual := fun a b => bytesHasPrefix a b && bytesHasPrefix b a |}.

End Whitelist.
Export Whitelist.

Module RateSpec.

(** The wait imposed on request number [k] (from 0) of a burst that
    arrives at one instant on a fresh middleware. *)
Definition burstDelay (k : nat) : Z := Z.max 0 ((Z.of_nat k - 9) * (minute / 10)).

(** Two requests that arrive at the same time with the same deadline. *)
Definition sameTiming (p q : Request * Z) : Prop :=
  p.2 = q.2 /\ Deadline p.1 = Deadline q.1.

End RateSpec.
Export RateSpec.


(* ===================================================================== *)
(** * db.go: applying the migrations *)
(* ===================================================================== *)

Module Migrations.

(** [sort.Strings]: strings are ordered byte by byte. *)
Module StringOrder <: Orders.TotalLeBool.
Definition t := string.
Definition leb := String.leb.
Definition leb_total : forall a1 a2, leb a1 a2 = true \/ leb a2 a1 = true :=
  String.leb_total.
End StringOrder.

Module StringSort := Mergesort.Sort StringOrder.

(** [filepath.Ext(path)]: the suffix from the last dot of the last
    element of the path, "" when that element has no dot. *)
Fixpoint Ext (path : string) : string :=
  match path with
  | EmptyString => EmptyString
  | String c rest =>
      if hasByte "/" rest then Ext rest
      else if negb (String.eqb (Ext rest) "") then Ext rest
      else if Ascii.eqb c "." then path
      else EmptyString
  end.

(** The database as the migrations see it: whether table [migrations]
    exists, the names recorded in it and the scripts executed so far,
    both oldest first. *)
Record Database := {
  hasMigrationsTable : bool;
  migrations : list string;
  executed : list string;
}.

(** Which calls to the database fail during one run. *)
Record DbFaults := {
  createFails : bool;              (* CREATE TABLE IF NOT EXISTS migrations *)
  beginFails : bool;               (* db.Begin *)
  queryFails : bool;               (* SELECT name FROM migrations, and its scan *)
  scriptFails : string -> bool;    (* tx.Exec of a script *)
  recordFails : string -> bool;    (* INSERT INTO migrations *)
  commitFails : bool;              (* tx.Commit *)
}.

Inductive MigrationError : Type :=
  | ErrCreateTable
  | ErrReadDir
  | ErrBegin
  | ErrQuery
  | ErrReadMigration (file : string)
  | ErrApply (file : string)
  | ErrRecord (file : string)
  | ErrCommit.

Definition migrationsDir : string := "/app/migrations".

(** [applied[file]] *)
Definition isApplied (applied : list string) (file : string) : bool :=
  existsb (String.eqb file) applied.

(** The sorted list [migrationFiles] built from the directory entries
    (name, is a directory). *)
Definition migrationFiles (entries : list (string * bool)) : list string :=
  StringSort.sort
    (map fst (List.filter (fun e : string * bool => negb e.2 && String.eqb (Ext e.1) ".sql")
                          entries)).

(** The loop over [migrationFiles], inside the transaction [tx]; column
    [name] of table [migrations] is UNIQUE. *)
Fixpoint applyLoop (faults : DbFaults) (w : World) (applied : list string)
    (files : list string) (tx : Database) : result MigrationError Database :=
  match files with
  | [] => Ok tx
  | file :: rest =>
      if isApplied applied file then applyLoop faults w applied rest tx
      else
        match ReadFile w (Join migrationsDir file) with
        | None => Err (ErrReadMigration file)
        | Some sqlBytes =>
            if scriptFails faults (string_of_list_byte sqlBytes) then Err (ErrApply file)
            else if recordFails faults file || isApplied (migrations tx) file
            then Err (ErrRecord file)
            else
              applyLoop faults w applied rest
                {| hasMigrationsTable := hasMigrationsTable tx;
                   migrations := migrations tx ++ [file];
                   executed := executed tx ++ [string_of_list_byte sqlBytes] |}
        end
  end.

(** [applyMigrations(logger)]; [entries] is what [os.ReadDir] returns
    for the migrations directory, [None] when it fails. The table is
    created outside the transaction; everything else is rolled back
    unless the transaction is committed. *)
Definition applyMigrations (faults : DbFaults) (w : World)
    (entries : option (list (string * bool))) (db : Database)
  : Database * option MigrationError :=
  if createFails faults then (db, Some ErrCreateTable)
  else
    let db1 := {| hasMigrationsTable := true; migrations := migrations db;
                  executed := executed db |} in
    match entries with
    | None => (db1, Some ErrReadDir)
    | Some entries =>
        let files := migrationFiles entries in
        if beginFails faults then (db1, Some ErrBegin)
        else if queryFails faults then (db1, Some ErrQuery)
        else
          match applyLoop faults w (migrations db1) files db1 with
          | Err e => (db1, Some e)
          | Ok tx => if commitFails faults then (db1, Some ErrCommit) else (tx, None)
          end
    end.

(** The script a migration file holds in [w] ("" when unreadable). *)
Definition scriptOf (w : World) (file : string) : string :=
  match ReadFile w (Join migrationsDir file) with
  | Some sqlBytes => string_of_list_byte sqlBytes
  | None => EmptyString
  end.

(** A database that works. *)
Definition noFaults : DbFaults :=
  {| createFails := false; beginFails := false; queryFails := false;
     scriptFails := fun _ => false; recordFails := fun _ => false;
     commitFails := false |}.

(** A sample: two migration files and a directory listing. *)
Definition sampleDir : World :=
  set_files (insert "/app/migrations/2_b.sql" (list_byte_of_string "B"))
    (set_files (insert "/app/migrations/1_a.sql" (list_byte_of_string "A")) Sample.world).

Definition sampleEntries : list (string * bool) :=
  [("2_b.sql", false); ("notes.txt", false); ("old", true); ("1_a.sql", false)].

Definition emptyDatabase : Database :=
  {| hasMigrationsTable := false; migrations := []; executed := [] |}.

End Migrations.
Export Migrations.


(* ===================================================================== *)
(** * files.go: the maintenance sweep; handlers.go: cookie consents *)
(* ===================================================================== *)

Module Maintenance.

(** A directory entry as [CleanOldFiles] reads it: its name, whether it
    is a directory, and [time.Since(info.ModTime())] at the moment the
    loop reaches it ([None] when [entry.Info()] fails). *)
Record DirEntry := {
  EName : string;
  EIsDir : bool;
  EAge : option Z;
}.

(** The body of the loop; [filepathJoin] is the library's
    [filepath.Join], and [removeFails] tells for which paths [os.Remove]
    fails (the failure is logged and the file stays). *)
Definition cleanEntry (filepathJoin : string -> string -> string)
    (removeFails : string -> bool) (dir : string) (olderThan : Z)
    (w : World) (entry : DirEntry) : World :=
  if EIsDir entry then w
  else
    match EAge entry with
    | None => w
    | Some age =>
        if (age >? olderThan)%Z then
          let filePath := filepathJoin dir (EName entry) in
          if removeFails filePath then w else Remove filePath w
        else w
    end.

(** [CleanOldFiles(dir, olderThan)]; [entries] is what [os.ReadDir]
    returns, [None] when it fails; [true] stands for a non-nil error. *)
Definition CleanOldFiles (filepathJoin : string -> string -> string)
    (removeFails : string -> bool) (w : World)
    (dir : string) (olderThan : Z) (entries : option (list DirEntry)) : World * bool :=
  match entries with
  | None => (w, true)
  | Some entries =>
      (fold_left (cleanEntry filepathJoin removeFails dir olderThan) entries w, false)
  end.

(** A path is due when the listing holds a file of that path which is
    older than the limit and can be removed. *)
Definition due (filepathJoin : string -> string -> string)
    (removeFails : string -> bool) (dir : string) (olderThan : Z)
    (entries : list DirEntry) (path : string) : bool :=
  existsb
    (fun entry =>
       negb (EIsDir entry)
       && match EAge entry with
          | Some age => (age >? olderThan)%Z
          | None => false
          end
       && String.eqb (filepathJoin dir (EName entry)) path
       && negb (removeFails path))
    entries.

End Maintenance.
Export Maintenance.

Module Consent.

Record CookieConsent := {
  ServiceName : string;
  Fingerprint : string;
  UserAgent : string;
  IPAddress : string;
  Accepted : bool;
  Timestamp : string;
  Language : string;
}.

(** A row of table [cookie_consents], as bound by [logConsentToDB]. *)
Record ConsentRow := {
  service_name : string;
  fingerprint : string;
  user_agent : string;
  ip_address : string;
  accepted : bool;
  timestamp : string;
}.

Definition consentRow (consent : CookieConsent) : ConsentRow :=
  {| service_name := ServiceName consent;
     fingerprint := Fingerprint consent;
     user_agent := UserAgent consent;
     ip_address := IPAddress consent;
     accepted := Accepted consent;
     timestamp := Timestamp consent |}.

(** [logConsentToDB(consent)] on the table [cookie_consents]; [rejects]
    tells which rows the database refuses; [true] stands for a non-nil
    error. *)
Definition logConsentToDB (rejects : ConsentRow -> bool) (table : list ConsentRow)
    (consent : CookieConsent) : list ConsentRow * bool :=
  let row := consentRow consent in
  if rejects row then (table, true) else ((table ++ [row])%list, false).

(** [HandleCookieConsent(w, r)]; [decoded] is the consent the JSON
    decoder produces, [None] when it returns an error. *)
Definition HandleCookieConsent (rejects : ConsentRow -> bool) (table : list ConsentRow)
    (decoded : option CookieConsent) : list ConsentRow * Response :=
  match decoded with
  | None => (table, respondWithError 400 "Invalid request payload")
  | Some consent =>
      if String.eqb (ServiceName consent) "" || String.eqb (Fingerprint consent) ""
         || String.eqb (Timestamp consent) ""
      then (table, respondWithError 400 "Missing required fields")
      else
        match logConsentToDB rejects table consent with
        | (table1, true) => (table1, respondWithError 500 "Failed to log consent")
        | (table1, false) =>
            (table1,
             respondWithJSON 200
               (<["status" := "logged"]> (<["service" := ServiceName consent]> ∅)))
        end
  end.

(** The same consent with another language. *)
Definition withLanguage (lang : string) (consent : CookieConsent) : CookieConsent :=
  {| ServiceName := ServiceName consent; Fingerprint := Fingerprint consent;
     UserAgent := UserAgent consent; IPAddress := IPAddress consent;
     Accepted := Accepted consent; Timestamp := Timestamp consent;
     Language := lang |}.

End Consent.

(* ===================================================================== *)
(** * Facts about strings and [ReplaceAll] *)
(* ===================================================================== *)

Section StringFacts.

Implicit Types s t old new : string.

Lemma append_nil_l t : "" ++ t = t.
Proof. reflexivity. Qed.

Lemma append_cons c s t : String c s ++ t = String c (s ++ t).
Proof. reflexivity. Qed.

Lemma append_assoc s t u : (s ++ t) ++ u = s ++ (t ++ u).
Proof. induction s as [|c s IH]; [reflexivity | now rewrite !append_cons, IH]. Qed.

Lemma hasByte_append c s t : hasByte c (s ++ t) = hasByte c s || hasByte c t.
Proof.
  induction s as [|x s IH]; [reflexivity|].
  rewrite append_cons. simpl. rewrite IH. now rewrite orb_assoc.
Qed.

Lemma HasPrefix_append old rest : HasPrefix (old ++ rest) old = true.
Proof.
  induction old as [|c old IH]; [reflexivity|].
  rewrite append_cons. simpl. now rewrite Ascii.eqb_refl.
Qed.

Lemma replaceFrom_skip old new s rest :
  replaceFrom old new (String.length s) (s ++ rest) = replaceFrom old new 0 rest.
Proof.
  induction s as [|c s IH]; [reflexivity|].
  rewrite append_cons. simpl. exact IH.
Qed.

(** Where [old] occurs it is replaced, and the scan goes on behind it. *)
Lemma replaceFrom_hit a old new rest :
  replaceFrom (String a old) new 0 (String a old ++ rest)
  = new ++ replaceFrom (String a old) new 0 rest.
Proof.
  rewrite append_cons. cbn [replaceFrom].
  rewrite <- append_cons, HasPrefix_append. cbn [String.length].
  rewrite Nat.sub_1_r. cbn [Nat.pred]. now rewrite replaceFrom_skip.
Qed.

(** Text without the first byte of [old] is copied. *)
Lemma replaceFrom_text a old new s rest :
  hasByte a s = false ->
  replaceFrom (String a old) new 0 (s ++ rest)
  = s ++ replaceFrom (String a old) new 0 rest.
Proof.
  induction s as [|c s IH]; intros H; [reflexivity|].
  simpl in H. apply orb_false_iff in H as [Hc Hs].
  rewrite !append_cons. cbn [replaceFrom HasPrefix]. rewrite Hc. now rewrite IH.
Qed.

Lemma ReplaceAll_nonempty s a old new :
  ReplaceAll s (String a old) new = replaceFrom (String a old) new 0 s.
Proof. reflexivity. Qed.

End StringFacts.

(* ===================================================================== *)
(** * telegram.go: escaping and the length limit *)
(* ===================================================================== *)

Section EscapeFacts.

Lemma flatMap_append f s t : flatMap f (s ++ t) = flatMap f s ++ flatMap f t.
Proof.
  induction s as [|c s IH]; [reflexivity|].
  rewrite append_cons. simpl. now rewrite IH, append_assoc.
Qed.

(** Replacing a one-byte pattern works byte by byte. *)
Lemma ReplaceAll_byte a new s :
  ReplaceAll s (String a "") new
  = flatMap (fun c => if Ascii.eqb c a then new else String c "") s.
Proof.
  rewrite ReplaceAll_nonempty.
  induction s as [|c s IH]; [reflexivity|].
  cbn [replaceFrom HasPrefix flatMap String.length].
  destruct (Ascii.eqb c a); cbn [Nat.sub]; now rewrite IH.
Qed.

(** The loop of [EscapeMarkdownV2], over any list of one-byte patterns,
    distributes over concatenation. *)
Lemma escape_loop_append (l : list string) s t :
  Forall oneByte l ->
  fold_left (fun text p => ReplaceAll text p (String backslash p)) l (s ++ t)
  = fold_left (fun text p => ReplaceAll text p (String backslash p)) l s
    ++ fold_left (fun text p => ReplaceAll text p (String backslash p)) l t.
Proof.
  intros Hl. revert s t. induction Hl as [|p l [a ->] _ IH]; intros s t; [reflexivity|].
  cbn [fold_left]. rewrite !ReplaceAll_byte, flatMap_append. apply IH.
Qed.

Lemma specials_oneByte : Forall oneByte specials.
Proof. unfold specials. repeat constructor; eexists; reflexivity. Qed.

Lemma EscapeMarkdownV2_append s t :
  EscapeMarkdownV2 (s ++ t) = EscapeMarkdownV2 s ++ EscapeMarkdownV2 t.
Proof. apply escape_loop_append, specials_oneByte. Qed.

Lemma EscapeMarkdownV2_byte c :
  EscapeMarkdownV2 (String c "") = escapeByte c.
Proof. destruct c as [[] [] [] [] [] [] [] []]; reflexivity. Qed.

(** The eighteen replacement passes amount to one pass that escapes
    each reserved byte once. *)
Lemma EscapeMarkdownV2_escapeEach s : EscapeMarkdownV2 s = escapeEach s.
Proof.
  induction s as [|c s IH]; [reflexivity|].
  change (String c s) with (String c "" ++ s).
  rewrite EscapeMarkdownV2_append, EscapeMarkdownV2_byte, IH. reflexivity.
Qed.

End EscapeFacts.

Section TelegramFacts.

Variables (out : Outside) (w : World) (service : ServiceConfig).
Variables (lang : string) (visit : list (string * Value)).

(** What [SendTelegramNotification] does once the channel is configured
    and a template was found. *)
Lemma SendTelegramNotification_rendered template :
  Configured (Telegram service) = true ->
  getLocalizedTemplate w service lang = Ok template ->
  let message := EscapeMarkdownV2 (renderTemplate visit template) in
  SendTelegramNotification out w service lang visit
  = if (Z.of_nat (String.length message) >? maxMessageLength)%Z
    then (w, Some (ErrMessageTooLong (Z.of_nat (String.length message))))
    else
      match sendTelegramRequest out w (BotToken (Telegram service))
                                (ChatID (Telegram service)) message with
      | (w1, Err e) => (w1, Some (ErrSend e))
      | (w1, Ok (ok, description, code)) =>
          if negb ok then (w1, Some (ErrAPI description code)) else (w1, None)
      end.
Proof.
  intros Hc Ht. unfold SendTelegramNotification. rewrite Hc, Ht. reflexivity.
Qed.

Lemma sendTelegramRequest_wire token chat message :
  wire (sendTelegramRequest out w token chat message).1
  = (wire w ++ [TelegramPost token chat message])%list.
Proof.
  unfold sendTelegramRequest.
  destruct (telegramReply out token chat message); reflexivity.
Qed.

End TelegramFacts.

(** C6, amended: once the chat channel is configured and a template is
    found, SendTelegramNotification escapes the rendered text by putting
    one backslash before each reserved byte (so "a.b!c" becomes
    "a\.b\!c"), and then fails with the message-too-long error, sending
    nothing, if and only if the escaped text is longer than 4096 bytes;
    a text within the limit is posted whole, never truncated. *)
Theorem SendTelegramNotification_escapes_then_limits_bytes :
  forall out w service lang visit template,
    Configured (Telegram service) = true ->
    getLocalizedTemplate w service lang = Ok template ->
    let message := escapeEach (renderTemplate visit template) in
    let n := Z.of_nat (String.length message) in
    EscapeMarkdownV2 (renderTemplate visit template) = message
    /\ EscapeMarkdownV2 "a.b!c" = "a\.b\!c"
    /\ (SendTelegramNotification out w service lang visit
        = (w, Some (ErrMessageTooLong n))
        <-> (n > maxMessageLength)%Z)
    /\ ((n <= maxMessageLength)%Z ->
        wire (SendTelegramNotification out w service lang visit).1
        = (wire w ++ [TelegramPost (BotToken (Telegram service))
                                   (ChatID (Telegram service)) message])%list).
Proof.
  intros out w service lang visit template Hc Ht message n.
  pose proof (SendTelegramNotification_rendered out w service lang visit template Hc Ht) as E.
  cbv zeta in E. rewrite EscapeMarkdownV2_escapeEach in E.
  fold message in E. fold n in E.
  split; [apply EscapeMarkdownV2_escapeEach|].
  split; [reflexivity|].
  split; [split|].
  - intros H. rewrite E in H.
    destruct (n >? maxMessageLength)%Z eqn:Hn; [lia|].
    exfalso. unfold sendTelegramRequest in H.
    destruct (telegramReply out _ _ message) as [| | | |[] ? ?]; simpl in H;
      inversion H.
  - intros Hn. rewrite E.
    destruct (n >? maxMessageLength)%Z eqn:Hb; [reflexivity | lia].
  - intros Hn. rewrite E.
    destruct (n >? maxMessageLength)%Z eqn:Hb; [lia|].
    pose proof (sendTelegramRequest_wire out w (BotToken (Telegram service))
                  (ChatID (Telegram service)) message) as Hw.
    destruct (sendTelegramRequest out w _ _ message) as [w1 [[[ok d] c]|e]];
      simpl in *; [destruct ok|]; exact Hw.
Qed.

(** A short message is posted as escaped. *)
Lemma SendTelegramNotification_escapes_then_limits_bytes_witness :
  SendTelegramNotification Sample.outside Sample.world
    (Sample.bot "en" "Hi {name}.") "en" [("name", VString "a.b!c")]
  <> (Sample.world, Some (ErrMessageTooLong 12))
  /\ wire (SendTelegramNotification Sample.outside Sample.world
             (Sample.bot "en" "Hi {name}.") "en" [("name", VString "a.b!c")]).1
     = [TelegramPost "token" "42" "Hi a\.b\!c\."].
Proof.
  pose proof (SendTelegramNotification_escapes_then_limits_bytes
                Sample.outside Sample.world (Sample.bot "en" "Hi {name}.") "en"
                [("name", VString "a.b!c")] "Hi {name}." eq_refl eq_refl)
    as (_ & _ & Hiff & Hwire).
  split.
  - intros H. pose proof (proj1 Hiff H) as Hn. vm_compute in Hn. discriminate.
  - apply Hwire. vm_compute. discriminate.
Defined.

(** C6, as stated, fails: a message of 2049 characters, each of two
    bytes, does not exceed 4096 characters and is rejected as too long. *)
Lemma message_of_2049_characters_rejected :
  RuneCountInString (EscapeMarkdownV2 Sample.longText) = 2049%nat
  /\ ~ (Z.of_nat (RuneCountInString (EscapeMarkdownV2 Sample.longText)) > 4096)%Z
  /\ SendTelegramNotification Sample.outside Sample.world
       (Sample.bot "ru" Sample.longText) "ru" []
     = (Sample.world, Some (ErrMessageTooLong 4098)).
Proof. vm_compute. split; [reflexivity|]. split; [discriminate | reflexivity]. Qed.

(* ===================================================================== *)
(** * utils.go: FillTemplate *)
(* ===================================================================== *)

Section TemplateFacts.

Lemma fillStep_Sprint result kv :
  fillStep result kv = ReplaceAll result (placeholder kv.1) (Sprint kv.2).
Proof. unfold fillStep. destruct (kv.2); reflexivity. Qed.

Lemma placeholder_cons key : placeholder key = String "{" (key ++ "}").
Proof. reflexivity. Qed.

Lemma HasPrefix_inv s old :
  HasPrefix s old = true -> exists rest, s = old ++ rest.
Proof.
  revert s. induction old as [|p old IH]; intros s H; [now exists s|].
  destruct s as [|c s]; [discriminate|]. cbn [HasPrefix] in H.
  destruct (Ascii.eqb_spec c p) as [->|]; [|discriminate].
  destruct (IH s H) as [rest ->]. now exists rest.
Qed.

Lemma placeholder_hasToken key rest : hasToken (placeholder key ++ rest) = true.
Proof.
  rewrite placeholder_cons, append_cons. cbn [hasToken].
  rewrite !hasByte_append. cbn. now rewrite orb_true_r.
Qed.

(** A text in which no opening brace comes before a closing one holds
    no token, and every pass leaves it unchanged. *)
Lemma fillStep_no_token t kv : hasToken t = false -> fillStep t kv = t.
Proof.
  rewrite fillStep_Sprint, placeholder_cons, ReplaceAll_nonempty, <- placeholder_cons.
  induction t as [|x t IH]; intros Ht; [reflexivity|].
  cbn [replaceFrom].
  destruct (HasPrefix (String x t) (placeholder kv.1)) eqn:Hp.
  - apply HasPrefix_inv in Hp as [rest Hp].
    rewrite Hp, placeholder_hasToken in Ht. discriminate.
  - cbn [hasToken] in Ht. apply orb_false_iff in Ht as [_ Ht]. now rewrite IH.
Qed.

Lemma FillTemplate_no_token t visit : hasToken t = false -> FillTemplate visit t = t.
Proof.
  intros Ht. unfold FillTemplate.
  induction visit as [|kv visit IH]; [reflexivity|].
  cbn [fold_left]. now rewrite fillStep_no_token.
Qed.

(** Two keys without closing brace whose placeholders start at the same
    place are equal. *)
Lemma placeholder_key_inj k k' rest :
  hasByte "}" k = false -> hasByte "}" k' = false ->
  HasPrefix ((k' ++ "}") ++ rest) (k ++ "}") = true -> k = k'.
Proof.
  revert k'. induction k as [|a k IH]; intros [|c k'] Hk Hk' Hp;
    repeat first [rewrite append_nil_l in Hp | rewrite append_cons in Hp];
    cbn [HasPrefix] in Hp.
  - reflexivity.
  - cbn [hasByte] in Hk'. apply orb_false_iff in Hk' as [Hc _].
    rewrite Hc in Hp. discriminate.
  - cbn [hasByte] in Hk. apply orb_false_iff in Hk as [Ha _]. 
    rewrite Ascii.eqb_sym, Ha in Hp. discriminate.
  - cbn [hasByte] in Hk, Hk'.
    apply orb_false_iff in Hk as [_ Hk]. apply orb_false_iff in Hk' as [_ Hk'].
    destruct (Ascii.eqb_spec c a) as [->|]; [|discriminate].
    f_equal. now apply (IH k').
Qed.

Section Pass.

Variables (k : string) (v : Value).
Hypothesis k_closed : hasByte "}" k = false.

Lemma pass_other_token k' rest :
  k' <> k -> hasByte "{" k' = false -> hasByte "}" k' = false ->
  onePass k v (placeholder k' ++ rest) = placeholder k' ++ onePass k v rest.
Proof.
  intros Hne Ho Hc. unfold onePass. rewrite !placeholder_cons, !append_cons.
  cbn [replaceFrom HasPrefix]. cbn [Ascii.eqb Bool.eqb].
  destruct (HasPrefix ((k' ++ "}") ++ rest) (k ++ "}")) eqn:Hp.
  - exfalso. apply Hne. symmetry. now apply (placeholder_key_inj k k' rest).
  - f_equal. apply replaceFrom_text.
    rewrite hasByte_append, Ho. reflexivity.
Qed.

Lemma pass_segment seg rest :
  wellFormed seg = true ->
  onePass k v (segmentText seg ++ rest)
  = segmentText (substSegment (k, v) seg) ++ onePass k v rest.
Proof.
  intros Hwf. destruct seg as [s|k']; cbn [segmentText substSegment wellFormed] in *.
  - unfold onePass. rewrite placeholder_cons. apply replaceFrom_text.
    now apply negb_true_iff.
  - apply andb_true_iff in Hwf as [Ho Hc].
    apply negb_true_iff in Ho. apply negb_true_iff in Hc.
    cbn [fst snd]. destruct (String.eqb_spec k' k) as [->|Hne].
    + cbn [segmentText]. unfold onePass. rewrite placeholder_cons.
      apply replaceFrom_hit.
    + cbn [segmentText]. now apply pass_other_token.
Qed.

Lemma pass_segments segs :
  forallb wellFormed segs = true ->
  onePass k v (templateOf segs) = templateOf (map (substSegment (k, v)) segs).
Proof.
  induction segs as [|seg segs IH]; intros Hwf; [reflexivity|].
  cbn [forallb] in Hwf. apply andb_true_iff in Hwf as [Hseg Hsegs].
  change (templateOf (seg :: segs)) with (segmentText seg ++ templateOf segs).
  rewrite pass_segment by exact Hseg. now rewrite IH.
Qed.

Lemma substSegment_wellFormed seg :
  hasByte "{" (Sprint v) = false ->
  wellFormed seg = true -> wellFormed (substSegment (k, v) seg) = true.
Proof.
  intros Hv. destruct seg as [s|k']; cbn [substSegment fst snd]; [trivial|].
  destruct (String.eqb k' k); [|trivial].
  intros _. cbn [wellFormed]. now rewrite Hv.
Qed.

End Pass.

(** The loop of [FillTemplate] on a well-formed template, pass by pass. *)
Lemma FillTemplate_substAll visit segs :
  Forall plainEntry visit ->
  forallb wellFormed segs = true ->
  FillTemplate visit (templateOf segs) = templateOf (map (substAll visit) segs).
Proof.
  intros Hv. revert segs. induction Hv as [|[k v] visit [Hk Hval] _ IH]; intros segs Hwf.
  - unfold substAll. cbn [fold_left]. now rewrite map_id.
  - unfold FillTemplate in *. cbn [fold_left].
    rewrite fillStep_Sprint. cbn [fst snd] in *.
    rewrite placeholder_cons, ReplaceAll_nonempty, <- placeholder_cons.
    fold (onePass k v). rewrite (pass_segments k v Hk segs Hwf).
    rewrite IH.
    + rewrite map_map. reflexivity.
    + rewrite forallb_forall in *. intros seg' Hin.
      apply in_map_iff in Hin as (seg & <- & Hin).
      apply substSegment_wellFormed; auto.
Qed.

Lemma substAll_Text visit s : substAll visit (Text s) = Text s.
Proof. unfold substAll. induction visit as [|kv visit IH]; [reflexivity | exact IH]. Qed.

(** After all passes a token holds the value bound to its key, if any. *)
Lemma substAll_fillSegment visit seg :
  segmentText (substAll visit seg)
  = fillSegment (list_to_map visit : gmap string Value) seg.
Proof.
  destruct seg as [s|key]; [now rewrite substAll_Text|].
  induction visit as [|[k v] visit IH]; [reflexivity|].
  cbn [list_to_map foldr]. cbn [fillSegment]. unfold substAll. cbn [fold_left substSegment].
  cbn [fst snd].
  destruct (String.eqb_spec key k) as [->|Hne].
  - fold (substAll visit (Text (Sprint v))). rewrite substAll_Text.
    now rewrite lookup_insert_eq.
  - fold (substAll visit (Token key)). rewrite IH.
    rewrite lookup_insert_ne by congruence. reflexivity.
Qed.

(** The entries a [range] loop visits determine the map. *)
Lemma range_order_list_to_map {V} (m : gmap string V) visit :
  range_order m visit -> list_to_map visit = m.
Proof.
  unfold range_order. intros Hp.
  rewrite <- (list_to_map_to_list m).
  apply list_to_map_proper; [|exact Hp].
  rewrite Hp. apply NoDup_fst_map_to_list.
Qed.

Lemma range_order_elem {V} (m : gmap string V) visit k v :
  range_order m visit -> (k, v) ∈ visit -> m !! k = Some v.
Proof.
  unfold range_order. intros Hp Hin. rewrite Hp in Hin.
  now apply elem_of_map_to_list in Hin.
Qed.

Lemma FillTemplate_filled (data : gmap string Value) visit segs :
  range_order data visit -> plainData data ->
  forallb wellFormed segs = true ->
  FillTemplate visit (templateOf segs) = filled data segs.
Proof.
  intros Hr Hd Hwf.
  rewrite FillTemplate_substAll; [|
    apply Forall_forall; intros [k v] Hin;
    apply (Hd k v), (range_order_elem data visit); [exact Hr | exact Hin] | exact Hwf].
  unfold templateOf, filled. rewrite map_map. f_equal.
  apply map_ext. intros seg. rewrite substAll_fillSegment.
  now rewrite (range_order_list_to_map data visit Hr).
Qed.

End TemplateFacts.

(** C8, amended: whatever the order in which the loop visits the map,
    FillTemplate returns a template unchanged in which no opening brace
    comes before a closing one (it holds no {..} token); and when no key of the map holds a closing
    brace and no value prints an opening brace, a template made of literal
    text without opening brace and of {key} tokens is rendered in a single
    pass: each token whose key is bound is replaced by the string form of
    its value and every other token stays verbatim. So "Hi {name}" with
    name bound to "Ann" yields "Hi Ann" and "{missing}" stays
    "{missing}". *)
Theorem FillTemplate_single_pass_on_plain_data :
  forall (data : gmap string Value) (visit : list (string * Value)),
    range_order data visit ->
    (forall t, hasToken t = false -> FillTemplate visit t = t)
    /\ (plainData data ->
        forall segs, forallb wellFormed segs = true ->
                     FillTemplate visit (templateOf segs) = filled data segs)
    /\ (data = {[ "name" := VString "Ann" ]} ->
        FillTemplate visit "Hi {name}" = "Hi Ann"
        /\ FillTemplate visit "{missing}" = "{missing}").
Proof.
  intros data visit Hr. split; [|split].
  - intros t Ht. now apply FillTemplate_no_token.
  - intros Hd segs Hwf. now apply FillTemplate_filled.
  - intros ->.
    assert (Hd : plainData ({[ "name" := VString "Ann" ]} : gmap string Value)).
    { intros key v Hl. apply lookup_singleton_Some in Hl as [<- <-].
      split; reflexivity. }
    split.
    + apply (FillTemplate_filled _ visit [Text "Hi "; Token "name"] Hr Hd eq_refl).
    + apply (FillTemplate_filled _ visit [Token "missing"] Hr Hd eq_refl).
Qed.

(** The examples of the specification, in the canonical visiting order. *)
Lemma FillTemplate_single_pass_on_plain_data_witness :
  FillTemplate (map_to_list Sample.ann) "no tokens here" = "no tokens here"
  /\ FillTemplate (map_to_list Sample.ann) "Hi {name}" = "Hi Ann"
  /\ FillTemplate (map_to_list Sample.ann) "{missing}" = "{missing}".
Proof.
  destruct (FillTemplate_single_pass_on_plain_data
              Sample.ann (map_to_list Sample.ann) (Permutation_refl _))
    as (Hplain & _ & Hex).
  split; [apply Hplain; reflexivity | exact (Hex eq_refl)].
Defined.

(** C8, as stated, fails: when the value bound to a key holds a token,
    the loop may replace that token too, so {a} does not end up as the
    string form of the value bound to "a". *)
Lemma FillTemplate_value_holding_token :
  range_order Sample.chained Sample.chainedVisit
  /\ filled Sample.chained [Token "a"] = "{b}"
  /\ FillTemplate Sample.chainedVisit (templateOf [Token "a"]) = "x"
  /\ FillTemplate Sample.chainedVisit (templateOf [Token "a"])
     <> filled Sample.chained [Token "a"].
Proof.
  split; [|split; [|split]].
  - unfold range_order, Sample.chained, Sample.chainedVisit.
    apply NoDup_Permutation.
    + apply NoDup_cons. split; [|apply NoDup_singleton].
      rewrite list_elem_of_singleton. discriminate.
    + apply NoDup_map_to_list.
    + intros [k v]. rewrite elem_of_map_to_list.
      rewrite !elem_of_cons, elem_of_nil.
      rewrite lookup_insert_Some, lookup_singleton_Some.
      split.
      * intros [[= -> ->]|[[= -> ->]|[]]]; [left; done | right; done].
      * intros [[<- <-]|[Hne [<- <-]]]; [left; done | right; left; done].
  - vm_compute. reflexivity.
  - vm_compute. reflexivity.
  - vm_compute. discriminate.
Qed.

(* ===================================================================== *)
(** * handlers.go: language negotiation *)
(* ===================================================================== *)

Lemma Contains_In slice item : Contains slice item = true <-> In item slice.
Proof.
  induction slice as [|x slice IH]; cbn [Contains In]; [split; [discriminate | tauto]|].
  destruct (String.eqb_spec x item) as [->|Hne]; [tauto|].
  rewrite IH. split; [tauto | intros [H|H]; [contradiction | exact H]].
Qed.

(** C2: language negotiation is a total function. An empty requested
    language falls back to the Accept-Language header and then to "en";
    a code that is not in the profile's supported list is replaced by the
    first supported language, or by "en" when the list is empty; with
    supported languages ["en"; "ru"], an empty request with an empty
    header yields "en" and a request for "fr" yields "en". *)
Theorem negotiateLanguage_total :
  forall (service : ServiceConfig) (order : ProjectOrder) (r : Request),
    let asked := requestedLanguage order r in
    let lang := negotiateLanguage service asked in
    (Language order <> "" -> asked = Language order)
    /\ (Language order = "" -> HeaderGet r "Accept-Language" <> "" ->
        asked = HeaderGet r "Accept-Language")
    /\ (Language order = "" -> HeaderGet r "Accept-Language" = "" -> asked = "en")
    /\ (In asked (SupportedLangs service) -> lang = asked)
    /\ (~ In asked (SupportedLangs service) -> lang = hd "en" (SupportedLangs service))
    /\ (SupportedLangs service = ["en"; "ru"] ->
        (Language order = "" -> HeaderGet r "Accept-Language" = "" -> lang = "en")
        /\ (Language order = "fr" -> lang = "en")).
Proof.
  intros service order r asked lang. subst asked lang.
  unfold requestedLanguage, negotiateLanguage. cbv zeta.
  split; [|split; [|split; [|split; [|split; [|intros Hs; split]]]]].
  - intros H. apply String.eqb_neq in H. now rewrite !H.
  - intros -> H. apply String.eqb_neq in H. cbn. now rewrite H.
  - intros -> ->. reflexivity.
  - intros H. apply Contains_In in H. now rewrite H.
  - intros H. destruct (Contains _ _) eqn:E.
    + exfalso. apply H. now apply Contains_In.
    + cbn. now destruct (SupportedLangs service).
  - intros -> ->. now rewrite Hs.
  - intros ->. now rewrite Hs.
Qed.

Lemma negotiateLanguage_total_witness :
  negotiateLanguage Sample.shop (requestedLanguage Sample.order Sample.request) = "en".
Proof.
  destruct (negotiateLanguage_total Sample.shop Sample.order Sample.request)
    as (_ & _ & _ & _ & _ & H).
  destruct (H eq_refl) as [_ Hfr]. exact (Hfr eq_refl).
Defined.

(* ===================================================================== *)
(** * files.go: validation and the file store *)
(* ===================================================================== *)

Section FilesFacts.

Lemma bytesHasPrefix_app data pre :
  bytesHasPrefix data pre = true <-> exists rest, data = (pre ++ rest)%list.
Proof.
  revert data. induction pre as [|p pre IH]; intros data; cbn [bytesHasPrefix].
  - split; [intros _; now exists data | reflexivity].
  - destruct data as [|d data].
    + split; [discriminate | intros [rest H]; discriminate].
    + destruct (Byte.eqb d p) eqn:E.
      * apply Byte.byte_dec_bl in E. subst d. rewrite IH.
        split; intros [rest H]; exists rest; [now rewrite H | now inversion H].
      * split; [discriminate|]. intros [rest H]. inversion H. subst.
        rewrite (Byte.byte_dec_lb (eq_refl p)) in E. discriminate.
Qed.

Lemma bytesHasPrefix_length data pre :
  bytesHasPrefix data pre = true -> (List.length pre <= List.length data)%nat.
Proof.
  intros H. apply bytesHasPrefix_app in H as [rest ->].
  rewrite length_app. lia.
Qed.

Lemma tempPath_eq sc pre :
  Join storagePath (pre ++ "_" ++ newUUID sc pre ++ ".pdf") = tempPath sc pre.
Proof. reflexivity. Qed.

Variables (lib : Lib) (sc : Sched) (w : World) (data : list byte) (pre : string).

(** The paths of [SaveTempFile], one by one. *)
Lemma SaveTempFile_too_large :
  (len data > MaxFileSize)%Z -> SaveTempFile lib sc w data pre = (w, Err ErrFileTooLarge).
Proof.
  intros H. unfold SaveTempFile.
  destruct (len data >? MaxFileSize)%Z eqn:E; [reflexivity | lia].
Qed.

Lemma SaveTempFile_written :
  (len data <= MaxFileSize)%Z ->
  mkdirFails sc storagePath = false ->
  writeFails sc (tempPath sc pre) = false ->
  SaveTempFile lib sc w data pre
  = let w1 := set_files (insert (tempPath sc pre) data) w in
    if negb (HasPrefix (DetectContentType lib data) "application/pdf")
    then (Remove (tempPath sc pre) w1, Err ErrInvalidFileType)
    else (arm_timer (tempPath sc pre) CleanupInterval w1,
          Ok {| UUID := newUUID sc pre; Path := tempPath sc pre;
                FName := pre ++ "_" ++ newUUID sc pre ++ ".pdf";
                Size := len data; Sha256 := hexEncode (Sum256 lib data);
                MimeType := DetectContentType lib data;
                CreatedAt := clock sc;
                ExpiresAt := (clock sc + CleanupInterval)%Z |}).
Proof.
  intros Hlen Hmk Hwr. unfold SaveTempFile.
  destruct (len data >? MaxFileSize)%Z eqn:E; [lia|].
  rewrite Hmk, tempPath_eq, Hwr. reflexivity.
Qed.

(** Whatever [SaveTempFile] returns, it has one of five shapes. *)
Lemma SaveTempFile_cases :
  (exists e, SaveTempFile lib sc w data pre = (w, Err e))
  \/ (exists n,
        writeLeaves sc (tempPath sc pre) = Some n
        /\ SaveTempFile lib sc w data pre
           = (set_files (insert (tempPath sc pre) (firstn n data)) w, Err ErrWriteFile))
  \/ SaveTempFile lib sc w data pre
     = (Remove (tempPath sc pre) (set_files (insert (tempPath sc pre) data) w),
        Err ErrInvalidFileType)
  \/ exists info,
       SaveTempFile lib sc w data pre
       = (arm_timer (tempPath sc pre) CleanupInterval
            (set_files (insert (tempPath sc pre) data) w), Ok info)
       /\ Path info = tempPath sc pre
       /\ Size info = len data
       /\ Sha256 info = hexEncode (Sum256 lib data).
Proof.
  destruct (Z_gt_dec (len data) MaxFileSize) as [Hgt|Hle].
  { left. eexists. now apply SaveTempFile_too_large. }
  destruct (mkdirFails sc storagePath) eqn:Hmk.
  { left. exists ErrCreateDir. unfold SaveTempFile.
    destruct (len data >? MaxFileSize)%Z eqn:E; [lia|]. now rewrite Hmk. }
  destruct (writeFails sc (tempPath sc pre)) eqn:Hwr.
  { assert (E : SaveTempFile lib sc w data pre
                = (match writeLeaves sc (tempPath sc pre) with
                   | None => w
                   | Some n => set_files (insert (tempPath sc pre) (firstn n data)) w
                   end, Err ErrWriteFile)).
    { unfold SaveTempFile.
      destruct (len data >? MaxFileSize)%Z eqn:E; [lia|].
      now rewrite Hmk, tempPath_eq, Hwr. }
    destruct (writeLeaves sc (tempPath sc pre)) as [n|] eqn:Hleft.
    - right; left. exists n. now split.
    - left. now exists ErrWriteFile. }
  rewrite SaveTempFile_written by (lia || assumption). cbv zeta.
  destruct (negb _); [right; right; left; reflexivity|].
  right; right; right. eexists. repeat split.
Qed.

End FilesFacts.

(** C3: ValidatePDF returns true exactly for the buffers that both start
    with the five bytes "%PDF-" and are sniffed as application/pdf; one
    check alone, or fewer than five bytes, gives false. *)
Theorem ValidatePDF_both_checks :
  forall (lib : Lib) (data : list byte),
    List.length pdfSignature = 5%nat
    /\ (ValidatePDF lib data = true
        <-> (exists rest, data = (pdfSignature ++ rest)%list)
            /\ IsMIME lib data "application/pdf" = true)
    /\ ((exists rest, data = (pdfSignature ++ rest)%list) ->
        IsMIME lib data "application/pdf" = false -> ValidatePDF lib data = false)
    /\ (IsMIME lib data "application/pdf" = true ->
        ~ (exists rest, data = (pdfSignature ++ rest)%list) ->
        ValidatePDF lib data = false)
    /\ ((List.length data < 5)%nat -> ValidatePDF lib data = false).
Proof.
  intros lib data.
  assert (E : ValidatePDF lib data
              = bytesHasPrefix data pdfSignature && IsMIME lib data "application/pdf").
  { unfold ValidatePDF. fold pdfSignature.
    destruct (len data <? Z.of_nat (String.length PDFMagicNumber))%Z eqn:Hlt; [|reflexivity].
    destruct (bytesHasPrefix data pdfSignature) eqn:Hp; [|reflexivity].
    apply bytesHasPrefix_length in Hp. apply Z.ltb_lt in Hlt.
    unfold len in Hlt. change (List.length pdfSignature) with 5%nat in Hp.
    change (String.length PDFMagicNumber) with 5%nat in Hlt. lia. }
  split; [reflexivity|]. rewrite E. repeat split.
  - apply bytesHasPrefix_app. now apply andb_true_iff in H as [H _].
  - now apply andb_true_iff in H as [_ H].
  - intros [Hp Hm]. apply bytesHasPrefix_app in Hp. now rewrite Hp, Hm.
  - intros _ ->. apply andb_false_r.
  - intros _ Hn. destruct (bytesHasPrefix data pdfSignature) eqn:Hp; [|reflexivity].
    exfalso. apply Hn. now apply bytesHasPrefix_app.
  - intros Hlt. destruct (bytesHasPrefix data pdfSignature) eqn:Hp; [|reflexivity].
    apply bytesHasPrefix_length in Hp.
    change (List.length pdfSignature) with 5%nat in Hp. lia.
Qed.

Lemma ValidatePDF_both_checks_witness :
  ValidatePDF Sample.lib (Sample.pdf "x") = true
  /\ ValidatePDF Sample.lib (list_byte_of_string "%PD") = false.
Proof.
  split.
  - apply (ValidatePDF_both_checks Sample.lib (Sample.pdf "x")).
    split; [now exists (list_byte_of_string "1.4 x") | reflexivity].
  - apply (ValidatePDF_both_checks Sample.lib (list_byte_of_string "%PD")).
    cbn. lia.
Defined.





(** C9: when SaveTempFile succeeds, reading the returned path right away
    yields the bytes that were passed in, the Sha256 field is the
    hex-encoded SHA-256 of these bytes and Size is their number; and it
    does succeed for a buffer within the size limit that is sniffed as
    application/pdf, when the directory and the file can be written. *)
Theorem SaveTempFile_round_trip :
  forall (lib : Lib) (sc : Sched) (w : World) (data : list byte) (pre : string),
    (forall w' info,
        SaveTempFile lib sc w data pre = (w', Ok info) ->
        ReadFile w' (Path info) = Some data
        /\ Sha256 info = hexEncode (Sum256 lib data)
        /\ Size info = Z.of_nat (List.length data))
    /\ ((len data <= MaxFileSize)%Z ->
        mkdirFails sc storagePath = false ->
        writeFails sc (tempPath sc pre) = false ->
        DetectContentType lib data = "application/pdf" ->
        exists w' info, SaveTempFile lib sc w data pre = (w', Ok info)).
Proof.
  intros lib sc w data pre. split.
  - intros w' info H.
    destruct (SaveTempFile_cases lib sc w data pre)
      as [[e' E]|[(n & _ & E)|[E|(info' & E & Hpath & Hsize & Hsha)]]];
      rewrite E in H; inversion H; subst.
    rewrite Hpath, Hsize, Hsha. repeat split.
    unfold ReadFile. cbn. apply lookup_insert_eq.
  - intros Hlen Hmk Hwr Hmime.
    rewrite SaveTempFile_written by assumption. cbv zeta.
    rewrite Hmime. cbn [HasPrefix negb]. eauto.
Qed.

Lemma SaveTempFile_round_trip_witness :
  exists w' info,
    SaveTempFile Sample.lib Sample.sched Sample.world (Sample.pdf "invoice") "invoice"
    = (w', Ok info)
    /\ ReadFile w' (Path info) = Some (Sample.pdf "invoice")
    /\ Size info = 16%Z.
Proof.
  destruct (SaveTempFile_round_trip Sample.lib Sample.sched Sample.world
              (Sample.pdf "invoice") "invoice") as [Hread Hok].
  destruct Hok as (w' & info & E);
    [vm_compute; discriminate | reflexivity | reflexivity | reflexivity |].
  exists w', info. split; [exact E|].
  destruct (Hread w' info E) as (Hr & _ & Hs). split; [exact Hr | exact Hs].
Defined.

(* ===================================================================== *)
(** * Template sources *)
(* ===================================================================== *)

Section SourceFacts.

Variables (sc : Sched) (w : World) (service : ServiceConfig).
Variables (lang : string) (data : gmap string Value).

Lemma emailPart_source paths visit fallback :
  emailPart w paths lang visit fallback
  = if String.eqb (mapIndex paths lang) "" then fallback
    else match ReadFile w (mapIndex paths lang) with
         | Some raw => FillTemplate visit (string_of_list_byte raw)
         | None => fallback
         end.
Proof. unfold emailPart. now destruct (String.eqb _ _). Qed.

Lemma inMemoryTemplate_index l :
  inMemoryTemplate service l
  = if String.eqb (mapIndex (TelegramTemplates service) l) ""
    then Err ErrInvalidTemplate
    else Ok (mapIndex (TelegramTemplates service) l).
Proof.
  unfold inMemoryTemplate, mapIndex.
  destruct (TelegramTemplates service !! l) as [t|]; cbn; [|reflexivity].
  now destruct (String.eqb t "").
Qed.

Lemma getLocalizedTemplate_source l :
  templateLang service lang = Some l ->
  getLocalizedTemplate w service lang
  = if String.eqb (mapIndex (TelegramTemplatePaths service) l) ""
    then inMemoryTemplate service l
    else match ReadFile w (mapIndex (TelegramTemplatePaths service) l) with
         | Some content => Ok (string_of_list_byte content)
         | None => Err (ErrLoadTemplate (mapIndex (TelegramTemplatePaths service) l))
         end.
Proof.
  intros Hl. unfold getLocalizedTemplate, mapIndex. rewrite Hl.
  destruct (TelegramTemplatePaths service !! l) as [path|]; cbn; [|reflexivity].
  now destruct (String.eqb path "").
Qed.

End SourceFacts.

(** C7, amended. Chat body: in the language the lookup settles on (the
    requested one when an in-memory chat template exists for it, else the
    first supported language; with neither, the invalid-template error),
    a non-empty file path is read from the disk as it is at that render
    and takes precedence over the in-memory template, a failed read being
    an error; without a path the non-empty in-memory template is used;
    with neither a path nor an in-memory template rendering fails with
    the invalid-template error. Email subject and body: the file at a
    non-empty path is read as it is at that render; without a path, or
    when the file cannot be read, the fixed default text is used, the
    in-memory email templates are not consulted and rendering does not
    fail. *)
Theorem template_source_order :
  forall (sc : Sched) (w : World) (service : ServiceConfig) (lang : string)
         (data : gmap string Value),
    (forall l, templateLang service lang = Some l ->
       (partPath service ChatBodyPart l <> "" ->
        renderPart sc w service lang data ChatBodyPart
        = match ReadFile w (partPath service ChatBodyPart l) with
          | Some content =>
              Ok (renderTemplate (rangeData sc 2 data) (string_of_list_byte content))
          | None => Err (ErrLoadTemplate (partPath service ChatBodyPart l))
          end)
       /\ (partPath service ChatBodyPart l = "" ->
           partInline service ChatBodyPart l <> "" ->
           renderPart sc w service lang data ChatBodyPart
           = Ok (renderTemplate (rangeData sc 2 data) (partInline service ChatBodyPart l)))
       /\ (partPath service ChatBodyPart l = "" ->
           partInline service ChatBodyPart l = "" ->
           renderPart sc w service lang data ChatBodyPart = Err ErrInvalidTemplate))
    /\ (templateLang service lang = None ->
        renderPart sc w service lang data ChatBodyPart = Err ErrInvalidTemplate)
    /\ (forall part, part <> ChatBodyPart ->
          renderPart sc w service lang data part
          = Ok (if String.eqb (partPath service part lang) "" then partDefault part
                else match ReadFile w (partPath service part lang) with
                     | Some raw =>
                         FillTemplate (rangeData sc (partSite part) data)
                                      (string_of_list_byte raw)
                     | None => partDefault part
                     end)).
Proof.
  intros sc w service lang data. split; [|split].
  - intros l Hl. cbn [renderPart partPath partInline].
    rewrite (getLocalizedTemplate_source w service lang l Hl), inMemoryTemplate_index.
    split; [|split].
    + intros Hp. apply String.eqb_neq in Hp. rewrite Hp.
      now destruct (ReadFile w _).
    + intros -> Hi. apply String.eqb_neq in Hi. cbn. now rewrite Hi.
    + intros -> ->. reflexivity.
  - intros Hl. cbn [renderPart]. unfold getLocalizedTemplate. now rewrite Hl.
  - intros [] Hpart; [| |contradiction]; cbn [renderPart partPath partDefault partSite];
      unfold emailSubject, emailBody; now rewrite emailPart_source.
Qed.

(** A chat template file edited between two renders shows in the second. *)
Lemma template_source_order_witness :
  renderPart Sample.sched Sample.disk Sample.fileBot "en" Sample.ann ChatBodyPart
  = Ok "new Ann"
  /\ renderPart Sample.sched Sample.world Sample.fileBot "en" Sample.ann ChatBodyPart
     = Err (ErrLoadTemplate "tg_en.txt").
Proof.
  split.
  - destruct (template_source_order Sample.sched Sample.disk Sample.fileBot "en"
                Sample.ann) as (H & _ & _).
    destruct (H "en" eq_refl) as (Hpath & _ & _).
    rewrite Hpath; [reflexivity | discriminate].
  - destruct (template_source_order Sample.sched Sample.world Sample.fileBot "en"
                Sample.ann) as (H & _ & _).
    destruct (H "en" eq_refl) as (Hpath & _ & _).
    rewrite Hpath; [reflexivity | discriminate].
Defined.

(** C7, as stated, fails for the email subject: with neither a file
    path nor an in-memory template configured, rendering does not fail
    but yields the fixed subject. *)
Lemma email_subject_without_template_is_rendered :
  partPath Sample.shop EmailSubjectPart "en" = EmptyString
  /\ partInline Sample.shop EmailSubjectPart "en" = EmptyString
  /\ renderPart Sample.sched Sample.world Sample.shop "en"
       (templateData Sample.order "en" Sample.shop) EmailSubjectPart
     = Ok "Order Confirmation"
  /\ ~ (exists e, renderPart Sample.sched Sample.world Sample.shop "en"
                    (templateData Sample.order "en" Sample.shop) EmailSubjectPart
                  = Err e).
Proof.
  split; [reflexivity|]. split; [reflexivity|]. split; [reflexivity|].
  intros [e H]. discriminate H.
Qed.

(* ===================================================================== *)
(** * handlers.go: the pipeline *)
(* ===================================================================== *)

Section PipelineFacts.

Variables (lib : Lib) (sc : Sched) (out : Outside).

Lemma same_records_refl w : same_records w w.
Proof. now repeat split. Qed.

Lemma same_records_trans w1 w2 w3 :
  same_records w1 w2 -> same_records w2 w3 -> same_records w1 w3.
Proof. intros (? & ? & ?) (? & ? & ?). repeat split; congruence. Qed.

Lemma removeAll_same_records visit w : same_records w (removeAll visit w).
Proof.
  unfold removeAll. revert w. induction visit as [|kv visit IH]; intros w.
  - apply same_records_refl.
  - cbn [fold_left]. eapply same_records_trans; [|apply IH]. now repeat split.
Qed.

Lemma SaveTempFile_same_records w data pre :
  same_records w (SaveTempFile lib sc w data pre).1.
Proof.
  destruct (SaveTempFile_cases lib sc w data pre)
    as [[e E]|[(n & _ & E)|[E|(info & E & _)]]];
    rewrite E; now repeat split.
Qed.

Lemma saveLoop_ok visit :
  forall filePaths w w1 filePaths1,
    saveLoop lib sc visit filePaths w = (w1, Ok filePaths1) ->
    readable w filePaths ->
    readable w1 filePaths1
    /\ (forall name, is_Some (filePaths !! name) -> is_Some (filePaths1 !! name))
    /\ (forall name content, (name, content) ∈ visit -> is_Some (filePaths1 !! name))
    /\ same_records w w1.
Proof.
  induction visit as [|[name content] visit IH]; intros filePaths w w1 filePaths1 H Hr.
  - cbn in H. inversion H; subst. repeat split; auto.
    intros ? ? Hin. now apply elem_of_nil in Hin.
  - cbn [saveLoop] in H.
    pose proof (SaveTempFile_same_records w content name) as Hsame.
    destruct (SaveTempFile_cases lib sc w content name)
      as [[e E]|[(n & _ & E)|[E|(info & E & Hpath & _)]]];
      rewrite E in H, Hsame; try discriminate.
    cbn [fst] in Hsame.
    apply IH in H as (Hr1 & Hkeep & Hvisit & Hrec).
    + split; [exact Hr1|]. split; [|split].
      * intros n Hn. apply Hkeep.
        destruct (decide (name = n)) as [->|Hne];
          [rewrite lookup_insert_eq | rewrite lookup_insert_ne by exact Hne]; eauto.
      * intros n c Hin. apply elem_of_cons in Hin as [[= -> ->]|Hin]; [|eauto].
        apply Hkeep. rewrite lookup_insert_eq. eauto.
      * eapply same_records_trans; eassumption.
    + intros n p Hl. cbn.
      destruct (decide (name = n)) as [->|Hne].
      * rewrite lookup_insert_eq in Hl. inversion Hl; subst. rewrite Hpath.
        rewrite lookup_insert_eq. eauto.
      * rewrite lookup_insert_ne in Hl by exact Hne.
        destruct (decide (tempPath sc name = p)) as [->|Hp];
          [rewrite lookup_insert_eq | rewrite lookup_insert_ne by exact Hp]; eauto.
Qed.

Lemma orderFiles_specification order :
  orderFiles order !! "specification" = Some (SpecificationPdf order).
Proof.
  unfold orderFiles. destruct (len (BriefFile order) >? 0)%Z;
    [rewrite lookup_insert_ne by discriminate|]; apply lookup_insert_eq.
Qed.

Lemma readAttachments_nonempty w visit name path :
  (name, path) ∈ visit -> is_Some (files w !! path) -> readAttachments w visit <> [].
Proof.
  induction visit as [|[n p] visit IH]; intros Hin Hp.
  - now apply elem_of_nil in Hin.
  - cbn [readAttachments]. unfold ReadFile.
    apply elem_of_cons in Hin as [[= <- <-]|Hin].
    + destruct Hp as [c ->]. discriminate.
    + destruct (files w !! p); [discriminate | now apply IH].
Qed.

(** Once the files are saved the attachments can be prepared. *)
Lemma PrepareAttachments_after_save w order w1 filePaths :
  Sched_ok sc ->
  saveOrderFiles lib sc w order = (w1, Ok filePaths) ->
  exists attachments,
    PrepareAttachments w1 (rangePaths sc 1 filePaths) = Some attachments.
Proof.
  intros Hsc H. unfold saveOrderFiles in H.
  apply saveLoop_ok in H as (Hr & _ & Hvisit & _);
    [|intros n p Hl; now rewrite lookup_empty in Hl].
  destruct (Hvisit "specification" (SpecificationPdf order)) as [path Hpath].
  { pose proof (rangeFiles_ok sc Hsc (orderFiles order)) as Hp.
    unfold range_order in Hp. rewrite Hp.
    apply elem_of_map_to_list, orderFiles_specification. }
  assert (Hne : readAttachments w1 (rangePaths sc 1 filePaths) <> []).
  { apply (readAttachments_nonempty w1 _ "specification" path).
    - pose proof (rangePaths_ok sc Hsc 1%nat filePaths) as Hp.
      unfold range_order in Hp. rewrite Hp. now apply elem_of_map_to_list.
    - now apply (Hr "specification"). }
  unfold PrepareAttachments.
  destruct (readAttachments w1 (rangePaths sc 1 filePaths)) as [|a l]; [contradiction|].
  eauto.
Qed.

Lemma saveOrderFiles_same_records w order w1 res :
  saveOrderFiles lib sc w order = (w1, res) -> same_records w w1.
Proof.
  unfold saveOrderFiles. generalize (rangeFiles sc (orderFiles order)) (∅ : gmap string string).
  intros visit. revert w. induction visit as [|[name content] visit IH]; intros w filePaths H.
  - cbn in H. inversion H. apply same_records_refl.
  - cbn [saveLoop] in H.
    pose proof (SaveTempFile_same_records w content name) as Hsame.
    destruct (SaveTempFile lib sc w content name) as [w' [info|e]]; cbn [fst] in Hsame.
    + eapply same_records_trans; [exact Hsame | eapply IH; exact H].
    + inversion H; subst. eapply same_records_trans; [exact Hsame|].
      apply removeAll_same_records.
Qed.

(** The channels leave the filesystem alone. *)
Lemma SendOrderEmail_world w service subject body recipient attachments :
  let w' := (SendOrderEmail lib out w service subject body recipient attachments).1 in
  files w' = files w /\ journal w' = journal w /\ project_orders w' = project_orders w.
Proof.
  unfold SendOrderEmail.
  destruct (negb (ParseAddressOk lib recipient)); [now repeat split|].
  destruct (smtpFails out _ _ _); now repeat split.
Qed.

Lemma SendTelegramNotification_world w service lang visit :
  let w' := (SendTelegramNotification out w service lang visit).1 in
  files w' = files w /\ journal w' = journal w /\ project_orders w' = project_orders w.
Proof.
  unfold SendTelegramNotification, sendTelegramRequest.
  destruct (negb (Configured (Telegram service))); [now repeat split|].
  destruct (getLocalizedTemplate w service lang); [|now repeat split].
  destruct (_ >? _)%Z; [now repeat split|].
  destruct (telegramReply out _ _ _) as [| | | |[] ? ?]; now repeat split.
Qed.

(** The chat channel reads the filesystem only. *)
Lemma getLocalizedTemplate_files w w' service lang :
  files w' = files w ->
  getLocalizedTemplate w' service lang = getLocalizedTemplate w service lang.
Proof. intros H. unfold getLocalizedTemplate, ReadFile. now rewrite H. Qed.

Lemma SendTelegramNotification_files w w' service lang visit :
  files w' = files w ->
  (SendTelegramNotification out w' service lang visit).2
  = (SendTelegramNotification out w service lang visit).2.
Proof.
  intros H. unfold SendTelegramNotification, sendTelegramRequest.
  rewrite (getLocalizedTemplate_files w w' service lang H).
  destruct (negb (Configured (Telegram service))); [reflexivity|].
  destruct (getLocalizedTemplate w service lang); [|reflexivity].
  destruct (_ >? _)%Z; [reflexivity|].
  destruct (telegramReply out _ _ _) as [| | | |[] ? ?]; reflexivity.
Qed.

(** What [dispatch] leaves behind when the attachments were prepared. *)
Lemma dispatch_outcome w1 r order serviceName lang service filePaths attachments :
  PrepareAttachments w1 (rangePaths sc 1 filePaths) = Some attachments ->
  let data := templateData order lang service in
  let subject := emailSubject sc w1 service lang data in
  let body := emailBody sc w1 service lang data in
  let row := orderRow lib sc r serviceName lang order in
  let emailErr :=
    (SendOrderEmail lib out w1 service subject body (ContactInfo order) attachments).2 in
  let chatErr := (SendTelegramNotification out w1 service lang (rangeData sc 2 data)).2 in
  let w5 := dispatch lib sc out w1 r order serviceName lang service filePaths in
  journal w5
  = (journal w1
     ++ [EmailCalled service subject body (ContactInfo order) attachments emailErr;
         TelegramCalled service lang data chatErr;
         AuditCalled row (dbRejects out row)])%list
  /\ project_orders w5
     = (project_orders w1 ++ (if dbRejects out row then [] else [row]))%list.
Proof.
  intros Hatt data subject body row emailErr chatErr w5.
  subst w5. unfold dispatch. rewrite Hatt.
  fold data. fold subject. fold body.
  pose proof (SendOrderEmail_world w1 service subject body (ContactInfo order) attachments)
    as (Hf2 & Hj2 & Ho2).
  subst emailErr.
  destruct (SendOrderEmail lib out w1 service subject body (ContactInfo order) attachments)
    as [w2 emailErr]. cbn [fst snd] in *.
  set (w2' := note (EmailCalled service subject body (ContactInfo order) attachments emailErr) w2).
  pose proof (SendTelegramNotification_world w2' service lang (rangeData sc 2 data))
    as (Hf3 & Hj3 & Ho3).
  pose proof (SendTelegramNotification_files w1 w2' service lang (rangeData sc 2 data) Hf2)
    as Hchat.
  fold chatErr in Hchat.
  destruct (SendTelegramNotification out w2' service lang (rangeData sc 2 data))
    as [w3 chatErr']. cbn [fst snd] in *. subst chatErr'.
  unfold logOrderToDB. fold row.
  destruct (dbRejects out row); cbn; rewrite ?Hj3, ?Ho3; cbn; rewrite ?Hj2, ?Ho2;
    rewrite <- ?app_assoc; cbn; rewrite ?app_nil_r; split; reflexivity.
Qed.

(** The path of [HandleProjectOrder] for an accepted request whose files
    were saved. *)
Lemma HandleProjectOrder_accepted services w r order service w1 filePaths :
  accepted lib services r order service ->
  saveOrderFiles lib sc w order = (w1, Ok filePaths) ->
  let serviceName := HeaderGet r "X-Service-Name" in
  let lang := negotiateLanguage service (requestedLanguage order r) in
  HandleProjectOrder lib sc out services w r
  = (cleanupFiles sc filePaths
       (dispatch lib sc out w1 r order serviceName lang service filePaths),
     respondWithJSON 200 (successPayload serviceName lang)).
Proof.
  intros [Hd Hn Hc Hp Hs Hi Hk Hh Hsvc] Hsave. cbv zeta.
  unfold HandleProjectOrder. rewrite Hd.
  apply String.eqb_neq in Hn, Hc, Hp, Hh.
  rewrite Hn, Hc, Hp, Hs, Hi, Hk. cbn [orb negb].
  rewrite Hh, Hsvc, Hsave. reflexivity.
Qed.

End PipelineFacts.

(** The records an accepted request leaves behind, once its files were
    saved and its attachments prepared. *)
Lemma HandleProjectOrder_records :
  forall (lib : Lib) (sc : Sched) (out : Outside)
         (services : gmap string ServiceConfig) (w : World) (r : Request)
         (order : ProjectOrder) (service : ServiceConfig)
         (w1 : World) (filePaths : gmap string string) attachments,
    accepted lib services r order service ->
    saveOrderFiles lib sc w order = (w1, Ok filePaths) ->
    PrepareAttachments w1 (rangePaths sc 1 filePaths) = Some attachments ->
    let serviceName := HeaderGet r "X-Service-Name" in
    let lang := negotiateLanguage service (requestedLanguage order r) in
    let data := templateData order lang service in
    let subject := emailSubject sc w1 service lang data in
    let body := emailBody sc w1 service lang data in
    let row := orderRow lib sc r serviceName lang order in
    journal (HandleProjectOrder lib sc out services w r).1
    = (journal w
       ++ [EmailCalled service subject body (ContactInfo order) attachments
             (SendOrderEmail lib out w1 service subject body
                             (ContactInfo order) attachments).2;
           TelegramCalled service lang data
             (SendTelegramNotification out w1 service lang (rangeData sc 2 data)).2;
           AuditCalled row (dbRejects out row)])%list
    /\ project_orders (HandleProjectOrder lib sc out services w r).1
       = (project_orders w ++ (if dbRejects out row then [] else [row]))%list.
Proof.
  intros lib sc out services w r order service w1 filePaths attachments Hacc Hsave Hatt.
  cbv zeta.
  rewrite (HandleProjectOrder_accepted lib sc out services w r order service w1 filePaths
             Hacc Hsave).
  cbn [fst snd].
  destruct (removeAll_same_records
              (rangePaths sc 2 filePaths)
              (dispatch lib sc out w1 r order (HeaderGet r "X-Service-Name")
                 (negotiateLanguage service (requestedLanguage order r)) service filePaths))
    as (Ho & _ & Hj).
  unfold cleanupFiles. rewrite Hj, Ho.
  destruct (dispatch_outcome lib sc out w1 r order (HeaderGet r "X-Service-Name")
              (negotiateLanguage service (requestedLanguage order r)) service filePaths
              attachments Hatt) as [Hjd Hod].
  rewrite Hjd, Hod.
  destruct (saveOrderFiles_same_records lib sc w order w1 _ Hsave) as (-> & _ & ->).
  split; reflexivity.
Qed.

Lemma Sample_sched_ok : Sched_ok Sample.sched.
Proof. split; intros; apply Permutation_refl. Qed.

Lemma Sample_accepted :
  accepted Sample.lib Sample.services Sample.request Sample.order Sample.shop.
Proof. split; (discriminate || reflexivity). Qed.

Lemma Sample_saved :
  saveOrderFiles Sample.lib Sample.sched Sample.world Sample.order
  = ((saveOrderFiles Sample.lib Sample.sched Sample.world Sample.order).1,
     Ok (<["specification" := "app/storage/temp/specification_id-specification.pdf"]>
           (<["invoice" := "app/storage/temp/invoice_id-invoice.pdf"]>
              ({[ "contract" := "app/storage/temp/contract_id-contract.pdf" ]})))).
Proof. vm_compute. reflexivity. Qed.

(** C10: for every accepted order the audit row carries the language
    field of the request body as submitted, whatever language was
    negotiated: the negotiated code goes into the response (and is
    passed to logOrderToDB, which does not use it), so the two can
    differ. *)
Theorem audit_row_keeps_submitted_language :
  forall (lib : Lib) (sc : Sched) (out : Outside)
         (services : gmap string ServiceConfig) (w : World) (r : Request)
         (order : ProjectOrder) (service : ServiceConfig)
         (w1 : World) (filePaths : gmap string string),
    Sched_ok sc ->
    accepted lib services r order service ->
    saveOrderFiles lib sc w order = (w1, Ok filePaths) ->
    let lang := negotiateLanguage service (requestedLanguage order r) in
    let w' := (HandleProjectOrder lib sc out services w r).1 in
    let resp := (HandleProjectOrder lib sc out services w r).2 in
    (forall anyLang, row_language (orderRow lib sc r (HeaderGet r "X-Service-Name")
                                            anyLang order) = Language order)
    /\ payload resp !! "lang" = Some lang
    /\ exists row,
         last (journal w') = Some (AuditCalled row (dbRejects out row))
         /\ row_language row = Language order
         /\ (dbRejects out row = false -> last (project_orders w') = Some row)
         /\ (Language order <> lang -> Some (row_language row) <> payload resp !! "lang").
Proof.
  intros lib sc out services w r order service w1 filePaths Hsc Hacc Hsave lang w' resp.
  destruct (PrepareAttachments_after_save lib sc w order w1 filePaths Hsc Hsave)
    as [attachments Hatt].
  destruct (HandleProjectOrder_records lib sc out services w r order service w1 filePaths
              attachments Hacc Hsave Hatt) as (Hj & Ho).
  fold lang in Hj, Ho. fold w' in Hj, Ho.
  split; [reflexivity|].
  assert (Hlang : payload resp !! "lang" = Some lang).
  { subst resp.
    rewrite (HandleProjectOrder_accepted lib sc out services w r order service w1
               filePaths Hacc Hsave).
    cbn [snd respondWithJSON payload]. unfold successPayload.
    rewrite !lookup_insert_ne by discriminate. apply lookup_insert_eq. }
  split; [exact Hlang|].
  eexists. split; [|split; [|split]].
  - rewrite Hj, last_app. reflexivity.
  - reflexivity.
  - intros Hdb. rewrite Ho, Hdb. apply last_snoc.
  - intros Hne. rewrite Hlang. cbn. congruence.
Qed.

(** A French order for a tenant that supports English and Russian: the
    response says "en", the audit row says "fr". *)
Lemma audit_row_keeps_submitted_language_witness :
  payload (HandleProjectOrder Sample.lib Sample.sched Sample.outside Sample.services
             Sample.world Sample.request).2 !! "lang" = Some "en"
  /\ exists row,
       last (project_orders
               (HandleProjectOrder Sample.lib Sample.sched Sample.outside Sample.services
                  Sample.world Sample.request).1) = Some row
       /\ row_language row = "fr".
Proof.
  destruct (audit_row_keeps_submitted_language
              Sample.lib Sample.sched Sample.outside Sample.services Sample.world
              Sample.request Sample.order Sample.shop _ _
              Sample_sched_ok Sample_accepted Sample_saved)
    as (_ & Hlang & row & _ & Hrow & Hlast & _).
  split; [exact Hlang|].
  exists row. split; [exact (Hlast eq_refl) | exact Hrow].
Defined.

(* ===================================================================== *)
(** * middleware.go: the rate limiter *)
(* ===================================================================== *)

Section RateFacts.

Variable lib : Lib.

Lemma serve_alias st r t :
  all_alias st ->
  all_alias (serve lib st r t).1 /\ limiter (serve lib st r t).1 = limiter st.
Proof.
  intros Hst. unfold serve.
  destruct (limiters st !! GetRealIP lib r) as [l|] eqn:Hl.
  - destruct (heap st !! l) as [lim|]; [destruct (Wait lim t (Deadline r)) as [lim1 [d|]]|];
      cbn; split; auto.
  - assert (Hnew : all_alias {| heap := heap st;
                                limiters := <[GetRealIP lib r := limiter st]> (limiters st);
                                limiter := limiter st |}).
    { intros ip l. cbn. destruct (decide (GetRealIP lib r = ip)) as [->|Hne].
      - rewrite lookup_insert_eq. congruence.
      - rewrite lookup_insert_ne by exact Hne. apply Hst. }
    destruct (heap st !! limiter st) as [lim|];
      [destruct (Wait lim t (Deadline r)) as [lim1 [d|]]|]; cbn; split; auto.
Qed.

Lemma serveAll_alias rs :
  forall st, all_alias st -> all_alias (serveAll lib st rs).1.
Proof.
  induction rs as [|[r t] rs IH]; intros st Hst; [exact Hst|].
  cbn [serveAll].
  destruct (serve_alias st r t Hst) as [H1 _].
  destruct (serve lib st r t) as [st1 v]. cbn [fst] in H1.
  specialize (IH st1 H1).
  destruct (serveAll lib st1 rs) as [st2 vs]. exact IH.
Qed.

End RateFacts.

(** C5 does not hold of the code: the middleware creates one limiter and
    stores a pointer to it under every client address, so after any
    sequence of requests all addresses are mapped to that one limiter.
    After ten requests of one client have used up the burst, the first
    request of another client, arriving at the same instant, has to wait
    six seconds for a token (or is refused with 429 when its context
    expires sooner), while on a fresh middleware it is served at once. *)
Theorem RateLimitMiddleware_bucket_shared_between_clients :
  forall lib : Lib,
    let a := Sample.from "10.0.0.1" in
    let b := Sample.from "10.0.0.2" in
    let hasty := {| Header := Header b; RemoteAddr := EmptyString;
                    Deadline := Some 1000000000%Z; Decoded := None |} in
    let busy := (serveAll lib RateLimitMiddleware (repeat (a, 0%Z) 10)).1 in
    (forall rs, all_alias (serveAll lib RateLimitMiddleware rs).1)
    /\ (serveAll lib RateLimitMiddleware (repeat (a, 0%Z) 10)).2 = repeat (Next 0) 10
    /\ (serve lib RateLimitMiddleware b 0).2 = Next 0
    /\ (serve lib busy b 0).2 = Next 6000000000
    /\ (serve lib busy hasty 0).2 = TooManyRequests
    /\ limiters (serve lib busy b 0).1 !! "10.0.0.1" = Some 0%nat
    /\ limiters (serve lib busy b 0).1 !! "10.0.0.2" = Some 0%nat.
Proof.
  intros lib. cbv zeta. split.
  - intros rs. apply serveAll_alias. intros ip l Hl.
    cbn in Hl. now rewrite lookup_empty in Hl.
  - vm_compute. repeat split; reflexivity.
Qed.

(* ===================================================================== *)
(** * The life of the temporary files *)
(* ===================================================================== *)

Section LifecycleFacts.

Variables (lib : Lib) (sc : Sched).






Lemma SendOrderEmail_disk out w service subject body recipient attachments :
  same_disk w (SendOrderEmail lib out w service subject body recipient attachments).1.
Proof.
  unfold SendOrderEmail.
  destruct (negb (ParseAddressOk lib recipient)); [now split|].
  destruct (smtpFails out _ _ _); now split.
Qed.




Lemma SaveTempFile_success w data pre w1 info :
  SaveTempFile lib sc w data pre = (w1, Ok info) ->
  w1 = arm_timer (tempPath sc pre) CleanupInterval
         (set_files (insert (tempPath sc pre) data) w)
  /\ Path info = tempPath sc pre.
Proof.
  intros H.
  destruct (SaveTempFile_cases lib sc w data pre)
    as [[e' E]|[(n & _ & E)|[E|(info' & E & Hp & _)]]];
    rewrite E in H; inversion H; subst.
  now split.
Qed.




End LifecycleFacts.

Section HandlerFacts.

Variables (lib : Lib) (sc : Sched) (out : Outside).
Variables (services : gmap string ServiceConfig) (w : World) (r : Request).

(** The branches of [HandleProjectOrder] that refuse the request. *)
Lemma HandleProjectOrder_not_accepted :
  ~ (exists order service, accepted lib services r order service) ->
  exists message,
    HandleProjectOrder lib sc out services w r = (w, respondWithError 400 message).
Proof.
  intros Hno. unfold HandleProjectOrder.
  destruct (Decoded r) as [order|] eqn:Hd; [|eauto].
  destruct (String.eqb_spec (FullName order) "") as [|Hn]; [cbn; eauto|].
  destruct (String.eqb_spec (ContactInfo order) "") as [|Hc]; [cbn; eauto|].
  destruct (String.eqb_spec (PaymentMethod order) "") as [|Hp]; [cbn; eauto|].
  cbn [orb].
  destruct (ValidatePDF lib (SpecificationPdf order)) eqn:Hs; [|cbn; eauto].
  destruct (ValidatePDF lib (InvoicePdf order)) eqn:Hi; [|cbn; eauto].
  destruct (ValidatePDF lib (ContractPdf order)) eqn:Hk; [|cbn; eauto].
  cbn [negb orb].
  destruct (String.eqb_spec (HeaderGet r "X-Service-Name") "") as [|Hh]; [eauto|].
  destruct (GetService services (HeaderGet r "X-Service-Name")) as [service|] eqn:Hsvc;
    [|eauto].
  exfalso. apply Hno. exists order, service. now split.
Qed.

(** The branches that accept it. *)
Lemma HandleProjectOrder_after_save order service :
  accepted lib services r order service ->
  HandleProjectOrder lib sc out services w r
  = match saveOrderFiles lib sc w order with
    | (w1, Err _) => (w1, respondWithError 500 "Failed to save files")
    | (w1, Ok filePaths) =>
        (cleanupFiles sc filePaths
           (dispatch lib sc out w1 r order (HeaderGet r "X-Service-Name")
              (negotiateLanguage service (requestedLanguage order r)) service filePaths),
         respondWithJSON 200
           (successPayload (HeaderGet r "X-Service-Name")
              (negotiateLanguage service (requestedLanguage order r))))
    end.
Proof.
  intros [Hd Hn Hc Hp Hs Hi Hk Hh Hsvc].
  unfold HandleProjectOrder. rewrite Hd.
  apply String.eqb_neq in Hn, Hc, Hp, Hh.
  rewrite Hn, Hc, Hp, Hs, Hi, Hk. cbn [orb negb].
  rewrite Hh, Hsvc. reflexivity.
Qed.

Lemma accepted_dec :
  (exists order service, accepted lib services r order service)
  \/ ~ (exists order service, accepted lib services r order service).
Proof.
  destruct (Decoded r) as [order|] eqn:Hd;
    [|right; intros (o & s & [H]); congruence].
  destruct (GetService services (HeaderGet r "X-Service-Name")) as [service|] eqn:Hsvc;
    [|right; intros (o & s & [H]); congruence].
  destruct (String.eqb_spec (FullName order) "") as [Hn|Hn];
    [right; intros (o & s & [H]); congruence|].
  destruct (String.eqb_spec (ContactInfo order) "") as [Hc|Hc];
    [right; intros (o & s & [H]); congruence|].
  destruct (String.eqb_spec (PaymentMethod order) "") as [Hp|Hp];
    [right; intros (o & s & [H]); congruence|].
  destruct (String.eqb_spec (HeaderGet r "X-Service-Name") "") as [Hh|Hh];
    [right; intros (o & s & [H]); congruence|].
  destruct (ValidatePDF lib (SpecificationPdf order)) eqn:Hs;
    [|right; intros (o & s & [H]); congruence].
  destruct (ValidatePDF lib (InvoicePdf order)) eqn:Hi;
    [|right; intros (o & s & [H]); congruence].
  destruct (ValidatePDF lib (ContractPdf order)) eqn:Hk;
    [|right; intros (o & s & [H]); congruence].
  left. exists order, service. now split.
Qed.

End HandlerFacts.

(** X3: HandleProjectOrder answers 400 exactly when the request is not a
    decoded, well-formed order for a registered tenant, and then the
    world is left as it was: no file is written, nothing is sent, no
    audit row is added. Its only other answers are 500 and 200, and
    unless it answers 200 no channel is called and no row is added. *)
Theorem HandleProjectOrder_refusal_is_silent :
  forall (lib : Lib) (sc : Sched) (out : Outside)
         (services : gmap string ServiceConfig) (w : World) (r : Request),
    let w' := (HandleProjectOrder lib sc out services w r).1 in
    let resp := (HandleProjectOrder lib sc out services w r).2 in
    (code resp = 400%Z
     <-> ~ (exists order service, accepted lib services r order service))
    /\ (code resp = 400%Z -> w' = w)
    /\ (code resp = 400%Z \/ code resp = 500%Z \/ code resp = 200%Z)
    /\ (code resp <> 200%Z -> same_records w w').
Proof.
  intros lib sc out services w r. cbv zeta.
  destruct (accepted_dec lib services r) as [(order & service & Hacc)|Hno].
  - rewrite (HandleProjectOrder_after_save lib sc out services w r order service Hacc).
    destruct (saveOrderFiles lib sc w order) as [w1 [filePaths|e]] eqn:Hsave;
      cbn [fst snd respondWithJSON respondWithError code].
    + split; [split; [discriminate | intros Hno; exfalso; apply Hno; eauto]|].
      split; [discriminate|]. split; [auto|]. congruence.
    + split; [split; [discriminate | intros Hno; exfalso; apply Hno; eauto]|].
      split; [discriminate|]. split; [auto|]. intros _.
      exact (saveOrderFiles_same_records lib sc w order w1 _ Hsave).
  - destruct (HandleProjectOrder_not_accepted lib sc out services w r Hno) as [m ->].
    cbn [fst snd respondWithJSON respondWithError code].
    split; [split; auto|]. split; [auto|]. split; [auto|].
    intros _. apply same_records_refl.
Qed.

Section ReadBackFacts.

Variables (lib : Lib) (sc : Sched).

Lemma orderFiles_labels order name content :
  orderFiles order !! name = Some content -> name ∈ labels.
Proof.
  unfold orderFiles, labels. intros H.
  destruct (len (BriefFile order) >? 0)%Z;
    repeat (apply lookup_insert_Some in H as [[<- _]|[_ H]];
            [rewrite !elem_of_cons; tauto|]);
    now rewrite lookup_empty in H.
Qed.

(** Distinct labels get distinct paths, whatever identifiers are drawn. *)
Lemma tempPath_labels_inj name name' :
  name ∈ labels -> name' ∈ labels ->
  tempPath sc name = tempPath sc name' -> name = name'.
Proof.
  unfold labels, tempPath. rewrite !elem_of_cons, !elem_of_nil.
  intros [->|[->|[->|[->|[]]]]] [->|[->|[->|[->|[]]]]] H; try reflexivity;
    repeat first [rewrite append_nil_l in H | rewrite append_cons in H];
    discriminate H.
Qed.

(** What a successful run of the loop leaves: the visited entries are
    recorded and stored, everything else is as before. *)
Lemma saveLoop_read_back visit :
  forall filePaths w w1 filePaths1,
    saveLoop lib sc visit filePaths w = (w1, Ok filePaths1) ->
    NoDup visit.*1 ->
    (forall n n', n ∈ visit.*1 -> n' ∈ visit.*1 ->
                  tempPath sc n = tempPath sc n' -> n = n') ->
    (forall n c, (n, c) ∈ visit ->
                 filePaths1 !! n = Some (tempPath sc n)
                 /\ files w1 !! tempPath sc n = Some c)
    /\ (forall n, n ∉ visit.*1 -> filePaths1 !! n = filePaths !! n)
    /\ (forall p, p ∉ (tempPath sc <$> visit.*1) -> files w1 !! p = files w !! p)
    /\ timers w1 = (timers w ++ armed sc visit)%list.
Proof.
  induction visit as [|[name content] visit IH]; intros filePaths w w1 filePaths1 H Hnd Hinj.
  - cbn in H. inversion H; subst. split; [|split; [|split]].
    + intros n c Hin. now apply elem_of_nil in Hin.
    + reflexivity.
    + reflexivity.
    + cbn. now rewrite app_nil_r.
  - cbn [saveLoop] in H.
    destruct (SaveTempFile lib sc w content name) as [w2 [info|e]] eqn:E; [|discriminate].
    apply SaveTempFile_success in E as [-> Hpath]. rewrite Hpath in H.
    rewrite fmap_cons in Hnd, Hinj. cbn [fst] in Hnd, Hinj.
    apply NoDup_cons in Hnd as [Hfresh Hnd].
    apply IH in H as (Hvis & Hkeep & Hfiles & Htimers); [|exact Hnd|].
    2:{ intros n n' Hn Hn'. apply Hinj; apply elem_of_cons; now right. }
    assert (Hpfresh : tempPath sc name ∉ (tempPath sc <$> visit.*1)).
    { intros Hin. apply list_elem_of_fmap in Hin as (n & Heq & Hn).
      apply Hfresh. rewrite (Hinj name n); [exact Hn| | |exact Heq];
        apply elem_of_cons; [now left | now right]. }
    split; [|split; [|split]].
    + intros n c Hin. apply elem_of_cons in Hin as [[= -> ->]|Hin]; [|now apply Hvis].
      rewrite (Hkeep name Hfresh), (Hfiles _ Hpfresh). cbn.
      now rewrite !lookup_insert_eq.
    + intros n Hn. rewrite fmap_cons in Hn. cbn [fst] in Hn.
      rewrite not_elem_of_cons in Hn. destruct Hn as [Hne Hn].
      rewrite (Hkeep n Hn). now rewrite lookup_insert_ne by congruence.
    + intros p Hp. rewrite !fmap_cons in Hp. cbn [fst] in Hp.
      rewrite not_elem_of_cons in Hp. destruct Hp as [Hne Hp].
      rewrite (Hfiles p Hp). cbn. now rewrite lookup_insert_ne by congruence.
    + rewrite Htimers. cbn. now rewrite <- app_assoc.
Qed.

Lemma range_order_NoDup {V} (m : gmap string V) visit :
  range_order m visit -> NoDup visit.*1.
Proof. unfold range_order. intros ->. apply NoDup_fst_map_to_list. Qed.

Lemma range_order_lookup {V} (m : gmap string V) visit k v :
  range_order m visit -> (k, v) ∈ visit <-> m !! k = Some v.
Proof. unfold range_order. intros ->. apply elem_of_map_to_list. Qed.

(** [saveOrderFiles], when it succeeds. *)
Lemma saveOrderFiles_success w order w1 filePaths :
  Sched_ok sc ->
  saveOrderFiles lib sc w order = (w1, Ok filePaths) ->
  (forall name content,
      orderFiles order !! name = Some content ->
      filePaths !! name = Some (tempPath sc name)
      /\ files w1 !! tempPath sc name = Some content)
  /\ (forall name, orderFiles order !! name = None -> filePaths !! name = None)
  /\ timers w1 = (timers w ++ armed sc (rangeFiles sc (orderFiles order)))%list.
Proof.
  intros Hsc H. unfold saveOrderFiles in H.
  pose proof (rangeFiles_ok sc Hsc (orderFiles order)) as Hr.
  apply saveLoop_read_back in H as (Hvis & Hkeep & _ & Htimers).
  - split; [|split; [|exact Htimers]].
    + intros name content Hl. apply Hvis. now apply (range_order_lookup _ _ _ _ Hr).
    + intros name Hl. rewrite Hkeep; [apply lookup_empty|].
      intros Hin. apply list_elem_of_fmap in Hin as ([n c] & -> & Hin).
      apply (range_order_lookup _ _ _ _ Hr) in Hin. cbn in Hl. congruence.
  - exact (range_order_NoDup _ _ Hr).
  - intros n n' Hn Hn'. apply tempPath_labels_inj.
    + apply list_elem_of_fmap in Hn as ([n0 c] & -> & Hin).
      apply (range_order_lookup _ _ _ _ Hr) in Hin. exact (orderFiles_labels _ _ _ Hin).
    + apply list_elem_of_fmap in Hn' as ([n0 c] & -> & Hin).
      apply (range_order_lookup _ _ _ _ Hr) in Hin. exact (orderFiles_labels _ _ _ Hin).
Qed.

Lemma orderFiles_invoice order :
  orderFiles order !! "invoice" = Some (InvoicePdf order).
Proof.
  unfold orderFiles. destruct (len (BriefFile order) >? 0)%Z;
    rewrite ?(lookup_insert_ne _ "brief") by discriminate;
    rewrite lookup_insert_ne by discriminate; apply lookup_insert_eq.
Qed.

Lemma orderFiles_contract order :
  orderFiles order !! "contract" = Some (ContractPdf order).
Proof.
  unfold orderFiles. destruct (len (BriefFile order) >? 0)%Z;
    rewrite ?(lookup_insert_ne _ "brief") by discriminate;
    rewrite !lookup_insert_ne by discriminate; apply lookup_insert_eq.
Qed.

Lemma orderFiles_brief order :
  orderFiles order !! "brief"
  = if (len (BriefFile order) >? 0)%Z then Some (BriefFile order) else None.
Proof.
  unfold orderFiles. destruct (len (BriefFile order) >? 0)%Z.
  - apply lookup_insert_eq.
  - now rewrite !lookup_insert_ne by discriminate.
Qed.


End ReadBackFacts.





(** X4: when saveOrderFiles succeeds, the map it returns records a path
    for the specification, the invoice and the contract, and for the
    brief exactly when the brief is not empty; each recorded path is the
    one SaveTempFile chose for that label, and reading it yields the
    bytes of the corresponding field of the order, so no file of the
    request has overwritten another. *)
Theorem saveOrderFiles_read_back :
  forall (lib : Lib) (sc : Sched) (w : World) (order : ProjectOrder)
         (w1 : World) (filePaths : gmap string string),
    Sched_ok sc ->
    saveOrderFiles lib sc w order = (w1, Ok filePaths) ->
    (forall name,
        filePaths !! name
        = if bool_decide (name ∈ ["specification"; "invoice"; "contract"])
          then Some (tempPath sc name)
          else if bool_decide (name = "brief" /\ BriefFile order <> [])
          then Some (tempPath sc name) else None)
    /\ ReadFile w1 (tempPath sc "specification") = Some (SpecificationPdf order)
    /\ ReadFile w1 (tempPath sc "invoice") = Some (InvoicePdf order)
    /\ ReadFile w1 (tempPath sc "contract") = Some (ContractPdf order)
    /\ (BriefFile order <> [] ->
        ReadFile w1 (tempPath sc "brief") = Some (BriefFile order)).
Proof.
  intros lib sc w order w1 filePaths Hsc Hsave.
  destruct (saveOrderFiles_success lib sc w order w1 filePaths Hsc Hsave)
    as (Hsome & Hnone & _).
  assert (Hbrief : (len (BriefFile order) >? 0)%Z = true <-> BriefFile order <> []).
  { unfold len. destruct (BriefFile order); cbn; [split; [discriminate | congruence]|].
    split; [discriminate | intros _; apply Z.gtb_lt; lia]. }
  split; [|split; [|split; [|split]]].
  - intros name. case_bool_decide as H3.
    + rewrite !elem_of_cons, elem_of_nil in H3.
      destruct H3 as [->|[->|[->|[]]]].
      * apply (Hsome _ _ (orderFiles_specification order)).
      * apply (Hsome _ _ (orderFiles_invoice order)).
      * apply (Hsome _ _ (orderFiles_contract order)).
    + case_bool_decide as Hb.
      * destruct Hb as [-> Hb]. apply Hbrief in Hb.
        pose proof (orderFiles_brief order) as Hl. rewrite Hb in Hl.
        apply (Hsome _ _ Hl).
      * apply Hnone. destruct (orderFiles order !! name) as [c|] eqn:Hl; [|reflexivity].
        exfalso. pose proof (orderFiles_labels _ _ _ Hl) as Hin.
        unfold labels in Hin. rewrite !elem_of_cons, elem_of_nil in Hin.
        destruct Hin as [->|[->|[->|[->|[]]]]];
          try (apply H3; rewrite !elem_of_cons; tauto).
        apply Hb. split; [reflexivity|]. apply Hbrief.
        rewrite orderFiles_brief in Hl. now destruct (len (BriefFile order) >? 0)%Z.
  - apply (Hsome _ _ (orderFiles_specification order)).
  - apply (Hsome _ _ (orderFiles_invoice order)).
  - apply (Hsome _ _ (orderFiles_contract order)).
  - intros Hb. apply Hbrief in Hb.
    pose proof (orderFiles_brief order) as Hl. rewrite Hb in Hl.
    apply (Hsome _ _ Hl).
Qed.

Lemma saveOrderFiles_read_back_witness :
  ReadFile (saveOrderFiles Sample.lib Sample.sched Sample.world Sample.order).1
           "app/storage/temp/invoice_id-invoice.pdf"
  = Some (Sample.pdf "invoice").
Proof.
  destruct (saveOrderFiles_read_back Sample.lib Sample.sched Sample.world Sample.order
              _ _ Sample_sched_ok Sample_saved) as (_ & _ & H & _).
  exact H.
Defined.



(* ===================================================================== *)
(** * More about language negotiation, templates and escaping *)
(* ===================================================================== *)

(** X6: the negotiated language is one of the tenant's supported
    languages whenever the tenant has any, and negotiating again from
    the result changes nothing. *)
Theorem negotiateLanguage_supported :
  forall (service : ServiceConfig) (lang : string),
    (SupportedLangs service <> [] ->
     In (negotiateLanguage service lang) (SupportedLangs service))
    /\ negotiateLanguage service (negotiateLanguage service lang)
       = negotiateLanguage service lang.
Proof.
  intros service lang. unfold negotiateLanguage.
  destruct (Contains (SupportedLangs service) lang) eqn:E; cbn [negb].
  - split; [intros _; now apply Contains_In | now rewrite E].
  - destruct (SupportedLangs service) as [|first rest] eqn:Hs.
    + split; [congruence | reflexivity].
    + split; [intros _; now left|].
      cbn [Contains]. now rewrite String.eqb_refl.
Qed.

Section RenderFacts.

Lemma renderStep_fillStep result kv : renderStep result kv = fillStep result kv.
Proof. unfold renderStep. now rewrite fillStep_Sprint. Qed.

Lemma countReserved_le s : (countReserved s <= String.length s)%nat.
Proof.
  induction s as [|c s IH]; [reflexivity|].
  cbn [countReserved String.length]. destruct (reserved c); lia.
Qed.

Lemma length_append s t :
  String.length (s ++ t) = (String.length s + String.length t)%nat.
Proof.
  induction s as [|c s IH]; [reflexivity|].
  rewrite append_cons. cbn [String.length]. now rewrite IH.
Qed.

Lemma escapeEach_length s :
  String.length (escapeEach s) = (String.length s + countReserved s)%nat.
Proof.
  induction s as [|c s IH]; [reflexivity|].
  unfold escapeEach in *. cbn [flatMap countReserved String.length].
  rewrite length_append, IH. unfold escapeByte.
  destruct (reserved c); cbn [String.length]; lia.
Qed.

(** Escaped text never starts with a reserved byte. *)
Lemma escapeEach_head s c rest :
  escapeEach s = String c rest -> reserved c = false.
Proof.
  destruct s as [|d s]; [discriminate|].
  unfold escapeEach. cbn [flatMap]. unfold escapeByte.
  destruct (reserved d) eqn:Hd; rewrite !append_cons, append_nil_l;
    intros [= <- _]; [reflexivity | exact Hd].
Qed.

Lemma unescape_pair b c rest :
  unescape (String b (String c rest))
  = if Ascii.eqb b backslash && reserved c
    then String c (unescape rest) else String b (unescape (String c rest)).
Proof. reflexivity. Qed.

Lemma unescape_escapeEach s : unescape (escapeEach s) = s.
Proof.
  induction s as [|c s IH]; [reflexivity|].
  unfold escapeEach in *. cbn [flatMap]. unfold escapeByte at 1.
  destruct (reserved c) eqn:Hc; rewrite !append_cons, append_nil_l.
  - rewrite unescape_pair, Ascii.eqb_refl, Hc. cbn [andb]. now rewrite IH.
  - destruct (flatMap _ s) as [|d rest] eqn:E.
    + cbn in IH. now rewrite <- IH.
    + rewrite unescape_pair, (escapeEach_head s d rest E), andb_false_r.
      now rewrite IH.
Qed.

End RenderFacts.

(** X7: renderTemplate (telegram.go) and FillTemplate (utils.go) compute
    the same text for every template, every map and every visiting
    order: the chat body and the email parts are filled in the same
    way. *)
Theorem renderTemplate_is_FillTemplate :
  forall (visit : list (string * Value)) (template : string),
    renderTemplate visit template = FillTemplate visit template.
Proof.
  intros visit. unfold renderTemplate, FillTemplate.
  induction visit as [|kv visit IH]; intros template; [reflexivity|].
  cbn [fold_left]. now rewrite renderStep_fillStep, IH.
Qed.

(** X8: EscapeMarkdownV2 lengthens a text by exactly the number of its
    reserved bytes, so by at most its own length; hence a rendered chat
    message of at most 2048 bytes is never refused as too long, and a
    rendered message of more than 4096 bytes always is. *)
Theorem EscapeMarkdownV2_length :
  forall (text : string),
    String.length (EscapeMarkdownV2 text)
    = (String.length text + countReserved text)%nat
    /\ (String.length text <= String.length (EscapeMarkdownV2 text)
        <= 2 * String.length text)%nat
    /\ (forall out w service lang visit template,
          Configured (Telegram service) = true ->
          getLocalizedTemplate w service lang = Ok template ->
          renderTemplate visit template = text ->
          ((String.length text <= 2048)%nat ->
           forall n, (SendTelegramNotification out w service lang visit).2
                     <> Some (ErrMessageTooLong n))
          /\ ((String.length text > 4096)%nat ->
              exists n, SendTelegramNotification out w service lang visit
                        = (w, Some (ErrMessageTooLong n)))).
Proof.
  intros text.
  assert (Hlen : String.length (EscapeMarkdownV2 text)
                 = (String.length text + countReserved text)%nat).
  { rewrite EscapeMarkdownV2_escapeEach. apply escapeEach_length. }
  pose proof (countReserved_le text) as Hle.
  split; [exact Hlen|]. split; [lia|].
  intros out w service lang visit template Hc Ht Hr.
  pose proof (SendTelegramNotification_rendered out w service lang visit template Hc Ht) as E.
  cbv zeta in E. rewrite Hr in E. rewrite E. split.
  - intros Hshort n.
    destruct (_ >? _)%Z eqn:Hgt; [unfold maxMessageLength in Hgt; lia|].
    unfold sendTelegramRequest.
    destruct (telegramReply out _ _ _) as [| | | |[] ? ?]; cbn; discriminate.
  - intros Hlong.
    destruct (_ >? _)%Z eqn:Hgt; [eauto | unfold maxMessageLength in Hgt; lia].
Qed.

(** X9: escaping loses nothing: dropping the backslash in front of each
    reserved byte gives the text back, so two different texts are never
    escaped to the same message. *)
Theorem EscapeMarkdownV2_injective :
  forall (s t : string),
    unescape (EscapeMarkdownV2 s) = s
    /\ (EscapeMarkdownV2 s = EscapeMarkdownV2 t -> s = t).
Proof.
  intros s t. split.
  - rewrite EscapeMarkdownV2_escapeEach. apply unescape_escapeEach.
  - intros H. apply (f_equal unescape) in H.
    now rewrite !EscapeMarkdownV2_escapeEach, !unescape_escapeEach in H.
Qed.

(** X10: a language for which the tenant has no in-memory chat template
    gets the template of the tenant's first supported language, and with
    no supported language at all the lookup fails with the
    invalid-template error. *)
Theorem getLocalizedTemplate_falls_back_to_first_language :
  forall (w : World) (service : ServiceConfig) (lang : string),
    TelegramTemplates service !! lang = None ->
    (SupportedLangs service = [] ->
     getLocalizedTemplate w service lang = Err ErrInvalidTemplate)
    /\ (forall first rest,
          SupportedLangs service = first :: rest ->
          getLocalizedTemplate w service lang = getLocalizedTemplate w service first).
Proof.
  intros w service lang Hnone. unfold getLocalizedTemplate, templateLang.
  rewrite Hnone. split.
  - intros ->. reflexivity.
  - intros first rest ->.
    now destruct (TelegramTemplates service !! first).
Qed.

Lemma getLocalizedTemplate_falls_back_to_first_language_witness :
  getLocalizedTemplate Sample.disk Sample.fileBot "de"
  = getLocalizedTemplate Sample.disk Sample.fileBot "en".
Proof.
  destruct (getLocalizedTemplate_falls_back_to_first_language
              Sample.disk Sample.fileBot "de" eq_refl) as [_ H].
  exact (H "en" [] eq_refl).
Defined.


(* ===================================================================== *)
(** * What the order handler sends *)
(* ===================================================================== *)

Section TrafficFacts.

Variable lib : Lib.
Variable sc : Sched.
Variable out : Outside.

Lemma wire_noted {E} (p : World * E) (f : E -> Event) :
  wire (let '(w, err) := p in note (f err) w) = wire p.1.
Proof. now destruct p. Qed.

Lemma SendOrderEmail_wire w service subject body recipient attachments :
  wire (SendOrderEmail lib out w service subject body recipient attachments).1
  = (wire w
     ++ if ParseAddressOk lib recipient
        then [SmtpMail (Host (SMTP service) ++ ":" ++ Port (SMTP service))
                       (User (SMTP service), Password (SMTP service), Host (SMTP service))
                       (From (SMTP service)) (recipientsOf service recipient)
                       (mimeMessage lib service subject body recipient attachments)]
        else [])%list.
Proof.
  unfold SendOrderEmail, recipientsOf.
  destruct (ParseAddressOk lib recipient); cbn [negb]; [|now rewrite app_nil_r].
  destruct (String.eqb (Admin (SMTP service)) ""); cbn [negb];
    destruct (smtpFails out _ _ _); reflexivity.
Qed.

Lemma SendTelegramNotification_wire w service lang visit :
  exists posts,
    wire (SendTelegramNotification out w service lang visit).1 = (wire w ++ posts)%list
    /\ (posts = []
        \/ Configured (Telegram service) = true
           /\ exists text,
                posts = [TelegramPost (BotToken (Telegram service))
                                      (ChatID (Telegram service)) text]
                /\ (String.length text <= 4096)%nat).
Proof.
  unfold SendTelegramNotification.
  destruct (Configured (Telegram service)) eqn:Hc; cbn [negb];
    [|exists []; rewrite app_nil_r; auto].
  destruct (getLocalizedTemplate w service lang) as [template|e];
    [|exists []; rewrite app_nil_r; auto].
  cbv zeta. destruct (_ >? _)%Z eqn:Hgt; [exists []; rewrite app_nil_r; auto|].
  eexists. split.
  - instantiate (1 := [TelegramPost _ _ (EscapeMarkdownV2 (renderTemplate visit template))]).
    unfold sendTelegramRequest.
    destruct (telegramReply out _ _ _) as [| | | |[] ? ?]; reflexivity.
  - right. split; [reflexivity|]. eexists. split; [reflexivity|].
    unfold maxMessageLength in Hgt. lia.
Qed.

Lemma dispatch_wire w1 r order serviceName lang service filePaths :
  exists mails posts,
    wire (dispatch lib sc out w1 r order serviceName lang service filePaths)
    = (wire w1 ++ mails ++ posts)%list
    /\ (mails = []
        \/ ParseAddressOk lib (ContactInfo order) = true
           /\ exists msg,
                mails = [SmtpMail (Host (SMTP service) ++ ":" ++ Port (SMTP service))
                           (User (SMTP service), Password (SMTP service), Host (SMTP service))
                           (From (SMTP service))
                           (recipientsOf service (ContactInfo order)) msg])
    /\ (posts = []
        \/ Configured (Telegram service) = true
           /\ exists text,
                posts = [TelegramPost (BotToken (Telegram service))
                                      (ChatID (Telegram service)) text]
                /\ (String.length text <= 4096)%nat).
Proof.
  unfold dispatch.
  set (data := templateData order lang service).
  set (subject := emailSubject sc w1 service lang data).
  set (body := emailBody sc w1 service lang data).
  set (w2 := match PrepareAttachments w1 (rangePaths sc 1 filePaths) with
             | Some attachments => _ | None => w1 end).
  assert (H2 : exists mails,
             wire w2 = (wire w1 ++ mails)%list
             /\ (mails = []
                 \/ ParseAddressOk lib (ContactInfo order) = true
                    /\ exists msg,
                         mails = [SmtpMail (Host (SMTP service) ++ ":" ++ Port (SMTP service))
                                    (User (SMTP service), Password (SMTP service),
                                     Host (SMTP service))
                                    (From (SMTP service))
                                    (recipientsOf service (ContactInfo order)) msg])).
  { subst w2. destruct (PrepareAttachments w1 _) as [attachments|];
      [|exists []; rewrite app_nil_r; auto].
    rewrite (wire_noted _ (EmailCalled service subject body (ContactInfo order) attachments)).
    rewrite SendOrderEmail_wire.
    destruct (ParseAddressOk lib (ContactInfo order));
      [eexists; split; [reflexivity | right; split; [reflexivity | eauto]]
      | exists []; auto]. }
  destruct H2 as (mails & Hw2 & Hmails).
  destruct (SendTelegramNotification_wire w2 service lang (rangeData sc 2 data))
    as (posts & Hw3 & Hposts).
  exists mails, posts. split; [|split; assumption].
  cbv zeta.
  pose proof (wire_noted (SendTelegramNotification out w2 service lang (rangeData sc 2 data))
                (TelegramCalled service lang data)) as Hn.
  set (w3 := let '(w, err) := SendTelegramNotification out w2 service lang (rangeData sc 2 data) in
             note (TelegramCalled service lang data err) w) in *.
  unfold logOrderToDB.
  destruct (dbRejects out _); cbn [wire note insert_row];
    rewrite Hn, Hw3, Hw2; now rewrite app_assoc.
Qed.

End TrafficFacts.

Section SentFacts.

Variables (lib : Lib) (sc : Sched) (out : Outside).

Lemma files_noted {E} (p : World * E) (f : E -> Event) :
  files (let '(w, err) := p in note (f err) w) = files p.1.
Proof. now destruct p. Qed.

Lemma SendOrderEmail_sent w service subject body recipient attachments :
  wire (SendOrderEmail lib out w service subject body recipient attachments).1
  = (wire w ++ mailOf lib service subject body recipient attachments)%list.
Proof. apply SendOrderEmail_wire. Qed.

Lemma SendTelegramNotification_posted w service lang visit :
  wire (SendTelegramNotification out w service lang visit).1
  = (wire w ++ postOf w service lang visit)%list.
Proof.
  unfold SendTelegramNotification, postOf.
  destruct (Configured (Telegram service)); cbn [negb]; [|now rewrite app_nil_r].
  destruct (getLocalizedTemplate w service lang) as [template|e]; [|now rewrite app_nil_r].
  cbv zeta. destruct (_ >? _)%Z; [now rewrite app_nil_r|].
  unfold sendTelegramRequest.
  destruct (telegramReply out _ _ _) as [| | | |[] ? ?]; reflexivity.
Qed.

Lemma postOf_files w w' service lang visit :
  files w' = files w -> postOf w' service lang visit = postOf w service lang visit.
Proof.
  intros H. unfold postOf. now rewrite (getLocalizedTemplate_files w w' service lang H).
Qed.

(** What [dispatch] sends when the attachments were prepared. *)
Lemma dispatch_sent w1 r order serviceName lang service filePaths attachments :
  PrepareAttachments w1 (rangePaths sc 1 filePaths) = Some attachments ->
  wire (dispatch lib sc out w1 r order serviceName lang service filePaths)
  = (wire w1
     ++ mailOf lib service
          (emailSubject sc w1 service lang (templateData order lang service))
          (emailBody sc w1 service lang (templateData order lang service))
          (ContactInfo order) attachments
     ++ postOf w1 service lang (rangeData sc 2 (templateData order lang service)))%list.
Proof.
  intros Hatt. unfold dispatch. rewrite Hatt.
  set (data := templateData order lang service).
  set (subject := emailSubject sc w1 service lang data).
  set (body := emailBody sc w1 service lang data).
  cbv zeta.
  set (w2 := let '(w, err) := SendOrderEmail lib out w1 service subject body
                                             (ContactInfo order) attachments in
             note (EmailCalled service subject body (ContactInfo order) attachments err) w).
  assert (Hw2 : wire w2
                = (wire w1 ++ mailOf lib service subject body (ContactInfo order)
                                attachments)%list).
  { subst w2.
    rewrite (wire_noted _ (EmailCalled service subject body (ContactInfo order) attachments)).
    apply SendOrderEmail_sent. }
  assert (Hf2 : files w2 = files w1).
  { subst w2.
    rewrite (files_noted _ (EmailCalled service subject body (ContactInfo order) attachments)).
    apply (SendOrderEmail_disk lib out w1 service subject body (ContactInfo order)
             attachments). }
  pose proof (wire_noted (SendTelegramNotification out w2 service lang (rangeData sc 2 data))
                (TelegramCalled service lang data)) as Hn.
  set (w3 := let '(w, err) := SendTelegramNotification out w2 service lang
                                                       (rangeData sc 2 data) in
             note (TelegramCalled service lang data err) w) in *.
  unfold logOrderToDB.
  destruct (dbRejects out _); cbn [wire note insert_row];
    rewrite Hn, SendTelegramNotification_posted, Hw2,
            (postOf_files w1 w2 service lang _ Hf2);
    now rewrite app_assoc.
Qed.

End SentFacts.

(** C1, amended: for a well-formed order for a resolved tenant whose
    files were saved, the handler hands the mail to the relay (when the
    contact address parses) and then posts the chat message (when the
    chat channel is configured, a template is found and the text is
    within the limit); what is sent on one channel is fixed by the
    request and the saved files and does not depend on how the relay,
    the bot API or the database answer, so no failure of one channel
    prevents or alters the other. Whatever the channels and the database
    answer, the response is 200 with status "success"; the audit INSERT
    is issued and its error discarded, so the row is written exactly
    when the database accepts it. *)
Theorem HandleProjectOrder_channels_independent :
  forall (lib : Lib) (sc : Sched) (out : Outside)
         (services : gmap string ServiceConfig) (w : World) (r : Request)
         (order : ProjectOrder) (service : ServiceConfig)
         (w1 : World) (filePaths : gmap string string),
    Sched_ok sc ->
    accepted lib services r order service ->
    saveOrderFiles lib sc w order = (w1, Ok filePaths) ->
    let serviceName := HeaderGet r "X-Service-Name" in
    let lang := negotiateLanguage service (requestedLanguage order r) in
    let data := templateData order lang service in
    let subject := emailSubject sc w1 service lang data in
    let body := emailBody sc w1 service lang data in
    let row := orderRow lib sc r serviceName lang order in
    let w' := (HandleProjectOrder lib sc out services w r).1 in
    let resp := (HandleProjectOrder lib sc out services w r).2 in
    exists attachments,
      PrepareAttachments w1 (rangePaths sc 1 filePaths) = Some attachments
      /\ code resp = 200%Z
      /\ payload resp
         = <["status" := "success"]> (<["service" := serviceName]> (<["lang" := lang]> ∅))
      /\ wire w'
         = (wire w
            ++ mailOf lib service subject body (ContactInfo order) attachments
            ++ postOf w1 service lang (rangeData sc 2 data))%list
      /\ project_orders w'
         = (project_orders w ++ (if dbRejects out row then [] else [row]))%list.
Proof.
  intros lib sc out services w r order service w1 filePaths Hsc Hacc Hsave.
  cbv zeta.
  destruct (PrepareAttachments_after_save lib sc w order w1 filePaths Hsc Hsave)
    as [attachments Hatt].
  exists attachments. split; [exact Hatt|].
  destruct (HandleProjectOrder_records lib sc out services w r order service w1 filePaths
              attachments Hacc Hsave Hatt) as [_ Hrows].
  rewrite (HandleProjectOrder_accepted lib sc out services w r order service w1
             filePaths Hacc Hsave) in *.
  cbn [fst snd] in *.
  split; [reflexivity|]. split; [reflexivity|]. split; [|exact Hrows].
  destruct (removeAll_same_records (rangePaths sc 2 filePaths)
              (dispatch lib sc out w1 r order (HeaderGet r "X-Service-Name")
                 (negotiateLanguage service (requestedLanguage order r)) service filePaths))
    as (_ & Hc & _).
  unfold cleanupFiles. rewrite Hc.
  rewrite (dispatch_sent lib sc out w1 r order _ _ service filePaths attachments Hatt).
  destruct (saveOrderFiles_same_records lib sc w order w1 _ Hsave) as (_ & -> & _).
  reflexivity.
Qed.

(** The mail relay is down and the tenant has no chat channel: the mail
    is handed to the relay all the same, nothing is posted, the audit
    row is written and the response is 200. *)
Lemma HandleProjectOrder_channels_independent_witness :
  code (HandleProjectOrder Sample.lib Sample.sched Sample.broken Sample.services
          Sample.world Sample.request).2 = 200%Z
  /\ List.length (wire (HandleProjectOrder Sample.lib Sample.sched Sample.broken
                          Sample.services Sample.world Sample.request).1) = 1%nat
  /\ List.length (project_orders
                    (HandleProjectOrder Sample.lib Sample.sched Sample.broken
                       Sample.services Sample.world Sample.request).1) = 1%nat.
Proof.
  destruct (HandleProjectOrder_channels_independent
              Sample.lib Sample.sched Sample.broken Sample.services Sample.world
              Sample.request Sample.order Sample.shop _ _
              Sample_sched_ok Sample_accepted Sample_saved)
    as (attachments & _ & Hcode & _ & Hwire & Hrows).
  split; [exact Hcode|]. split; [rewrite Hwire | rewrite Hrows]; reflexivity.
Defined.

(** C1, as stated, fails: when the database refuses the row, the order
    is accepted, its files are saved, both channels are served and the
    response is 200 with status "success", but no audit row is
    written. *)
Lemma HandleProjectOrder_success_without_audit_row :
  accepted Sample.lib Sample.services Sample.request Sample.order Sample.shop
  /\ (exists filePaths,
        (saveOrderFiles Sample.lib Sample.sched Sample.world Sample.order).2 = Ok filePaths)
  /\ code (HandleProjectOrder Sample.lib Sample.sched Sample.refusing Sample.services
             Sample.world Sample.request).2 = 200%Z
  /\ payload (HandleProjectOrder Sample.lib Sample.sched Sample.refusing Sample.services
                Sample.world Sample.request).2 !! "status" = Some "success"
  /\ project_orders (HandleProjectOrder Sample.lib Sample.sched Sample.refusing
                       Sample.services Sample.world Sample.request).1 = [].
Proof.
  split; [split; (discriminate || reflexivity)|].
  split; [eexists; vm_compute; reflexivity|].
  split; [vm_compute; reflexivity|]. split; vm_compute; reflexivity.
Qed.

(** X11: whatever the request and whatever the outside world replies,
    HandleProjectOrder sends at most one mail and then at most one chat
    post, in that order and nothing else: the mail goes through the
    tenant's relay to the order's contact address (and to the tenant's
    administrator when one is set), the post goes to the tenant's chat
    and is at most 4096 bytes long; a request answered with another
    status than 200 causes no traffic at all. *)
Theorem HandleProjectOrder_traffic :
  forall (lib : Lib) (sc : Sched) (out : Outside)
         (services : gmap string ServiceConfig) (w : World) (r : Request),
    exists mails posts,
      wire (HandleProjectOrder lib sc out services w r).1 = (wire w ++ mails ++ posts)%list
      /\ (mails = []
          \/ exists order service msg,
               accepted lib services r order service
               /\ ParseAddressOk lib (ContactInfo order) = true
               /\ mails = [SmtpMail (Host (SMTP service) ++ ":" ++ Port (SMTP service))
                             (User (SMTP service), Password (SMTP service),
                              Host (SMTP service))
                             (From (SMTP service))
                             (recipientsOf service (ContactInfo order)) msg])
      /\ (posts = []
          \/ exists order service text,
               accepted lib services r order service
               /\ Configured (Telegram service) = true
               /\ posts = [TelegramPost (BotToken (Telegram service))
                                        (ChatID (Telegram service)) text]
               /\ (String.length text <= 4096)%nat)
      /\ (code (HandleProjectOrder lib sc out services w r).2 <> 200%Z ->
          mails = [] /\ posts = []).
Proof.
  intros lib sc out services w r.
  destruct (accepted_dec lib services r) as [(order & service & Hacc)|Hno].
  - rewrite (HandleProjectOrder_after_save lib sc out services w r order service Hacc).
    destruct (saveOrderFiles lib sc w order) as [w1 [filePaths|e]] eqn:Hsave.
    + destruct (dispatch_wire lib sc out w1 r order (HeaderGet r "X-Service-Name")
                  (negotiateLanguage service (requestedLanguage order r)) service filePaths)
        as (mails & posts & Hw & Hmails & Hposts).
      exists mails, posts. cbn [fst snd].
      destruct (saveOrderFiles_same_records lib sc w order w1 _ Hsave) as (_ & Hw1 & _).
      destruct (removeAll_same_records (rangePaths sc 2 filePaths)
                  (dispatch lib sc out w1 r order (HeaderGet r "X-Service-Name")
                     (negotiateLanguage service (requestedLanguage order r)) service filePaths))
        as (_ & Hc & _).
      split; [unfold cleanupFiles; now rewrite Hc, Hw, Hw1|].
      split; [destruct Hmails as [->|(Hp & msg & ->)]; [now left|right; eauto 10]|].
      split; [destruct Hposts as [->|(Hp & text & -> & Hlen)]; [now left|right; eauto 10]|].
      cbn [code respondWithJSON]. congruence.
    + exists [], []. cbn [fst snd].
      destruct (saveOrderFiles_same_records lib sc w order w1 _ Hsave) as (_ & Hw1 & _).
      split; [now rewrite Hw1, !app_nil_r | auto].
  - destruct (HandleProjectOrder_not_accepted lib sc out services w r Hno) as [message ->].
    exists [], []. cbn [fst snd]. split; [now rewrite !app_nil_r | auto].
Qed.

(** X12: SendTelegramNotification reports success exactly when the chat
    channel is configured, a template is found, the escaped rendering is
    at most 4096 bytes long and the bot API answers that very message
    with ok; when the channel is not configured or no template is found
    nothing is sent and the world is left as it was. *)
Theorem SendTelegramNotification_success_iff :
  forall (out : Outside) (w : World) (service : ServiceConfig) (lang : string)
         (visit : list (string * Value)),
    ((SendTelegramNotification out w service lang visit).2 = None
     <-> exists template description error_code,
           Configured (Telegram service) = true
           /\ getLocalizedTemplate w service lang = Ok template
           /\ (String.length (EscapeMarkdownV2 (renderTemplate visit template)) <= 4096)%nat
           /\ telegramReply out (BotToken (Telegram service)) (ChatID (Telegram service))
                (EscapeMarkdownV2 (renderTemplate visit template))
              = Reply true description error_code)
    /\ (Configured (Telegram service) = false
        \/ (exists e, getLocalizedTemplate w service lang = Err e) ->
        (SendTelegramNotification out w service lang visit).1 = w).
Proof.
  intros out w service lang visit. unfold SendTelegramNotification.
  destruct (Configured (Telegram service)) eqn:Hc; cbn [negb].
  2:{ split; [|reflexivity]. split; [discriminate|].
      intros (? & ? & ? & ? & _); discriminate. }
  destruct (getLocalizedTemplate w service lang) as [template|e] eqn:Ht.
  2:{ split; [|reflexivity]. split; [discriminate|].
      intros (? & ? & ? & _ & ? & _); discriminate. }
  split; [|intros [?|[e ?]]; discriminate].
  cbv zeta. unfold sendTelegramRequest.
  destruct (_ >? _)%Z eqn:Hgt.
  { split; [discriminate|].
    intros (t & d & c & _ & [= <-] & Hlen & _). unfold maxMessageLength in Hgt. lia. }
  split.
  - intros H. exists template.
    destruct (telegramReply out _ _ _) as [| | | |[] d c] eqn:Hr; try discriminate.
    exists d, c. repeat split. unfold maxMessageLength in Hgt. lia.
  - intros (t & d & c & _ & [= <-] & _ & Hr). now rewrite Hr.
Qed.

(** X13: SendOrderEmail sends nothing when the recipient address does
    not parse; otherwise it hands exactly one message to the relay,
    addressed to the recipient first and to the administrator exactly
    when one is configured, whether or not the relay then accepts it,
    and it reports success exactly when the address parses and the relay
    accepts. *)
Theorem SendOrderEmail_delivery :
  forall (lib : Lib) (out : Outside) (w : World) (service : ServiceConfig)
         (subject body recipient : string) (attachments : list EmailAttachment),
    (ParseAddressOk lib recipient = false ->
     SendOrderEmail lib out w service subject body recipient attachments
     = (w, Some ErrInvalidRecipient))
    /\ (ParseAddressOk lib recipient = true ->
        exists addr auth msg,
          wire (SendOrderEmail lib out w service subject body recipient attachments).1
          = (wire w ++ [SmtpMail addr auth (From (SMTP service))
                          (recipientsOf service recipient) msg])%list
          /\ ((SendOrderEmail lib out w service subject body recipient attachments).2 = None
              <-> smtpFails out addr (recipientsOf service recipient) msg = false))
    /\ hd_error (recipientsOf service recipient) = Some recipient
    /\ (Admin (SMTP service) <> "" ->
        recipientsOf service recipient = [recipient; Admin (SMTP service)])
    /\ (Admin (SMTP service) = "" -> recipientsOf service recipient = [recipient]).
Proof.
  intros lib out w service subject body recipient attachments.
  split; [|split; [|split; [|split]]].
  - intros H. unfold SendOrderEmail. now rewrite H.
  - intros H. pose proof (SendOrderEmail_wire lib out w service subject body recipient
                            attachments) as Hw.
    rewrite H in Hw. do 3 eexists. split; [exact Hw|].
    unfold SendOrderEmail, recipientsOf. rewrite H. cbn [negb].
    destruct (String.eqb (Admin (SMTP service)) ""); cbn [negb];
      destruct (smtpFails out _ _ _); cbn [snd]; split; congruence.
  - unfold recipientsOf. now destruct (String.eqb (Admin (SMTP service)) "").
  - intros H. unfold recipientsOf. apply String.eqb_neq in H. now rewrite H.
  - intros H. unfold recipientsOf. now rewrite H.
Qed.


(* ===================================================================== *)
(** * Attachments *)
(* ===================================================================== *)

Section AttachmentFacts.

Lemma readAttachments_omap w visit :
  readAttachments w visit = omap (attachmentOf w) visit.
Proof.
  induction visit as [|[label path] visit IH]; [reflexivity|].
  cbn [readAttachments omap list_omap]. unfold attachmentOf at 1. cbn [snd].
  rewrite IH. now destruct (ReadFile w path).
Qed.

Lemma readAttachments_nil w visit :
  readAttachments w visit = []
  <-> forall name path, (name, path) ∈ visit -> files w !! path = None.
Proof.
  split.
  - intros H name path Hin. destruct (files w !! path) as [content|] eqn:E; [|reflexivity].
    exfalso. apply (readAttachments_nonempty w visit name path Hin); [now rewrite E | exact H].
  - induction visit as [|[name path] visit IH]; intros H; [reflexivity|].
    cbn [readAttachments]. unfold ReadFile.
    rewrite (H name path); [|now left]. apply IH.
    intros n p Hin. apply (H n p). now right.
Qed.

Lemma substring_0_length n s :
  String.length (substring 0 n s) = Nat.min n (String.length s).
Proof.
  revert s. induction n as [|n IH]; intros [|c s]; cbn; try reflexivity.
  now rewrite IH.
Qed.

Lemma substring_split n s :
  substring 0 n s ++ substring n (String.length s - n) s = s.
Proof.
  revert s. induction n as [|n IH]; intros s.
  - destruct s as [|c s]; [reflexivity|].
    cbn [substring]. rewrite append_nil_l. rewrite Nat.sub_0_r.
    clear. change (String c s) with (String c s) at 1.
    assert (H : forall t, substring 0 (String.length t) t = t).
    { induction t as [|d t IHt]; [reflexivity|]. cbn. now rewrite IHt. }
    apply (H (String c s)).
  - destruct s as [|c s]; [reflexivity|].
    cbn [substring String.length Nat.sub]. rewrite append_cons. now rewrite IH.
Qed.

Lemma substring_rest_length n s :
  String.length (substring n (String.length s - n) s) = (String.length s - n)%nat.
Proof.
  pose proof (f_equal String.length (substring_split n s)) as H.
  rewrite length_append, substring_0_length in H. lia.
Qed.

Lemma stripBreaks_append s t : stripBreaks (s ++ t) = stripBreaks s ++ stripBreaks t.
Proof.
  induction s as [|c s IH]; [reflexivity|].
  rewrite append_cons. cbn [stripBreaks]. rewrite IH.
  destruct (isBreak c); [reflexivity | now rewrite append_cons].
Qed.

Lemma stripBreaks_id s :
  hasByte "013" s = false -> hasByte "010" s = false -> stripBreaks s = s.
Proof.
  induction s as [|c s IH]; [reflexivity|].
  cbn [hasByte stripBreaks]. intros H1 H2.
  apply orb_false_iff in H1 as [H1 H1'], H2 as [H2 H2'].
  unfold isBreak. rewrite H1, H2. cbn [orb]. now rewrite IH.
Qed.

Lemma wrapLines_length fuel :
  forall s, (String.length s <= fuel)%nat ->
            String.length (wrapLines fuel s)
            = (String.length s + 2 * ((String.length s + 75) / 76))%nat.
Proof.
  induction fuel as [|fuel IH]; intros s Hle.
  - destruct s; [reflexivity | cbn in Hle; lia].
  - destruct s as [|c s]; [reflexivity|].
    cbn [wrapLines]. set (t := String c s) in *.
    assert (Hpos : (0 < String.length t)%nat) by (subst t; cbn; lia).
    rewrite !length_append, substring_0_length.
    rewrite IH; rewrite substring_rest_length; [|lia].
    change (String.length CRLF) with 2%nat.
    generalize dependent (String.length t). intros n _ Hpos.
    pose proof (Nat.div_mod_eq (n + 75) 76) as H1.
    pose proof (Nat.mod_upper_bound (n + 75) 76 ltac:(lia)) as H2.
    pose proof (Nat.div_mod_eq (n - 76 + 75) 76) as H3.
    pose proof (Nat.mod_upper_bound (n - 76 + 75) 76 ltac:(lia)) as H4.
    lia.
Qed.

Lemma wrapLines_strip fuel :
  forall s, (String.length s <= fuel)%nat ->
            stripBreaks (wrapLines fuel s) = stripBreaks s.
Proof.
  induction fuel as [|fuel IH]; intros s Hle.
  - destruct s; [reflexivity | cbn in Hle; lia].
  - destruct s as [|c s]; [reflexivity|].
    cbn [wrapLines]. set (t := String c s) in *.
    assert (Hpos : (0 < String.length t)%nat) by (subst t; cbn; lia).
    rewrite !stripBreaks_append.
    rewrite IH by (rewrite substring_rest_length; lia).
    change (stripBreaks CRLF) with EmptyString. rewrite append_nil_l.
    rewrite <- stripBreaks_append. now rewrite substring_split.
Qed.

Lemma lastElement_segment s :
  forall cur best t,
    slashFree s = true ->
    lastElement cur best (s ++ String "/" t)
    = lastElement "" (if String.eqb (cur ++ s) "" then best else cur ++ s) t.
Proof.
  induction s as [|c s IH]; intros cur best t Hs.
  - rewrite append_nil_l. cbn [lastElement Ascii.eqb]. cbn.
    replace (cur ++ "") with cur; [reflexivity|].
    clear. induction cur as [|d cur IHc]; [reflexivity|]. rewrite append_cons. now f_equal.
  - unfold slashFree in *. cbn [hasByte] in Hs.
    apply negb_true_iff, orb_false_iff in Hs as [Hc Hs].
    rewrite append_cons. cbn [lastElement]. rewrite Hc.
    rewrite IH by now rewrite Hs.
    now rewrite !append_assoc, append_cons, append_nil_l.
Qed.

Lemma lastElement_last s :
  forall cur best,
    slashFree s = true ->
    lastElement cur best s = if String.eqb (cur ++ s) "" then best else cur ++ s.
Proof.
  induction s as [|c s IH]; intros cur best Hs.
  - cbn [lastElement].
    replace (cur ++ "") with cur; [reflexivity|].
    clear. induction cur as [|d cur IHc]; [reflexivity|]. rewrite append_cons. now f_equal.
  - unfold slashFree in *. cbn [hasByte] in Hs.
    apply negb_true_iff, orb_false_iff in Hs as [Hc Hs].
    cbn [lastElement]. rewrite Hc.
    rewrite IH by now rewrite Hs.
    now rewrite !append_assoc, append_cons, append_nil_l.
Qed.

Lemma Base_storagePath name :
  slashFree name = true -> name <> "" -> Base (Join storagePath name) = name.
Proof.
  intros Hs Hne. unfold Base.
  change (Join storagePath name)
    with ("app" ++ String "/" ("storage" ++ String "/" ("temp" ++ String "/" name))).
  assert (Hnz : String.eqb ("app" ++ String "/" ("storage" ++ String "/"
                                   ("temp" ++ String "/" name))) "" = false)
    by reflexivity.
  rewrite Hnz. cbv zeta.
  rewrite (lastElement_segment "app") by reflexivity.
  rewrite (lastElement_segment "storage") by reflexivity.
  rewrite (lastElement_segment "temp") by reflexivity.
  rewrite lastElement_last by exact Hs. rewrite (append_nil_l name).
  apply String.eqb_neq in Hne. now rewrite !Hne.
Qed.

End AttachmentFacts.

(** X14: the attachments PrepareAttachments returns are the files of the
    map that can be read, each with its content and named by the last
    element of its path; visiting the map in another order returns the
    same attachments in another order, and the call fails exactly when
    none of the files can be read. *)
Theorem PrepareAttachments_order_insensitive :
  forall (w : World) (visit visit' : list (string * string)),
    visit ≡ₚ visit' ->
    readAttachments w visit ≡ₚ readAttachments w visit'
    /\ (PrepareAttachments w visit = None <-> PrepareAttachments w visit' = None)
    /\ (PrepareAttachments w visit = None
        <-> forall name path, (name, path) ∈ visit -> files w !! path = None)
    /\ (forall attachments,
          PrepareAttachments w visit = Some attachments ->
          attachments = readAttachments w visit
          /\ forall a, a ∈ attachments ->
                       exists name path,
                         (name, path) ∈ visit
                         /\ files w !! path = Some (Content a)
                         /\ AName a = Base path).
Proof.
  intros w visit visit' Hp.
  assert (Hnone : forall v, PrepareAttachments w v = None <-> readAttachments w v = []).
  { intros v. unfold PrepareAttachments.
    destruct (readAttachments w v); split; congruence. }
  split; [rewrite !readAttachments_omap; now rewrite Hp|].
  split; [|split].
  - rewrite !Hnone, !readAttachments_nil. now setoid_rewrite Hp.
  - rewrite Hnone. apply readAttachments_nil.
  - intros attachments H.
    assert (E : attachments = readAttachments w visit).
    { unfold PrepareAttachments in H.
      destruct (readAttachments w visit); [discriminate | congruence]. }
    split; [exact E|]. subst attachments. rewrite readAttachments_omap.
    intros a Ha. apply list_elem_of_omap in Ha as ([name path] & Hin & Hat).
    unfold attachmentOf, ReadFile in Hat. cbn [snd] in Hat.
    exists name, path. split; [exact Hin|].
    destruct (files w !! path) as [content|]; [|discriminate].
    cbn in Hat. injection Hat as <-. now split.
Qed.

Lemma PrepareAttachments_order_insensitive_witness :
  readAttachments Sample.disk [("a", "tg_en.txt"); ("b", "gone.pdf")]
  ≡ₚ readAttachments Sample.disk [("b", "gone.pdf"); ("a", "tg_en.txt")].
Proof.
  exact (proj1 (PrepareAttachments_order_insensitive Sample.disk
                  [("a", "tg_en.txt"); ("b", "gone.pdf")]
                  [("b", "gone.pdf"); ("a", "tg_en.txt")]
                  (perm_swap _ _ _))).
Defined.

(** X15: the loop that writes an attachment's base64 text in lines adds
    one CR LF after every 76 bytes and after the last, shorter line and
    nothing else: the output is longer than the text by two bytes per
    started line, and taking the line breaks out again gives the text
    back. *)
Theorem wrapLines_round_trip :
  forall (encoded : string),
    String.length (wrapLines (String.length encoded) encoded)
    = (String.length encoded + 2 * ((String.length encoded + 75) / 76))%nat
    /\ (hasByte "013" encoded = false -> hasByte "010" encoded = false ->
        stripBreaks (wrapLines (String.length encoded) encoded) = encoded)
    /\ (forall fuel, (String.length encoded <= fuel)%nat ->
                     wrapLines fuel encoded
                     = wrapLines (String.length encoded) encoded).
Proof.
  intros encoded. split; [now apply wrapLines_length|]. split.
  - intros H1 H2. rewrite wrapLines_strip by lia. now apply stripBreaks_id.
  - assert (H : forall fuel s, (String.length s <= fuel)%nat ->
                               wrapLines (S fuel) s = wrapLines fuel s).
    { induction fuel as [|fuel IH]; intros s Hle.
      - destruct s; [reflexivity | cbn in Hle; lia].
      - destruct s as [|c s]; [reflexivity|].
        change (wrapLines (S (S fuel)) (String c s))
          with (substring 0 76 (String c s) ++ CRLF
                ++ wrapLines (S fuel) (substring 76 (String.length (String c s) - 76)
                                                 (String c s))).
        rewrite IH; [reflexivity|].
        rewrite substring_rest_length. cbn [String.length] in *. lia. }
    intros fuel Hle. induction Hle as [|fuel Hle IH]; [reflexivity|].
    rewrite H by exact Hle. exact IH.
Qed.

(** X16: a file saved under a label and an identifier without "/" is
    attached to the mail under the name SaveTempFile recorded for it,
    label_identifier.pdf, with the bytes that were saved. *)
Theorem attachment_named_after_saved_file :
  forall (lib : Lib) (sc : Sched) (w w1 : World) (data : list byte)
         (pre : string) (info : FileInfo),
    slashFree pre = true ->
    slashFree (newUUID sc pre) = true ->
    SaveTempFile lib sc w data pre = (w1, Ok info) ->
    Base (Path info) = FName info
    /\ FName info = pre ++ "_" ++ newUUID sc pre ++ ".pdf"
    /\ readAttachments w1 [(pre, Path info)]
       = [{| AName := FName info; Content := data |}].
Proof.
  intros lib sc w w1 data pre info Hp Hu H.
  unfold SaveTempFile in H.
  destruct (len data >? MaxFileSize)%Z; [discriminate|].
  destruct (mkdirFails sc storagePath); [discriminate|].
  cbv zeta in H. destruct (writeFails sc _); [discriminate|].
  destruct (negb _); [discriminate|]. inversion H; subst; clear H.
  cbn [Path FName].
  assert (Hbase : Base (Join storagePath (pre ++ "_" ++ newUUID sc pre ++ ".pdf"))
                  = pre ++ "_" ++ newUUID sc pre ++ ".pdf").
  { apply Base_storagePath.
    - unfold slashFree in *. rewrite !hasByte_append.
      apply negb_true_iff in Hp, Hu. now rewrite Hp, Hu.
    - intros E. apply (f_equal (hasByte "_")) in E.
      rewrite !hasByte_append in E. cbn in E. now rewrite orb_true_r in E. }
  split; [exact Hbase|]. split; [reflexivity|].
  cbn [readAttachments]. unfold ReadFile.
  cbn [files arm_timer set_files]. rewrite lookup_insert_eq. now rewrite Hbase.
Qed.

Lemma attachment_named_after_saved_file_witness :
  Base "app/storage/temp/invoice_id-invoice.pdf" = "invoice_id-invoice.pdf".
Proof.
  destruct (SaveTempFile Sample.lib Sample.sched Sample.world (Sample.pdf "invoice") "invoice")
    as [w1 [info|e]] eqn:E; [|vm_compute in E; discriminate].
  destruct (attachment_named_after_saved_file Sample.lib Sample.sched Sample.world w1
              (Sample.pdf "invoice") "invoice" info eq_refl eq_refl E) as (Hb & Hn & _).
  assert (Hp : Path info = "app/storage/temp/invoice_id-invoice.pdf")
    by (vm_compute in E; now inversion E).
  rewrite Hp in Hb. rewrite Hb, Hn. reflexivity.
Defined.


(* ===================================================================== *)
(** * The registry loaded from the environment *)
(* ===================================================================== *)

Section EnvironmentFacts.

Lemma splitAtEq_join e k v :
  splitAtEq e = Some (k, v) -> e = k ++ "=" ++ v /\ hasByte "=" k = false.
Proof.
  revert k. induction e as [|c e IH]; intros k H; [discriminate|].
  cbn [splitAtEq] in H. destruct (Ascii.eqb_spec c "=") as [->|Hc].
  - injection H as <- <-. now split.
  - destruct (splitAtEq e) as [[k' v']|]; [|discriminate].
    injection H as <- <-. destruct (IH k' eq_refl) as [-> Hk].
    split; [now rewrite append_cons|].
    cbn [hasByte]. rewrite Hk. apply Ascii.eqb_neq in Hc. now rewrite Hc.
Qed.

Lemma splitAtEq_build k v :
  hasByte "=" k = false -> splitAtEq (k ++ "=" ++ v) = Some (k, v).
Proof.
  induction k as [|c k IH]; intros H; [reflexivity|].
  cbn [hasByte] in H. apply orb_false_iff in H as [Hc Hk].
  rewrite append_cons. cbn [splitAtEq]. rewrite Hc. now rewrite IH.
Qed.

Lemma substring_all s : substring 0 (String.length s) s = s.
Proof. induction s as [|c s IH]; [reflexivity|]. cbn. now rewrite IH. Qed.

Lemma substring_append_l p s : substring 0 (String.length p) (p ++ s) = p.
Proof.
  induction p as [|c p IH]; [now destruct s|].
  rewrite append_cons. cbn. now rewrite IH.
Qed.

Lemma substring_append_r p s :
  substring (String.length p) (String.length s) (p ++ s) = s.
Proof.
  induction p as [|c p IH]; [rewrite append_nil_l; apply substring_all|].
  rewrite append_cons. cbn [String.length substring]. exact IH.
Qed.

Lemma HasSuffix_join k suffix :
  HasSuffix k suffix = true -> k = TrimSuffix k suffix ++ suffix.
Proof.
  intros H. unfold TrimSuffix. rewrite H. unfold HasSuffix in H.
  apply andb_true_iff in H as [Hlen Heq].
  apply Nat.leb_le in Hlen. apply String.eqb_eq in Heq.
  pose proof (substring_split (String.length k - String.length suffix) k) as Hs.
  replace (String.length k - (String.length k - String.length suffix))%nat
    with (String.length suffix) in Hs by lia.
  rewrite Heq in Hs. now symmetry.
Qed.

Lemma HasSuffix_build p suffix :
  HasSuffix (p ++ suffix) suffix = true /\ TrimSuffix (p ++ suffix) suffix = p.
Proof.
  assert (H : HasSuffix (p ++ suffix) suffix = true).
  { unfold HasSuffix. rewrite length_append.
    replace (String.length p + String.length suffix - String.length suffix)%nat
      with (String.length p) by lia.
    rewrite substring_append_r, String.eqb_refl, andb_true_r.
    apply Nat.leb_le. lia. }
  split; [exact H|]. unfold TrimSuffix. rewrite H, length_append.
  replace (String.length p + String.length suffix - String.length suffix)%nat
    with (String.length p) by lia.
  apply substring_append_l.
Qed.

Lemma Split_nonempty s : Split s <> [].
Proof.
  destruct s as [|c s]; [discriminate|]. cbn [Split].
  destruct (Ascii.eqb c ","); [discriminate|]. now destruct (Split s).
Qed.

Lemma loadLangs_nonempty environ prefix :
  loadLangs environ prefix <> [] /\ loadLangs environ prefix <> [""].
Proof.
  unfold loadLangs.
  destruct (Split (Getenv environ (prefix ++ "_LANGS"))) as [|first [|second rest]] eqn:E.
  - now apply Split_nonempty in E.
  - cbn [List.length Nat.eqb orb andb nth].
    destruct (String.eqb_spec first "") as [->|Hne]; split; congruence.
  - cbn. split; discriminate.
Qed.

Variables (lib : Lib) (environ : list string) (w : World).

(** What [loadPaths] files under a key. *)
Lemma loadPaths_lookup infix prefix langs k :
  loadPaths infix lib environ prefix langs !! k
  = if decide (k ∈ map (langKey lib) langs)
    then (let val := Getenv environ (prefix ++ infix ++ ToUpper k ++ "_PATH") in
          if String.eqb val "" then None else Some val)
    else None.
Proof.
  unfold loadPaths.
  assert (H : forall acc : gmap string string,
             fold_left
               (fun paths lang =>
                  let lang := langKey lib lang in
                  let key := prefix ++ infix ++ ToUpper lang ++ "_PATH" in
                  let val := Getenv environ key in
                  if negb (String.eqb val "") then <[lang := val]> paths else paths)
               langs acc !! k
             = if decide (k ∈ map (langKey lib) langs)
               then (let val := Getenv environ (prefix ++ infix ++ ToUpper k ++ "_PATH") in
                     if String.eqb val "" then acc !! k else Some val)
               else acc !! k).
  { induction langs as [|lang langs IH]; intros acc.
    - cbn [fold_left map]. destruct (decide _) as [Hin|_]; [|reflexivity].
      now apply elem_of_nil in Hin.
    - cbn [fold_left map]. rewrite IH. cbv zeta.
      destruct (decide (k = langKey lib lang)) as [->|Hne].
      + destruct (decide (_ ∈ map _ langs)) as [Hin|Hnin];
          (destruct (decide (_ ∈ _ :: _)) as [_|Hn]; [|exfalso; apply Hn; now left]).
        * destruct (String.eqb _ ""); [|reflexivity]. reflexivity.
        * destruct (String.eqb _ ""); cbn [negb]; [reflexivity|].
          apply lookup_insert_eq.
      + assert (Hacc : (if negb (String.eqb (Getenv environ
                                   (prefix ++ infix ++ ToUpper (langKey lib lang) ++ "_PATH")) "")
                        then <[langKey lib lang :=
                                 Getenv environ (prefix ++ infix ++ ToUpper (langKey lib lang)
                                                 ++ "_PATH")]> acc
                        else acc) !! k = acc !! k).
        { destruct (negb _); [|reflexivity]. apply lookup_insert_ne. congruence. }
        rewrite Hacc.
        destruct (decide (_ ∈ map _ langs)) as [Hin|Hnin];
          destruct (decide (_ ∈ _ :: _)) as [Hin'|Hnin']; try reflexivity.
        * exfalso. apply Hnin'. now right.
        * exfalso. apply elem_of_cons in Hin' as [?|?]; congruence. }
  rewrite H, lookup_empty. cbv zeta.
  destruct (decide _); [|reflexivity]. now destruct (String.eqb _ "").
Qed.

(** A chat template is loaded only for a language whose path is filed. *)
Lemma loadTelegramTemplates_paths prefix langs k :
  is_Some (loadTelegramTemplates lib environ w prefix langs !! k) ->
  exists path,
    loadTelegramPaths lib environ prefix langs !! k = Some path /\ path <> "".
Proof.
  unfold loadTelegramPaths. rewrite loadPaths_lookup. unfold loadTelegramTemplates.
  assert (H : forall acc : gmap string string,
             is_Some (fold_left
                        (fun templates lang =>
                           let lang := langKey lib lang in
                           let key := prefix ++ "_TG_MSG_" ++ ToUpper lang ++ "_PATH" in
                           let path := Getenv environ key in
                           if negb (String.eqb path "") then
                             match ReadFile w path with
                             | None => templates
                             | Some content => <[lang := string_of_list_byte content]> templates
                             end
                           else templates)
                        langs acc !! k) ->
             is_Some (acc !! k)
             \/ (k ∈ map (langKey lib) langs
                 /\ Getenv environ (prefix ++ "_TG_MSG_" ++ ToUpper k ++ "_PATH") <> "")).
  { induction langs as [|lang langs IH]; intros acc Hs; [now left|].
    cbn [fold_left map] in *. apply IH in Hs as [Hs|[Hin Hne]].
    - cbv zeta in Hs.
      destruct (String.eqb_spec (Getenv environ
                  (prefix ++ "_TG_MSG_" ++ ToUpper (langKey lib lang) ++ "_PATH")) "")
        as [E|Hne]; cbn [negb] in Hs; [now left|].
      destruct (ReadFile w _); [|now left].
      destruct (decide (k = langKey lib lang)) as [->|Hk].
      + right. split; [now left | exact Hne].
      + rewrite lookup_insert_ne in Hs by congruence. now left.
    - right. split; [now right | exact Hne]. }
  intros Hs. apply H in Hs as [Hs|[Hin Hne]].
  - rewrite lookup_empty in Hs. now destruct Hs.
  - destruct (decide _) as [_|Hn]; [|contradiction]. cbv zeta.
    apply String.eqb_neq in Hne. rewrite Hne. eexists. split; [reflexivity|].
    now apply String.eqb_neq.
Qed.

(** Invariant of the loop of [LoadServices]. *)
Lemma LoadServices_invariant entries :
  forall services,
    (forall e, In e entries -> In e environ) ->
    (forall k svc, services !! k = Some svc ->
       k = ToLower (Name svc)
       /\ exists prefix,
            In (prefix ++ "_SERVICE_NAME" ++ "=" ++ Name svc) environ
            /\ svc = loadService lib environ w prefix (Name svc)) ->
    forall k svc,
      fold_left (loadEntry lib environ w) entries services !! k = Some svc ->
      k = ToLower (Name svc)
      /\ exists prefix,
           In (prefix ++ "_SERVICE_NAME" ++ "=" ++ Name svc) environ
           /\ svc = loadService lib environ w prefix (Name svc).
Proof.
  induction entries as [|e entries IH]; intros services Hsub Hinv; [exact Hinv|].
  cbn [fold_left]. apply IH; [intros e' He'; apply Hsub; now right|].
  intros k svc. unfold loadEntry.
  destruct (splitAtEq e) as [[key val]|] eqn:Hsplit; [|apply Hinv].
  destruct (HasSuffix key "_SERVICE_NAME") eqn:Hsuf; [|apply Hinv].
  cbv zeta. destruct (decide (k = ToLower val)) as [->|Hne].
  - rewrite lookup_insert_eq. intros [= <-]. cbn [Name loadService]. split; [reflexivity|].
    exists (TrimSuffix key "_SERVICE_NAME"). split; [|reflexivity].
    apply splitAtEq_join in Hsplit as [He _].
    apply HasSuffix_join in Hsuf.
    rewrite <- append_assoc, <- Hsuf, <- He. apply Hsub. now left.
  - rewrite lookup_insert_ne by congruence. apply Hinv.
Qed.

(** Once filed, a key stays in the registry. *)
Lemma LoadServices_keeps entries :
  forall services k,
    is_Some (services !! k) ->
    is_Some (fold_left (loadEntry lib environ w) entries services !! k).
Proof.
  induction entries as [|e entries IH]; intros services k Hs; [exact Hs|].
  cbn [fold_left]. apply IH. unfold loadEntry.
  destruct (splitAtEq e) as [[key val]|]; [|exact Hs].
  destruct (HasSuffix key "_SERVICE_NAME"); [|exact Hs].
  cbv zeta. destruct (decide (k = ToLower val)) as [->|Hne].
  - rewrite lookup_insert_eq. eauto.
  - now rewrite lookup_insert_ne by congruence.
Qed.

Lemma LoadServices_finds entries :
  forall services prefix name,
    hasByte "=" prefix = false ->
    In (prefix ++ "_SERVICE_NAME" ++ "=" ++ name) entries ->
    is_Some (fold_left (loadEntry lib environ w) entries services !! ToLower name).
Proof.
  induction entries as [|e entries IH]; intros services prefix name Hp Hin; [destruct Hin|].
  cbn [fold_left]. destruct Hin as [->|Hin]; [|now apply (IH _ prefix)].
  apply LoadServices_keeps. unfold loadEntry.
  rewrite <- append_assoc.
  rewrite splitAtEq_build by (rewrite hasByte_append, Hp; reflexivity).
  rewrite (proj1 (HasSuffix_build prefix "_SERVICE_NAME")). cbv zeta.
  rewrite lookup_insert_eq. eauto.
Qed.

End EnvironmentFacts.

(** X17: every tenant LoadServices files in the registry is filed under
    the lower-case form of its own name, so GetService finds it by its
    name; it was built from an entry PREFIX_SERVICE_NAME=name of the
    environment with the variables of that prefix, and its list of
    supported languages is neither empty nor the single empty code. *)
Theorem LoadServices_registry :
  forall (lib : Lib) (environ : list string) (w : World)
         (k : string) (svc : ServiceConfig),
    LoadServices lib environ w ∅ !! k = Some svc ->
    k = ToLower (Name svc)
    /\ GetService (LoadServices lib environ w ∅) (Name svc) = Some svc
    /\ (exists prefix,
          In (prefix ++ "_SERVICE_NAME" ++ "=" ++ Name svc) environ
          /\ svc = loadService lib environ w prefix (Name svc))
    /\ SupportedLangs svc <> [] /\ SupportedLangs svc <> [""].
Proof.
  intros lib environ w k svc H.
  destruct (LoadServices_invariant lib environ w environ ∅ (fun e He => He)
              (fun k' svc' Hl => ltac:(now rewrite lookup_empty in Hl)) k svc H)
    as (Hk & prefix & Hin & Hsvc).
  split; [exact Hk|]. split; [unfold GetService; now rewrite <- Hk|].
  split; [eauto|].
  rewrite Hsvc. cbn [SupportedLangs loadService]. apply loadLangs_nonempty.
Qed.

Lemma LoadServices_registry_witness :
  GetService (LoadServices Sample.lib sampleEnviron Sample.disk ∅) "Shop"
  = Some (loadService Sample.lib sampleEnviron Sample.disk "SHOP" "Shop").
Proof.
  assert (H : LoadServices Sample.lib sampleEnviron Sample.disk ∅ !! "shop"
              = Some (loadService Sample.lib sampleEnviron Sample.disk "SHOP" "Shop"))
    by reflexivity.
  exact (proj1 (proj2 (LoadServices_registry Sample.lib sampleEnviron Sample.disk
                         "shop" _ H))).
Defined.

(** X18: for every entry PREFIX_SERVICE_NAME=name of the environment
    whose prefix holds no "=", GetService finds a tenant under that name
    in any spelling of upper and lower case. *)
Theorem LoadServices_finds_every_declared_tenant :
  forall (lib : Lib) (environ : list string) (w : World)
         (prefix name asked : string),
    hasByte "=" prefix = false ->
    In (prefix ++ "_SERVICE_NAME" ++ "=" ++ name) environ ->
    ToLower asked = ToLower name ->
    exists svc,
      GetService (LoadServices lib environ w ∅) asked = Some svc
      /\ ToLower (Name svc) = ToLower name.
Proof.
  intros lib environ w prefix name asked Hp Hin Hcase.
  destruct (LoadServices_finds lib environ w environ ∅ prefix name Hp Hin) as [svc Hsvc].
  exists svc. unfold GetService. rewrite Hcase. split; [exact Hsvc|].
  destruct (LoadServices_invariant lib environ w environ ∅ (fun e He => He)
              (fun k' svc' Hl => ltac:(now rewrite lookup_empty in Hl)) _ svc Hsvc)
    as (Hk & _).
  now symmetry.
Qed.

Lemma LoadServices_finds_every_declared_tenant_witness :
  exists svc,
    GetService (LoadServices Sample.lib sampleEnviron Sample.disk ∅) "SHOP" = Some svc
    /\ ToLower (Name svc) = ToLower "Shop".
Proof.
  apply (LoadServices_finds_every_declared_tenant Sample.lib sampleEnviron Sample.disk
           "SHOP" "Shop" "SHOP"); [reflexivity | right; left; reflexivity | reflexivity].
Defined.

(** X19: a tenant loaded from the environment has a chat template in
    memory only for a language whose template path is filed too, so the
    copy read at start-up is never sent: whenever getLocalizedTemplate
    succeeds for such a tenant, its result is what the template file
    holds at that moment. *)
Theorem loaded_chat_template_is_read_from_file :
  forall (lib : Lib) (environ : list string) (w0 : World)
         (k : string) (svc : ServiceConfig),
    LoadServices lib environ w0 ∅ !! k = Some svc ->
    (forall lang,
        is_Some (TelegramTemplates svc !! lang) ->
        exists path, TelegramTemplatePaths svc !! lang = Some path /\ path <> "")
    /\ (forall (w : World) (lang template : string),
          getLocalizedTemplate w svc lang = Ok template ->
          exists used path content,
            TelegramTemplatePaths svc !! used = Some path
            /\ path <> ""
            /\ files w !! path = Some content
            /\ template = string_of_list_byte content).
Proof.
  intros lib environ w0 k svc H.
  destruct (LoadServices_invariant lib environ w0 environ ∅ (fun e He => He)
              (fun k' svc' Hl => ltac:(now rewrite lookup_empty in Hl)) k svc H)
    as (_ & prefix & _ & Hsvc).
  assert (Hdom : forall lang,
             is_Some (TelegramTemplates svc !! lang) ->
             exists path, TelegramTemplatePaths svc !! lang = Some path /\ path <> "").
  { intros lang Hs. rewrite Hsvc in *.
    cbn [TelegramTemplates TelegramTemplatePaths loadService] in *.
    now apply (loadTelegramTemplates_paths lib environ w0 prefix). }
  split; [exact Hdom|].
  intros w lang template Ht. unfold getLocalizedTemplate in Ht.
  destruct (templateLang svc lang) as [used|]; [|discriminate].
  destruct (TelegramTemplatePaths svc !! used) as [path|] eqn:Hp.
  - destruct (String.eqb_spec path "") as [->|Hne]; cbn [negb] in Ht.
    + unfold inMemoryTemplate in Ht.
      destruct (TelegramTemplates svc !! used) as [t|] eqn:Hm; [|discriminate].
      destruct (Hdom used) as (p & Hp' & Hne'); [now rewrite Hm|]. congruence.
    + unfold ReadFile in Ht. destruct (files w !! path) as [content|] eqn:Hf; [|discriminate].
      injection Ht as <-. exists used, path, content. auto.
  - unfold inMemoryTemplate in Ht.
    destruct (TelegramTemplates svc !! used) as [t|] eqn:Hm; [|discriminate].
    destruct (Hdom used) as (p & Hp' & _); [now rewrite Hm|]. congruence.
Qed.

Lemma loaded_chat_template_is_read_from_file_witness :
  exists path,
    TelegramTemplatePaths (loadService Sample.lib sampleEnviron Sample.disk "SHOP" "Shop")
      !! "en" = Some path /\ path <> "".
Proof.
  assert (H : LoadServices Sample.lib sampleEnviron Sample.disk ∅ !! "shop"
              = Some (loadService Sample.lib sampleEnviron Sample.disk "SHOP" "Shop"))
    by reflexivity.
  apply (proj1 (loaded_chat_template_is_read_from_file Sample.lib sampleEnviron Sample.disk
                  "shop" _ H) "en").
  vm_compute. eauto.
Defined.


(* ===================================================================== *)
(** * The rate limiter, the allow-list and the route *)
(* ===================================================================== *)

Section LimiterFacts.

Variable lib : Lib.

(** With every address mapped to the one limiter, [serve] works on that
    limiter whatever the address. *)
Lemma serve_shared st r t :
  all_alias st ->
  exists limiters1,
    (forall ip, is_Some (limiters1 !! ip)
                <-> ip = GetRealIP lib r \/ is_Some (limiters st !! ip))
    /\ serve lib st r t
       = match heap st !! limiter st with
         | None => ({| heap := heap st; limiters := limiters1; limiter := limiter st |},
                    TooManyRequests)
         | Some lim =>
             ({| heap := <[limiter st := (Wait lim t (Deadline r)).1]> (heap st);
                 limiters := limiters1; limiter := limiter st |},
              match (Wait lim t (Deadline r)).2 with
              | Some delay => Next delay
              | None => TooManyRequests
              end)
         end.
Proof.
  intros Hst. unfold serve.
  destruct (limiters st !! GetRealIP lib r) as [l|] eqn:Hl.
  - apply Hst in Hl as Hl'. subst l. exists (limiters st). split.
    + intros ip. split; [auto|]. intros [->|H]; [now rewrite Hl | exact H].
    + destruct (heap st !! limiter st) as [lim|]; [|reflexivity].
      now destruct (Wait lim t (Deadline r)) as [lim1 [d|]].
  - exists (<[GetRealIP lib r := limiter st]> (limiters st)). split.
    + intros ip. destruct (decide (GetRealIP lib r = ip)) as [<-|Hne].
      * rewrite lookup_insert_eq. split; eauto.
      * rewrite lookup_insert_ne by exact Hne. split; [auto|].
        intros [->|H]; [contradiction | exact H].
    + destruct (heap st !! limiter st) as [lim|]; [|reflexivity].
      now destruct (Wait lim t (Deadline r)) as [lim1 [d|]].
Qed.

Lemma Wait_refused lim t deadline :
  (Wait lim t deadline).2 = None -> (Wait lim t deadline).1 = lim.
Proof. unfold Wait. cbv zeta. now destruct (_ && _). Qed.

(** The verdicts depend on the shared limiter only. *)
Lemma serveAll_verdicts rs :
  forall rs' st st',
    Forall2 sameTiming rs rs' ->
    all_alias st -> all_alias st' ->
    heap st = heap st' -> limiter st = limiter st' ->
    (serveAll lib st rs).2 = (serveAll lib st' rs').2.
Proof.
  induction rs as [|[r t] rs IH]; intros rs' st st' H2 Ha Ha' Hh Hl.
  - inversion H2; subst. reflexivity.
  - destruct rs' as [|[r' t'] rs0]; [inversion H2|].
    inversion H2 as [|? ? ? ? [Ht Hd] Hrest]; subst. cbn [fst snd] in Ht, Hd. subst t'.
    cbn [serveAll].
    destruct (serve_shared st r t Ha) as (m & _ & E).
    destruct (serve_shared st' r' t Ha') as (m' & _ & E').
    pose proof (serve_alias lib st r t Ha) as [A1 L1].
    pose proof (serve_alias lib st' r' t Ha') as [A1' L1'].
    rewrite <- Hh, <- Hl, <- Hd in E'.
    destruct (serve lib st r t) as [st1 v]. destruct (serve lib st' r' t) as [st1' v'].
    cbn [fst] in *.
    assert (Hv : v = v' /\ heap st1 = heap st1').
    { destruct (heap st !! limiter st) as [lim|];
        inversion E; inversion E'; subst; now split. }
    destruct Hv as [<- Hh1].
    specialize (IH rs0 st1 st1' Hrest A1 A1' Hh1 ltac:(congruence)).
    destruct (serveAll lib st1 rs) as [st2 vs]. destruct (serveAll lib st1' rs0) as [st2' vs'].
    cbn [snd] in *. now rewrite IH.
Qed.

(** A burst at one instant, seen from a limiter that is worth [j] used
    tokens. *)
Lemma serveAll_burst rs t :
  forall st lim j,
    all_alias st ->
    heap st !! limiter st = Some lim ->
    lim_interval lim = (minute / 10)%Z -> lim_burst lim = 10%Z ->
    advance lim t = ((10 - Z.of_nat j) * (minute / 10))%Z ->
    Forall (fun r => Deadline r = None) rs ->
    (serveAll lib st (map (fun r => (r, t)) rs)).2
    = map (fun k => Next (burstDelay k)) (seq j (List.length rs)).
Proof.
  induction rs as [|r rs IH]; intros st lim j Ha Hheap Hi Hb Hadv Hp; [reflexivity|].
  inversion Hp as [|? ? Hr Hrest]; subst.
  cbn [map serveAll List.length seq].
  destruct (serve_shared st r t Ha) as (m & _ & E).
  pose proof (serve_alias lib st r t Ha) as [A1 L1].
  rewrite Hheap, Hr in E.
  assert (HW : Wait lim t None
               = ({| lim_interval := lim_interval lim; lim_burst := lim_burst lim;
                     lim_credit := (advance lim t - lim_interval lim)%Z; lim_last := t |},
                  Some (burstDelay j))).
  { unfold Wait. cbv zeta. rewrite Hb. cbn [Z.leb andb].
    change (1 <=? 10)%Z with true. cbn [andb]. f_equal. f_equal.
    rewrite Hadv, Hi. unfold burstDelay.
    destruct (Z.ltb_spec ((10 - Z.of_nat j) * (minute / 10) - minute / 10) 0);
      unfold minute in *; change (60 * 1000000000 / 10)%Z with 6000000000%Z in *; lia. }
  rewrite HW in E. cbn [fst snd] in E.
  destruct (serve lib st r t) as [st1 v]. injection E as Est Ev. cbn [fst] in *.
  specialize (IH st1
                 {| lim_interval := lim_interval lim; lim_burst := lim_burst lim;
                    lim_credit := (advance lim t - lim_interval lim)%Z; lim_last := t |}
                 (S j) A1).
  destruct (serveAll lib st1 (map (fun r => (r, t)) rs)) as [st2 vs]. cbn [snd] in *.
  rewrite Ev. f_equal. apply IH.
  - rewrite L1, Est. cbn [heap]. apply lookup_insert_eq.
  - exact Hi.
  - exact Hb.
  - unfold advance at 1. cbn [lim_last lim_burst lim_interval lim_credit].
    rewrite Hadv, Hi, Hb. rewrite Z.min_id.
    unfold minute. change (60 * 1000000000 / 10)%Z with 6000000000%Z. lia.
  - exact Hrest.
Qed.

(** The addresses the limiter map knows after a run. *)
Lemma serveAll_limiters rs :
  forall st ip,
    all_alias st ->
    is_Some (limiters (serveAll lib st rs).1 !! ip)
    <-> is_Some (limiters st !! ip) \/ exists rt, In rt rs /\ ip = GetRealIP lib rt.1.
Proof.
  induction rs as [|[r t] rs IH]; intros st ip Ha.
  - cbn. split; [auto|]. intros [H|(rt & [] & _)]. exact H.
  - cbn [serveAll].
    destruct (serve_shared st r t Ha) as (m & Hm & E).
    pose proof (serve_alias lib st r t Ha) as [A1 _].
    destruct (serve lib st r t) as [st1 v]. cbn [fst] in *.
    assert (Hl : limiters st1 = m)
      by (destruct (heap st !! limiter st); inversion E; reflexivity).
    specialize (IH st1 ip A1).
    destruct (serveAll lib st1 rs) as [st2 vs]. cbn [fst] in *.
    rewrite IH, Hl, Hm. split.
    + intros [[->|H]|(rt & Hin & ->)]; [right; exists (r, t); split; [now left | reflexivity]
                                       | now left
                                       | right; exists rt; split; [now right | reflexivity]].
    + intros [H|(rt & [<-|Hin] & ->)]; [left; now right | left; now left | right; eauto].
Qed.

End LimiterFacts.

(** X20: the verdicts of the rate limiter do not depend on who is
    asking: two runs of requests that arrive at the same times with the
    same deadlines get the same verdicts and delays, whatever client
    addresses the requests of either run carry. *)
Theorem rate_verdicts_ignore_addresses :
  forall (lib : Lib) (rs rs' : list (Request * Z)),
    Forall2 sameTiming rs rs' ->
    (serveAll lib RateLimitMiddleware rs).2 = (serveAll lib RateLimitMiddleware rs').2.
Proof.
  intros lib rs rs' H.
  apply serveAll_verdicts; try reflexivity; try exact H;
    intros ip l Hl; cbn in Hl; now rewrite lookup_empty in Hl.
Qed.

Lemma rate_verdicts_ignore_addresses_witness :
  (serveAll Sample.lib RateLimitMiddleware
     [(Sample.from "10.0.0.1", 0%Z); (Sample.from "10.0.0.1", 5%Z)]).2
  = (serveAll Sample.lib RateLimitMiddleware
       [(Sample.from "10.0.0.2", 0%Z); (Sample.from "10.0.0.3", 5%Z)]).2.
Proof.
  apply rate_verdicts_ignore_addresses.
  repeat constructor.
Defined.

(** X21: of a burst of requests without deadline that arrive at one
    instant on a fresh middleware, none is refused, the first ten are
    served at once and request number k after them waits k times six
    seconds, from whatever addresses the requests come. *)
Theorem rate_burst_delays :
  forall (lib : Lib) (rs : list Request) (t : Z),
    Forall (fun r => Deadline r = None) rs ->
    (serveAll lib RateLimitMiddleware (map (fun r => (r, t)) rs)).2
    = map (fun k => Next (burstDelay k)) (seq 0 (List.length rs))
    /\ (forall k, (k < 10)%nat -> burstDelay k = 0%Z)
    /\ (forall k, burstDelay (10 + k) = ((Z.of_nat k + 1) * 6000000000)%Z).
Proof.
  intros lib rs t H. split; [|split].
  - apply (serveAll_burst lib rs t RateLimitMiddleware (NewLimiter (minute / 10) 10) 0).
    + intros ip l Hl. cbn in Hl. now rewrite lookup_empty in Hl.
    + reflexivity.
    + reflexivity.
    + reflexivity.
    + unfold advance, NewLimiter. cbn [lim_last lim_burst lim_interval lim_credit].
      unfold minute. change (60 * 1000000000 / 10)%Z with 6000000000%Z. lia.
    + exact H.
  - intros k Hk. unfold burstDelay, minute.
    change (60 * 1000000000 / 10)%Z with 6000000000%Z. lia.
  - intros k. unfold burstDelay, minute.
    change (60 * 1000000000 / 10)%Z with 6000000000%Z. lia.
Qed.

Lemma rate_burst_delays_witness :
  (serveAll Sample.lib RateLimitMiddleware
     (map (fun r => (r, 7%Z)) [Sample.from "10.0.0.1"; Sample.from "10.0.0.2"])).2
  = [Next (burstDelay 0); Next (burstDelay 1)].
Proof.
  apply (rate_burst_delays Sample.lib [Sample.from "10.0.0.1"; Sample.from "10.0.0.2"] 7).
  repeat constructor.
Defined.

(** X22: the limiter map never forgets an address: after any run of
    requests it holds exactly the addresses it held before and the
    addresses GetRealIP read from the requests, served or refused, and
    each of them is mapped to the one shared limiter. *)
Theorem rate_limiter_map_grows_with_addresses :
  forall (lib : Lib) (rs : list (Request * Z)) (ip : string),
    (is_Some (limiters (serveAll lib RateLimitMiddleware rs).1 !! ip)
     <-> exists rt, In rt rs /\ ip = GetRealIP lib rt.1)
    /\ (forall l, limiters (serveAll lib RateLimitMiddleware rs).1 !! ip = Some l ->
                  l = limiter RateLimitMiddleware).
Proof.
  intros lib rs ip.
  assert (Ha : all_alias RateLimitMiddleware)
    by (intros i l Hl; cbn in Hl; now rewrite lookup_empty in Hl).
  split.
  - rewrite (serveAll_limiters lib rs RateLimitMiddleware ip Ha). split.
    + intros [H|H]; [|exact H]. cbn in H. rewrite lookup_empty in H. now destruct H.
    + auto.
  - intros l Hl. pose proof (serveAll_alias lib rs RateLimitMiddleware Ha) as Hal.
    rewrite (Hal ip l Hl).
    clear Hl Hal. revert Ha. generalize RateLimitMiddleware.
    induction rs as [|[r t] rs IH]; intros st Ha; [reflexivity|].
    cbn [serveAll]. destruct (serve_alias lib st r t Ha) as [A1 L1].
    destruct (serve lib st r t) as [st1 v]. cbn [fst] in *.
    specialize (IH st1 A1). destruct (serveAll lib st1 rs) as [st2 vs]. cbn [fst] in *.
    congruence.
Qed.

Section WhitelistFacts.

Variable net : Net.

Lemma allowedBy_admits allowedIPs clientIP :
  allowedBy net allowedIPs clientIP = true
  <-> exists ip, In ip allowedIPs /\ admits net clientIP ip.
Proof.
  induction allowedIPs as [|ip rest IH].
  - split; [discriminate | intros (ip & [] & _)].
  - cbn [allowedBy]. unfold admits at 1.
    destruct (String.eqb_spec ip "*") as [->|Hstar].
    { split; [intros _; exists "*"; split; [now left | now left] | reflexivity]. }
    destruct (ParseCIDR net ip) as [subnet|] eqn:Hc.
    + destruct (SubnetContains net subnet clientIP) eqn:Hs.
      * split; [intros _|reflexivity]. exists ip. split; [now left|].
        right; left. eauto.
      * rewrite IH. split.
        -- intros (ip' & Hin & Had). exists ip'. split; [now right | exact Had].
        -- intros (ip' & [<-|Hin] & Had); [|eauto].
           destruct Had as [?|[(s & Hs' & Hc')|[Hn _]]]; congruence.
    + destruct (IPEqual net (ParseIP net ip) clientIP) eqn:He.
      * split; [intros _|reflexivity]. exists ip. split; [now left|].
        right; right. now split.
      * rewrite IH. split.
        -- intros (ip' & Hin & Had). exists ip'. split; [now right | exact Had].
        -- intros (ip' & [<-|Hin] & Had); [|eauto].
           destruct Had as [?|[(s & Hs' & _)|[_ He']]]; congruence.
Qed.

End WhitelistFacts.

(** X23: the allow-list lets a request through exactly when some entry
    of ALLOWED_IPS is "*", or is a subnet that contains the client
    address, or is no subnet and parses to the client address; so an
    entry "*" anywhere in the list admits every request, and listing the
    entries in another order changes no verdict. *)
Theorem IPWhitelistMiddleware_admits_by_some_entry :
  forall (net : Net) (lib : Lib) (environ : list string) (r : Request),
    (IPWhitelistMiddleware net lib environ r = true
     <-> exists ip, In ip (Split (Getenv environ "ALLOWED_IPS"))
                    /\ admits net (ParseIP net (GetRealIP lib r)) ip)
    /\ (In "*" (Split (Getenv environ "ALLOWED_IPS")) ->
        IPWhitelistMiddleware net lib environ r = true)
    /\ (forall allowedIPs allowedIPs' clientIP,
          allowedIPs ≡ₚ allowedIPs' ->
          allowedBy net allowedIPs clientIP = allowedBy net allowedIPs' clientIP).
Proof.
  intros net lib environ r. unfold IPWhitelistMiddleware. cbv zeta.
  split; [apply allowedBy_admits|]. split.
  - intros Hin. apply allowedBy_admits. exists "*". split; [exact Hin | now left].
  - intros l l' c Hp.
    destruct (allowedBy net l c) eqn:E, (allowedBy net l' c) eqn:E'; try reflexivity.
    + apply allowedBy_admits in E as (ip & Hin & Had).
      rewrite <- E'. symmetry. apply allowedBy_admits. exists ip. split; [|exact Had].
      apply list_elem_of_In. rewrite <- Hp. now apply list_elem_of_In.
    + apply allowedBy_admits in E' as (ip & Hin & Had).
      rewrite <- E. apply allowedBy_admits. exists ip. split; [|exact Had].
      apply list_elem_of_In. rewrite Hp. now apply list_elem_of_In.
Qed.

(** X24: when ALLOWED_IPS is unset or empty its only entry is the empty
    text, which parses to the nil address: the allow-list then refuses
    every request whose client address parses and lets through exactly
    the requests whose client address does not parse. *)
Theorem IPWhitelistMiddleware_unset_list_admits_unparsable :
  forall (net : Net) (lib : Lib) (environ : list string) (r : Request),
    Net_ok net ->
    Getenv environ "ALLOWED_IPS" = "" ->
    (IPWhitelistMiddleware net lib environ r = true
     <-> ParseIP net (GetRealIP lib r) = []).
Proof.
  intros net lib environ r [Hc Hp He] Hz.
  unfold IPWhitelistMiddleware. cbv zeta. rewrite Hz.
  cbn [Split allowedBy]. change (String.eqb "" "*") with false. cbv iota.
  rewrite Hc, Hp, He.
  destruct (bool_decide_reflect (ParseIP net (GetRealIP lib r) = [])) as [E|E];
    split; congruence.
Qed.

Lemma IPWhitelistMiddleware_unset_list_admits_unparsable_witness :
  IPWhitelistMiddleware sampleNet Sample.lib ["PATH=/bin"] (Sample.from "") = true.
Proof.
  apply (IPWhitelistMiddleware_unset_list_admits_unparsable sampleNet Sample.lib
           ["PATH=/bin"] (Sample.from "")).
  - split; [reflexivity | reflexivity |].
    intros x. now destruct x.
  - reflexivity.
  - reflexivity.
Defined.

(** X25: on the route to the order handler the CSRF check and the
    allow-list come before the rate limiter and the limiter before the
    handler: a request that fails either check leaves the limiter and
    the world as they were, so it uses up no token; a request refused by
    the limiter takes no token either and leaves the world as it was;
    and the handler's effects are those of HandleProjectOrder alone. *)
Theorem orderRoute_refusals_change_nothing :
  forall (net : Net) (lib : Lib) (sc : Sched) (out : Outside)
         (environ : list string) (services : gmap string ServiceConfig)
         (csrfOk : Request -> bool) (st : RateState) (w : World) (r : Request) (t : Z),
    all_alias st ->
    let res := orderRoute net lib sc out environ services csrfOk st w r t in
    (res.2 = CSRFFailure \/ res.2 = Forbidden -> res.1 = (st, w))
    /\ (res.2 = Limited -> res.1.2 = w /\ heap res.1.1 = heap st)
    /\ (forall delay resp,
          res.2 = Handled delay resp ->
          csrfOk r = true
          /\ IPWhitelistMiddleware net lib environ r = true
          /\ (res.1.2, resp) = HandleProjectOrder lib sc out services w r)
    /\ (res.2 = Forbidden <->
        csrfOk r = true /\ IPWhitelistMiddleware net lib environ r = false).
Proof.
  intros net lib sc out environ services csrfOk st w r t Ha. cbv zeta.
  unfold orderRoute.
  destruct (csrfOk r); cbn [negb].
  2:{ cbn. repeat split; try discriminate; try reflexivity; intros; try discriminate.
      all: destruct H; discriminate. }
  destruct (IPWhitelistMiddleware net lib environ r); cbn [negb].
  2:{ cbn. repeat split; try discriminate; try reflexivity; intros; discriminate. }
  destruct (serve_shared lib st r t Ha) as (m & _ & E).
  destruct (serve lib st r t) as [st1 [delay|]].
  - destruct (HandleProjectOrder lib sc out services w r) as [w1 resp] eqn:EH.
    cbn [fst snd]. split; [intros [?|?]; discriminate|].
    split; [discriminate|]. split.
    + intros d rs [= <- <-]. auto.
    + split; [discriminate | intros [_ ?]; discriminate].
  - cbn [fst snd]. split; [intros [?|?]; discriminate|]. split.
    + intros _. split; [reflexivity|].
      destruct (heap st !! limiter st) as [lim|] eqn:Hh; inversion E; subst; [|reflexivity].
      cbn [heap]. destruct (Wait lim t (Deadline r)) as [lim1 [d|]] eqn:HW;
        cbn [fst snd] in *; [discriminate|].
      pose proof (Wait_refused lim t (Deadline r)) as Hr. rewrite HW in Hr.
      cbn [fst snd] in Hr. rewrite Hr by reflexivity.
      apply insert_id. exact Hh.
    + split; [discriminate|]. split; [discriminate | intros [_ ?]; discriminate].
Qed.

Lemma orderRoute_refusals_change_nothing_witness :
  (orderRoute sampleNet Sample.lib Sample.sched Sample.outside ["PATH=/bin"]
     Sample.services (fun _ => true) RateLimitMiddleware Sample.world
     Sample.request 0).2 = Forbidden
  <-> IPWhitelistMiddleware sampleNet Sample.lib ["PATH=/bin"] Sample.request = false.
Proof.
  assert (Ha : all_alias RateLimitMiddleware)
    by (intros i l Hl; cbn in Hl; now rewrite lookup_empty in Hl).
  destruct (orderRoute_refusals_change_nothing sampleNet Sample.lib Sample.sched
              Sample.outside ["PATH=/bin"] Sample.services (fun _ => true)
              RateLimitMiddleware Sample.world Sample.request 0 Ha) as (_ & _ & _ & H).
  rewrite H. split; [now intros [_ ?] | now split].
Defined.


(* ===================================================================== *)
(** * Migrations *)
(* ===================================================================== *)

Section MigrationFacts.

Lemma compare_Lt_trans s1 :
  forall s2 s3,
    String.compare s1 s2 = Lt -> String.compare s2 s3 = Lt -> String.compare s1 s3 = Lt.
Proof.
  induction s1 as [|c1 s1 IH]; intros [|c2 s2] [|c3 s3]; simpl; try congruence.
  destruct (Ascii.compare c1 c2) eqn:E12; try discriminate;
    destruct (Ascii.compare c2 c3) eqn:E23; try discriminate.
  - apply Ascii.compare_eq_iff in E12. rewrite E12, E23. apply IH.
  - apply Ascii.compare_eq_iff in E12. rewrite E12, E23. reflexivity.
  - apply Ascii.compare_eq_iff in E23. rewrite <- E23, E12. reflexivity.
  - unfold Ascii.compare in *.
    apply N.compare_lt_iff in E12. apply N.compare_lt_iff in E23.
    rewrite (proj2 (N.compare_lt_iff _ _) (N.lt_trans _ _ _ E12 E23)). reflexivity.
Qed.

Lemma leb_trans s1 s2 s3 :
  String.leb s1 s2 = true -> String.leb s2 s3 = true -> String.leb s1 s3 = true.
Proof.
  unfold String.leb.
  destruct (String.compare s1 s2) eqn:E12; try discriminate;
    destruct (String.compare s2 s3) eqn:E23; try discriminate; intros _ _.
  - apply String.compare_eq_iff in E12. rewrite E12. now rewrite E23.
  - apply String.compare_eq_iff in E12. rewrite E12. now rewrite E23.
  - apply String.compare_eq_iff in E23. rewrite <- E23. now rewrite E12.
  - now rewrite (compare_Lt_trans s1 s2 s3 E12 E23).
Qed.

Lemma StronglySorted_filter {A} (R : A -> A -> Prop) (f : A -> bool) l :
  StronglySorted R l -> StronglySorted R (List.filter f l).
Proof.
  induction 1 as [|a l Hs IH Hall]; [constructor|].
  cbn [List.filter]. destruct (f a); [|exact IH].
  constructor; [exact IH|].
  rewrite List.Forall_forall in *. intros x Hx.
  apply List.filter_In in Hx as [Hx _]. now apply Hall.
Qed.

Lemma isApplied_In applied file : isApplied applied file = true <-> In file applied.
Proof.
  unfold isApplied. rewrite existsb_exists. split.
  - intros (x & Hin & Heq). apply String.eqb_eq in Heq. now subst.
  - intros Hin. exists file. split; [exact Hin | apply String.eqb_refl].
Qed.

Variables (faults : DbFaults) (w : World).

(** What the loop has done when it succeeds. *)
Lemma applyLoop_ok applied files :
  forall tx tx',
    applyLoop faults w applied files tx = Ok tx' ->
    let new := List.filter (fun file => negb (isApplied applied file)) files in
    hasMigrationsTable tx' = hasMigrationsTable tx
    /\ migrations tx' = (migrations tx ++ new)%list
    /\ executed tx' = (executed tx ++ map (scriptOf w) new)%list
    /\ (forall file, In file new ->
          is_Some (ReadFile w (Join migrationsDir file))
          /\ scriptFails faults (scriptOf w file) = false
          /\ recordFails faults file = false).
Proof.
  induction files as [|file rest IH]; intros tx tx' H; cbv zeta.
  - injection H as <-. cbn. rewrite !app_nil_r.
    split; [reflexivity|]. split; [reflexivity|]. split; [reflexivity|].
    intros f [].
  - cbn [applyLoop List.filter] in *.
    destruct (isApplied applied file) eqn:Ha; cbn [negb]; [now apply IH|].
    destruct (ReadFile w (Join migrationsDir file)) as [sqlBytes|] eqn:Hr; [|discriminate].
    destruct (scriptFails faults (string_of_list_byte sqlBytes)) eqn:Hs; [discriminate|].
    destruct (recordFails faults file) eqn:Hrec; [discriminate|]. cbn [orb] in H.
    destruct (isApplied (migrations tx) file); [discriminate|].
    apply IH in H as (Ht & Hm & He & Hnew). cbn [hasMigrationsTable migrations executed] in *.
    assert (Hscript : scriptOf w file = string_of_list_byte sqlBytes)
      by (unfold scriptOf; now rewrite Hr).
    split; [exact Ht|]. split; [now rewrite Hm, <- app_assoc|].
    split; [cbn [map]; now rewrite He, <- app_assoc, Hscript|].
    intros f [<-|Hin]; [|now apply Hnew].
    rewrite Hscript, Hr. eauto.
Qed.

(** With every file applied the loop does nothing, whatever the files
    hold and whatever would fail. *)
Lemma applyLoop_skip applied files tx :
  (forall file, In file files -> In file applied) ->
  applyLoop faults w applied files tx = Ok tx.
Proof.
  induction files as [|file rest IH]; intros H; [reflexivity|].
  cbn [applyLoop]. rewrite (proj2 (isApplied_In applied file)) by (apply H; now left).
  apply IH. intros f Hf. apply H. now right.
Qed.

End MigrationFacts.

(** X26: applyMigrations is all or nothing: when it returns an error, no
    migration has been recorded and no script has taken effect; when it
    succeeds, the new names recorded are the .sql files of the directory
    that were not recorded before, in ascending order of their names,
    the scripts executed are the contents of these files in the same
    order, and afterwards every .sql file of the directory is
    recorded. *)
Theorem applyMigrations_all_or_nothing :
  forall (faults : DbFaults) (w : World) (entries : option (list (string * bool)))
         (db : Database),
    let db' := (applyMigrations faults w entries db).1 in
    let err := (applyMigrations faults w entries db).2 in
    (err <> None -> migrations db' = migrations db /\ executed db' = executed db)
    /\ (err = None ->
        exists listing new,
          entries = Some listing
          /\ new = List.filter (fun file => negb (isApplied (migrations db) file))
                               (migrationFiles listing)
          /\ migrations db' = (migrations db ++ new)%list
          /\ executed db' = (executed db ++ map (scriptOf w) new)%list
          /\ StronglySorted (fun a b => String.leb a b = true) new
          /\ (forall name, In (name, false) listing -> Ext name = ".sql" ->
                           In name (migrations db'))).
Proof.
  intros faults w entries db. cbv zeta. unfold applyMigrations.
  destruct (createFails faults); [cbn; split; [auto | discriminate]|].
  destruct entries as [listing|]; [|cbn; split; [auto | discriminate]].
  cbv zeta.
  destruct (beginFails faults); [cbn; split; [auto | discriminate]|].
  destruct (queryFails faults); [cbn; split; [auto | discriminate]|].
  cbn [migrations].
  destruct (applyLoop faults w (migrations db) (migrationFiles listing) _) as [tx|e] eqn:Hloop;
    [|cbn; split; [auto | discriminate]].
  destruct (commitFails faults); [cbn; split; [auto | discriminate]|].
  cbn [fst snd]. split; [congruence|]. intros _.
  apply applyLoop_ok in Hloop as (_ & Hm & He & _). cbn [migrations executed] in *.
  exists listing, (List.filter (fun file => negb (isApplied (migrations db) file))
                               (migrationFiles listing)).
  split; [reflexivity|]. split; [reflexivity|]. split; [exact Hm|]. split; [exact He|].
  split.
  - apply StronglySorted_filter. unfold migrationFiles.
    apply StringSort.StronglySorted_sort.
    intros a b c Hab Hbc. unfold is_true in *. now apply (leb_trans a b c).
  - intros name Hin Hext. rewrite Hm. apply in_or_app.
    destruct (isApplied (migrations db) name) eqn:Ha.
    + left. now apply isApplied_In.
    + right. apply List.filter_In. split; [|now rewrite Ha].
      unfold migrationFiles.
      apply (Permutation_in name (StringSort.Permuted_sort _)).
      apply in_map_iff. exists (name, false). split; [reflexivity|].
      apply List.filter_In. split; [exact Hin|]. cbn. now rewrite Hext.
Qed.

(** X27: applying the migrations twice is applying them once: after a
    successful run, another run over the same directory succeeds and
    changes nothing, even when the migration files can no longer be
    read or their scripts would fail, as long as the transaction itself
    works. *)
Theorem applyMigrations_idempotent :
  forall (faults faults' : DbFaults) (w w' : World) (listing : list (string * bool))
         (db db' : Database),
    applyMigrations faults w (Some listing) db = (db', None) ->
    createFails faults' = false -> beginFails faults' = false ->
    queryFails faults' = false -> commitFails faults' = false ->
    applyMigrations faults' w' (Some listing) db' = (db', None).
Proof.
  intros faults faults' w w' listing db db' H Hc Hb Hq Hm.
  unfold applyMigrations in *. rewrite Hc, Hb, Hq, Hm. cbv zeta in *.
  destruct (createFails faults); [discriminate|].
  destruct (beginFails faults); [discriminate|].
  destruct (queryFails faults); [discriminate|].
  cbn [migrations] in H.
  destruct (applyLoop faults w (migrations db) (migrationFiles listing) _) as [tx|e] eqn:Hloop;
    [|discriminate].
  destruct (commitFails faults); [discriminate|]. injection H as ->.
  apply applyLoop_ok in Hloop as (Ht & Hmig & He & _).
  cbn [hasMigrationsTable migrations executed] in *.
  rewrite applyLoop_skip.
  - f_equal. destruct db' as [t m e]. cbn in *. now subst t.
  - intros file Hin. cbn [migrations]. rewrite Hmig. apply in_or_app.
    destruct (isApplied (migrations db) file) eqn:Ha.
    + left. now apply isApplied_In.
    + right. apply List.filter_In. split; [exact Hin | now rewrite Ha].
Qed.

Lemma applyMigrations_idempotent_witness :
  applyMigrations noFaults Sample.world (Some sampleEntries)
    (applyMigrations noFaults sampleDir (Some sampleEntries) emptyDatabase).1
  = ((applyMigrations noFaults sampleDir (Some sampleEntries) emptyDatabase).1, None).
Proof.
  apply (applyMigrations_idempotent noFaults noFaults sampleDir Sample.world sampleEntries
           emptyDatabase); reflexivity.
Defined.


(* ===================================================================== *)
(** * The client address, the maintenance sweep and the consents *)
(* ===================================================================== *)

Section AddressFacts.

Lemma firstField_Split s : firstField s = hd "" (Split s).
Proof.
  induction s as [|c s IH]; [reflexivity|].
  cbn [firstField Split]. destruct (Ascii.eqb c ","); [reflexivity|].
  rewrite IH. now destruct (Split s).
Qed.

Lemma firstField_append first rest :
  hasByte "," first = false -> firstField (first ++ "," ++ rest) = first.
Proof.
  induction first as [|c first IH]; intros H; [reflexivity|].
  cbn [hasByte] in H. apply orb_false_iff in H as [Hc Hf].
  rewrite append_cons. cbn [firstField]. rewrite Hc. now rewrite IH.
Qed.

End AddressFacts.

(** X28: GetRealIP believes the request headers before the connection:
    when X-Forwarded-For is not empty the address is its text before the
    first comma, trimmed, whatever X-Real-IP and the peer address are, so
    two requests with the same X-Forwarded-For get the same address;
    otherwise a non-empty X-Real-IP is returned as it is. *)
Theorem GetRealIP_believes_headers :
  forall (lib : Lib) (r : Request),
    (forall first rest,
        hasByte "," first = false ->
        HeaderGet r "X-Forwarded-For" = first ++ "," ++ rest ->
        GetRealIP lib r = TrimSpace lib first)
    /\ (hasByte "," (HeaderGet r "X-Forwarded-For") = false ->
        HeaderGet r "X-Forwarded-For" <> "" ->
        GetRealIP lib r = TrimSpace lib (HeaderGet r "X-Forwarded-For"))
    /\ (forall r',
          HeaderGet r "X-Forwarded-For" <> "" ->
          HeaderGet r' "X-Forwarded-For" = HeaderGet r "X-Forwarded-For" ->
          GetRealIP lib r' = GetRealIP lib r)
    /\ (HeaderGet r "X-Forwarded-For" = "" ->
        HeaderGet r "X-Real-IP" <> "" ->
        GetRealIP lib r = HeaderGet r "X-Real-IP")
    /\ GetRealIP lib r
       = if negb (String.eqb (HeaderGet r "X-Forwarded-For") "")
         then TrimSpace lib (hd "" (Split (HeaderGet r "X-Forwarded-For")))
         else if negb (String.eqb (HeaderGet r "X-Real-IP") "")
         then HeaderGet r "X-Real-IP"
         else SplitHost lib (RemoteAddr r).
Proof.
  intros lib r. split; [|split; [|split; [|split]]].
  - intros first rest Hf E. unfold GetRealIP. rewrite E.
    rewrite firstField_append by exact Hf.
    destruct first; reflexivity.
  - intros Hf Hne. unfold GetRealIP. apply String.eqb_neq in Hne. rewrite Hne. cbn [negb].
    f_equal. clear Hne. induction (HeaderGet r "X-Forwarded-For") as [|c s IH]; [reflexivity|].
    cbn [hasByte] in Hf. apply orb_false_iff in Hf as [Hc Hs].
    cbn [firstField]. rewrite Hc. now rewrite IH.
  - intros r' Hne E. unfold GetRealIP. rewrite E.
    apply String.eqb_neq in Hne. now rewrite Hne.
  - intros E Hne. unfold GetRealIP. rewrite E. cbn.
    apply String.eqb_neq in Hne. now rewrite Hne.
  - unfold GetRealIP. now rewrite firstField_Split.
Qed.

Section SweepFacts.

Variable filepathJoin : string -> string -> string.
Variables (removeFails : string -> bool) (dir : string) (olderThan : Z).

Lemma cleanEntry_records w entry :
  same_records w (cleanEntry filepathJoin removeFails dir olderThan w entry)
  /\ timers (cleanEntry filepathJoin removeFails dir olderThan w entry) = timers w.
Proof.
  unfold cleanEntry. destruct (EIsDir entry); [now repeat split|].
  destruct (EAge entry) as [age|]; [|now repeat split].
  destruct (age >? olderThan)%Z; [|now repeat split].
  cbv zeta. destruct (removeFails _); now repeat split.
Qed.

Lemma sweep_lookup entries :
  forall w path,
    files (fold_left (cleanEntry filepathJoin removeFails dir olderThan) entries w) !! path
    = if due filepathJoin removeFails dir olderThan entries path then None
      else files w !! path.
Proof.
  induction entries as [|entry entries IH]; intros w path; [reflexivity|].
  cbn [fold_left due existsb].
  fold (due filepathJoin removeFails dir olderThan entries path).
  rewrite IH. destruct (due filepathJoin removeFails dir olderThan entries path);
    [now rewrite orb_true_r|]. rewrite orb_false_r.
  unfold cleanEntry. destruct (EIsDir entry); [reflexivity|]. cbn [negb andb].
  destruct (EAge entry) as [age|]; [|reflexivity].
  destruct (age >? olderThan)%Z; [|reflexivity]. cbn [andb]. cbv zeta.
  destruct (String.eqb_spec (filepathJoin dir (EName entry)) path) as [->|Hne]; cbn [andb].
  - destruct (removeFails path); [reflexivity|]. cbn [negb].
    unfold Remove. cbn [files set_files]. apply lookup_delete_eq.
  - destruct (removeFails _); [reflexivity|].
    unfold Remove. cbn [files set_files]. now apply lookup_delete_ne.
Qed.

Lemma sweep_records entries :
  forall w,
    same_records w (fold_left (cleanEntry filepathJoin removeFails dir olderThan) entries w)
    /\ timers (fold_left (cleanEntry filepathJoin removeFails dir olderThan) entries w)
       = timers w.
Proof.
  induction entries as [|entry entries IH]; intros w; [now repeat split|].
  cbn [fold_left].
  destruct (IH (cleanEntry filepathJoin removeFails dir olderThan w entry)) as [Hs Ht].
  destruct (cleanEntry_records w entry) as [Hs' Ht'].
  split; [eapply same_records_trans; eassumption | congruence].
Qed.

(** A path is not due when none of the entries that name it is a file
    older than the limit. *)
Lemma due_false entries path :
  (forall entry age,
      In entry entries -> filepathJoin dir (EName entry) = path ->
      EIsDir entry = false -> EAge entry = Some age -> (age <= olderThan)%Z) ->
  due filepathJoin removeFails dir olderThan entries path = false.
Proof.
  intros H. unfold due.
  destruct (existsb _ entries) eqn:Hd; [|reflexivity].
  exfalso. apply existsb_exists in Hd as (entry & Hin & Hc).
  apply andb_true_iff in Hc as [Hc _]. apply andb_true_iff in Hc as [Hc Hp].
  apply andb_true_iff in Hc as [Hdir Ha]. apply String.eqb_eq in Hp.
  apply negb_true_iff in Hdir.
  destruct (EAge entry) as [age|] eqn:Hage; [|discriminate].
  specialize (H entry age Hin Hp Hdir Hage). lia.
Qed.

End SweepFacts.

(** X29: whatever path filepath.Join gives, CleanOldFiles fails only when
    the directory cannot be listed, and then changes nothing; otherwise
    the files it leaves are exactly those that are not due, where a path
    is due when the listing holds a file (not a directory) joined to that
    path whose age is strictly greater than the limit and whose removal
    works. So a path stays when every listed file joined to it is at most
    as old as the limit (exactly as old included), when no entry is
    joined to it, and when the information of its entry cannot be read;
    and no record other than the filesystem changes. *)
Theorem CleanOldFiles_removes_exactly_the_due_files :
  forall (filepathJoin : string -> string -> string)
         (removeFails : string -> bool) (w : World) (dir : string) (olderThan : Z)
         (entries : option (list DirEntry)),
    let w' := (CleanOldFiles filepathJoin removeFails w dir olderThan entries).1 in
    ((CleanOldFiles filepathJoin removeFails w dir olderThan entries).2 = true
     <-> entries = None)
    /\ (entries = None -> w' = w)
    /\ same_records w w' /\ timers w' = timers w
    /\ files w' ⊆ files w
    /\ (forall listing path,
          entries = Some listing ->
          files w' !! path
          = if due filepathJoin removeFails dir olderThan listing path then None
            else files w !! path)
    /\ (forall listing path,
          entries = Some listing ->
          (forall entry age,
              In entry listing -> filepathJoin dir (EName entry) = path ->
              EIsDir entry = false -> EAge entry = Some age -> (age <= olderThan)%Z) ->
          files w' !! path = files w !! path)
    /\ (forall listing entry age,
          entries = Some listing ->
          In entry listing -> EIsDir entry = false -> EAge entry = Some age ->
          (age > olderThan)%Z ->
          removeFails (filepathJoin dir (EName entry)) = false ->
          files w' !! filepathJoin dir (EName entry) = None).
Proof.
  intros filepathJoin removeFails w dir olderThan entries. cbv zeta.
  destruct entries as [listing|]; cbn [CleanOldFiles fst snd].
  2:{ split; [split; reflexivity|]. split; [reflexivity|].
      split; [apply same_records_refl|]. split; [reflexivity|]. split; [reflexivity|].
      split; [discriminate|]. split; discriminate. }
  split; [split; discriminate|]. split; [discriminate|].
  destruct (sweep_records filepathJoin removeFails dir olderThan listing w) as [Hs Ht].
  split; [exact Hs|]. split; [exact Ht|]. split; [|split; [|split]].
  - apply map_subseteq_spec. intros path content Hl.
    rewrite sweep_lookup in Hl. now destruct (due _ _ _ _ _ _).
  - intros l path [= <-]. apply sweep_lookup.
  - intros l path [= <-] Hyoung. rewrite sweep_lookup.
    now rewrite (due_false filepathJoin removeFails dir olderThan listing path Hyoung).
  - intros l entry age [= <-] Hin Hdir Hage Hold Hrm. rewrite sweep_lookup.
    assert (Hd : due filepathJoin removeFails dir olderThan listing
                   (filepathJoin dir (EName entry)) = true).
    { unfold due. apply existsb_exists. exists entry. split; [exact Hin|].
      rewrite Hdir, Hage, Hrm, String.eqb_refl. cbn [negb andb].
      apply andb_true_iff. split; [|reflexivity]. apply andb_true_iff. split; [|reflexivity].
      apply Z.gtb_lt. lia. }
    now rewrite Hd.
Qed.

(** X30: HandleCookieConsent answers 200 exactly when the consent is
    decoded, names a service, a fingerprint and a timestamp, and the
    database takes the row; then exactly one row is added, holding the
    six fields of the body as they were sent, and the answer names the
    service; otherwise the table is left as it was. The language of the
    consent is never stored and never changes the answer. *)
Theorem HandleCookieConsent_logs_one_row :
  forall (rejects : Consent.ConsentRow -> bool) (table : list Consent.ConsentRow)
         (decoded : option Consent.CookieConsent),
    let table' := (Consent.HandleCookieConsent rejects table decoded).1 in
    let resp := (Consent.HandleCookieConsent rejects table decoded).2 in
    (code resp = 200%Z
     <-> exists consent,
           decoded = Some consent
           /\ Consent.ServiceName consent <> "" /\ Consent.Fingerprint consent <> ""
           /\ Consent.Timestamp consent <> ""
           /\ rejects (Consent.consentRow consent) = false)
    /\ (forall consent,
          code resp = 200%Z -> decoded = Some consent ->
          table' = (table ++ [Consent.consentRow consent])%list
          /\ payload resp !! "service" = Some (Consent.ServiceName consent))
    /\ (code resp <> 200%Z -> table' = table)
    /\ (code resp = 200%Z \/ code resp = 400%Z \/ code resp = 500%Z)
    /\ (forall consent lang,
          decoded = Some consent ->
          Consent.HandleCookieConsent rejects table (Some (Consent.withLanguage lang consent))
          = Consent.HandleCookieConsent rejects table decoded).
Proof.
  intros rejects table decoded. cbv zeta.
  destruct decoded as [consent|]; cbn [Consent.HandleCookieConsent].
  2:{ cbn. split; [split; [discriminate | intros (? & ? & _); discriminate]|].
      split; [discriminate|]. split; [reflexivity|]. split; [auto | discriminate]. }
  assert (Hlang : forall lang,
             Consent.HandleCookieConsent rejects table (Some (Consent.withLanguage lang consent))
             = Consent.HandleCookieConsent rejects table (Some consent)) by reflexivity.
  cbn [Consent.HandleCookieConsent] in Hlang.
  destruct (String.eqb_spec (Consent.ServiceName consent) "") as [Hs|Hs].
  { cbn. split; [split; [discriminate | intros (c & [= <-] & ? & _); contradiction]|].
    split; [discriminate|]. split; [reflexivity|]. split; [auto|].
    intros c lang [= <-]. apply Hlang. }
  destruct (String.eqb_spec (Consent.Fingerprint consent) "") as [Hf|Hf].
  { cbn. split; [split; [discriminate | intros (c & [= <-] & _ & ? & _); contradiction]|].
    split; [discriminate|]. split; [reflexivity|]. split; [auto|].
    intros c lang [= <-]. apply Hlang. }
  destruct (String.eqb_spec (Consent.Timestamp consent) "") as [Ht|Ht].
  { cbn. split; [split; [discriminate | intros (c & [= <-] & _ & _ & ? & _); contradiction]|].
    split; [discriminate|]. split; [reflexivity|]. split; [auto|].
    intros c lang [= <-]. apply Hlang. }
  cbn [orb] in *. unfold Consent.logConsentToDB in *. cbv zeta in *.
  destruct (rejects (Consent.consentRow consent)) eqn:Hr.
  - cbn. split; [split; [discriminate | intros (c & [= <-] & _ & _ & _ & ?); congruence]|].
    split; [discriminate|]. split; [reflexivity|]. split; [auto|].
    intros c lang [= <-]. apply Hlang.
  - cbn [fst snd code payload respondWithJSON].
    split; [split; [intros _; exists consent; auto | reflexivity]|].
    split.
    { intros c _ [= <-]. split; [reflexivity|].
      rewrite lookup_insert_ne by discriminate. apply lookup_insert_eq. }
    split; [congruence|]. split; [auto|].
    intros c lang [= <-]. apply Hlang.
Qed.
